(** * A paged-file storage manager and a buffer pool over it

    Shallow embedding of [Assign1/storage_mgr.c] (the page file) and of the
    buffer manager (frame table, pinning, FIFO and LRU replacement,
    write-back), followed by the properties established about them.

    Conventions of the embedding:
    - C [int] values ([PageNumber], [pinCount], queue indices) are [Z];
      signed overflow is undefined in C and lies outside the embedding.
      The [unsigned] counters [readIO] and [writeIO] wrap modulo 2^32.
    - A [Frame *] is the index of the frame in the frame array, [None]
      standing for [NULL]; the frame array is a list.  Reading through an
      index outside the array, undefined in C, yields no frame here.
    - The C library and the file system form the [World]: a finite map
      from file names to byte contents, and a script of faults consumed
      by the library calls whose result the program can observe.
    - [PAGE_SIZE] comes from [dberror.h], which is not part of the
      sources at hand; it is a parameter of the whole development. *)

From Stdlib Require Import ZArith Lia.
From stdpp Require Import base option list gmap strings.

Local Open Scope Z_scope.

Abbreviation byte := Byte.byte.
Abbreviation zero_byte := Byte.x00.

(** ** Return codes and constants

    Modelled from the spec: the error taxonomy of [dberror.h]. *)
Inductive RC : Set :=
  | RC_OK
  | RC_FILE_NOT_FOUND
  | RC_FILE_HANDLE_NOT_INIT
  | RC_WRITE_FAILED
  | RC_READ_NON_EXISTING_PAGE.

#[global] Instance RC_eq_dec : EqDecision RC.
Proof. solve_decision. Defined.

(** Modelled from the spec: the strategy identifiers of [buffer_mgr.h],
    which is not among the sources; the code names [RS_FIFO], [RS_LRU] and
    [RS_LRU_K], the spec reserves CLOCK and LFU as well. *)
Inductive ReplacementStrategy : Set :=
  | RS_FIFO
  | RS_LRU
  | RS_CLOCK
  | RS_LFU
  | RS_LRU_K.

#[global] Instance ReplacementStrategy_eq_dec : EqDecision ReplacementStrategy.
Proof. solve_decision. Defined.

(** Modelled from the spec: page numbers are C [int]s and [NO_PAGE] is -1
    ([buffer_mgr.h] is not among the sources). *)
Definition PageNumber := Z.
Definition NO_PAGE : PageNumber := -1.

(** ** The world: files and the fault script *)

Record World := mkWorld {
  files : gmap string (list byte);
  (** outcome of the next observable library calls: [None] lets the call
      succeed; [Some k] makes it fail, a transfer stopping after [k] bytes *)
  faults : list (option nat);
  (** contents of memory obtained from [malloc] *)
  junk_byte : byte;
  junk_int : Z
}.

Definition set_files (fs : gmap string (list byte)) (w : World) : World :=
  mkWorld fs (faults w) (junk_byte w) (junk_int w).

Definition set_faults (l : list (option nat)) (w : World) : World :=
  mkWorld (files w) l (junk_byte w) (junk_int w).

Definition next_fault (w : World) : option nat * World :=
  match faults w with
  | [] => (None, w)
  | f :: l => (f, set_faults l w)
  end.

Definition file_bytes (w : World) (name : string) : list byte :=
  default [] (files w !! name).

(** A stream: the file it is open on and its position. *)
Record FILE := mkFILE {
  f_name : string;
  f_pos : nat
}.

Definition advance (n : nat) (fp : FILE) : FILE :=
  mkFILE (f_name fp) (f_pos fp + n)%nat.

(** Bytes [buf] stored at offset [pos]; a gap past the end reads as zeros. *)
Definition write_at (content : list byte) (pos : nat) (buf : list byte) : list byte :=
  take pos content ++ replicate (pos - length content)%nat zero_byte
    ++ buf ++ drop (pos + length buf)%nat content.

(** [fopen(name, "wb")]: create or truncate. *)
Definition fopen_wb (name : string) (w : World) : option FILE * World :=
  let '(f, w1) := next_fault w in
  match f with
  | Some _ => (None, w1)
  | None => (Some (mkFILE name 0), set_files (<[name := []]> (files w1)) w1)
  end.

(** [fopen(name, "rb+")]: the file must exist. *)
Definition fopen_rbplus (name : string) (w : World) : option FILE * World :=
  let '(f, w1) := next_fault w in
  match f, files w1 !! name with
  | None, Some _ => (Some (mkFILE name 0), w1)
  | _, _ => (None, w1)
  end.

(** [fseek(fp, off, SEEK_SET)]; the boolean is [true] when it returns 0. *)
Definition fseek_set (off : Z) (fp : FILE) (w : World) : bool * FILE * World :=
  let '(f, w1) := next_fault w in
  match f with
  | Some _ => (false, fp, w1)
  | None => if off <? 0 then (false, fp, w1)
            else (true, mkFILE (f_name fp) (Z.to_nat off), w1)
  end.

(** [fseek(fp, 0, SEEK_END)]. *)
Definition fseek_end (fp : FILE) (w : World) : bool * FILE * World :=
  let '(f, w1) := next_fault w in
  match f with
  | Some _ => (false, fp, w1)
  | None => (true, mkFILE (f_name fp) (length (file_bytes w1 (f_name fp))), w1)
  end.

Definition ftell (fp : FILE) (w : World) : Z * World :=
  let '(f, w1) := next_fault w in
  match f with
  | Some _ => (-1, w1)
  | None => (Z.of_nat (f_pos fp), w1)
  end.

(** [fread(buf, 1, n, fp)]: the bytes obtained; their number is the
    value returned by the call. *)
Definition fread (n : nat) (fp : FILE) (w : World) : list byte * FILE * World :=
  let '(f, w1) := next_fault w in
  let avail := take n (drop (f_pos fp) (file_bytes w1 (f_name fp))) in
  let got := match f with None => avail | Some k => take k avail end in
  (got, advance (length got) fp, w1).

(** [fwrite(buf, 1, n, fp)]: the number of bytes written. *)
Definition fwrite (buf : list byte) (n : nat) (fp : FILE) (w : World)
  : nat * FILE * World :=
  let '(f, w1) := next_fault w in
  let out := match f with None => take n buf | Some k => take (k `min` n)%nat buf end in
  (length out, advance (length out) fp,
   set_files (<[f_name fp := write_at (file_bytes w1 (f_name fp)) (f_pos fp) out]>
                (files w1)) w1).

(** Writes reach the file at once, so [fflush] has nothing left to do. *)
Definition fflush (fp : FILE) : FILE := fp.

Definition fclose (fp : FILE) (w : World) : bool * World :=
  let '(f, w1) := next_fault w in
  match f with
  | Some _ => (false, w1)
  | None => (true, w1)
  end.

(** [calloc(n, 1)]. *)
Definition calloc (n : nat) (w : World) : option (list byte) * World :=
  let '(f, w1) := next_fault w in
  match f with
  | Some _ => (None, w1)
  | None => (Some (replicate n zero_byte), w1)
  end.

(** A [malloc] whose result the caller tests. *)
Definition malloc_checked (w : World) : bool * World :=
  let '(f, w1) := next_fault w in
  match f with
  | Some _ => (false, w1)
  | None => (true, w1)
  end.

(** ** Storage manager data

    [fp] is the stream itself: [allocateFileContext] is only ever given an
    open stream, so the [FILE *] of a context is never [NULL].  The static
    [globalOpenCtx] is only read by [destroyPageFile], which is not part of
    this development. *)

Record FileContext := mkFileContext {
  fp : FILE;
  fname : string;
  pages : Z
}.

(** Modelled from the spec: the handle of [storage_mgr.h], which is not
    among the sources, with the four fields [storage_mgr.c] assigns. *)
Record SM_FileHandle := mkFileHandle {
  fileName : option string;
  totalNumPages : Z;
  curPagePos : Z;
  mgmtInfo : option FileContext
}.

Definition blank_handle : SM_FileHandle := mkFileHandle None 0 0 None.

Definition set_fp (s : FILE) (c : FileContext) : FileContext :=
  mkFileContext s (fname c) (pages c).

Definition with_ctx (c : FileContext) (h : SM_FileHandle) : SM_FileHandle :=
  mkFileHandle (fileName h) (totalNumPages h) (curPagePos h) (Some c).

Definition set_curPagePos (p : Z) (h : SM_FileHandle) : SM_FileHandle :=
  mkFileHandle (fileName h) (totalNumPages h) p (mgmtInfo h).

(** ** Buffer manager data *)

Record Frame := mkFrame {
  pageId : PageNumber;
  data : list byte;
  isDirty : bool;
  pinCount : Z;
  prev : option nat;
  next : option nat
}.

Record PoolMetadata := mkPool {
  fh : SM_FileHandle;
  frames : list Frame;
  strat : ReplacementStrategy;
  readIO : Z;
  writeIO : Z;
  fifoQ : list Z;
  fifoHead : Z;
  fifoCount : Z;
  lruHead : option nat;
  lruTail : option nat
}.

(** [md->capacity] is set once, to the number of frames allocated: it is
    the length of the frame array, and the loops [for (i = 0; i <
    md->capacity; i++)] run over that array. *)
Definition capacity (md : PoolMetadata) : Z := Z.of_nat (length (frames md)).

(** Modelled from the spec: the pool and page handles of [buffer_mgr.h],
    with the fields the buffer manager assigns. *)
Record BM_BufferPool := mkBM {
  pageFile : option string;
  numPages : Z;
  strategy : ReplacementStrategy;
  mgmtData : option PoolMetadata
}.

(** [ph->data] points into a frame: it is that frame's index. *)
Record BM_PageHandle := mkPageHandle {
  pageNum : PageNumber;
  ph_data : option nat
}.

Definition set_fh (h : SM_FileHandle) (md : PoolMetadata) : PoolMetadata :=
  mkPool h (frames md) (strat md) (readIO md) (writeIO md)
    (fifoQ md) (fifoHead md) (fifoCount md) (lruHead md) (lruTail md).

Definition set_frames (F : list Frame) (md : PoolMetadata) : PoolMetadata :=
  mkPool (fh md) F (strat md) (readIO md) (writeIO md)
    (fifoQ md) (fifoHead md) (fifoCount md) (lruHead md) (lruTail md).

Definition set_readIO (n : Z) (md : PoolMetadata) : PoolMetadata :=
  mkPool (fh md) (frames md) (strat md) n (writeIO md)
    (fifoQ md) (fifoHead md) (fifoCount md) (lruHead md) (lruTail md).

Definition set_writeIO (n : Z) (md : PoolMetadata) : PoolMetadata :=
  mkPool (fh md) (frames md) (strat md) (readIO md) n
    (fifoQ md) (fifoHead md) (fifoCount md) (lruHead md) (lruTail md).

Definition set_fifo (q : list Z) (h c : Z) (md : PoolMetadata) : PoolMetadata :=
  mkPool (fh md) (frames md) (strat md) (readIO md) (writeIO md)
    q h c (lruHead md) (lruTail md).

Definition set_lru (F : list Frame) (h t : option nat) (md : PoolMetadata)
  : PoolMetadata :=
  mkPool (fh md) F (strat md) (readIO md) (writeIO md)
    (fifoQ md) (fifoHead md) (fifoCount md) h t.

Definition set_strat (s : ReplacementStrategy) (md : PoolMetadata) : PoolMetadata :=
  mkPool (fh md) (frames md) s (readIO md) (writeIO md)
    (fifoQ md) (fifoHead md) (fifoCount md) (lruHead md) (lruTail md).

Definition with_md (md : PoolMetadata) (bm : BM_BufferPool) : BM_BufferPool :=
  mkBM (pageFile bm) (numPages bm) (strategy bm) (Some md).

Definition set_prev (v : option nat) (f : Frame) : Frame :=
  mkFrame (pageId f) (data f) (isDirty f) (pinCount f) v (next f).

Definition set_next (v : option nat) (f : Frame) : Frame :=
  mkFrame (pageId f) (data f) (isDirty f) (pinCount f) (prev f) v.

Definition set_dirty (b : bool) (f : Frame) : Frame :=
  mkFrame (pageId f) (data f) b (pinCount f) (prev f) (next f).

Definition set_pin (n : Z) (f : Frame) : Frame :=
  mkFrame (pageId f) (data f) (isDirty f) n (prev f) (next f).

Definition set_data (d : list byte) (f : Frame) : Frame :=
  mkFrame (pageId f) d (isDirty f) (pinCount f) (prev f) (next f).

(** The three assignments [pageId = pid; isDirty = false; pinCount = 1]. *)
Definition loaded (pid : PageNumber) (f : Frame) : Frame :=
  mkFrame pid (data f) false 1 (prev f) (next f).

(** [unsigned] increment. *)
Definition uincr (n : Z) : Z := (n + 1) mod 2 ^ 32.

Section Pager.

(** Modelled from the spec: [PAGE_SIZE], the compile-time page size of
    [dberror.h] (4096 in the course material). *)
Variable PAGE_SIZE : nat.

Definition PAGE_SIZE_BYTES : nat := PAGE_SIZE.

(** ** Storage manager ([storage_mgr.c])

    [THROW(rc, msg)] records the message and returns [rc]; only the
    returned code is kept here.  An out-parameter is returned next to
    the code. *)

Definition createPageFile (fileName : string) (w : World) : RC * World :=
  match fopen_wb fileName w with
  | (None, w1) => (RC_WRITE_FAILED, w1)
  | (Some s, w1) =>
    match calloc PAGE_SIZE_BYTES w1 with
    | (None, w2) =>
      let '(_, w3) := fclose s w2 in (RC_WRITE_FAILED, w3)
    | (Some zeroBuf, w2) =>
      let '(written, s1, w3) := fwrite zeroBuf PAGE_SIZE_BYTES s w2 in
      if (written <? PAGE_SIZE_BYTES)%nat then
        let '(_, w4) := fclose s1 w3 in (RC_WRITE_FAILED, w4)
      else
        let '(_, w4) := fclose (fflush s1) w3 in (RC_OK, w4)
    end
  end.

Definition allocateFileContext (fileName : string) (s : FILE) (totalPages : Z)
    (w : World) : option FileContext * World :=
  let '(ok, w1) := malloc_checked w in
  if ok then (Some (mkFileContext s fileName totalPages), w1) else (None, w1).

Definition openPageFile (name : string) (fHandle : SM_FileHandle) (w : World)
  : RC * SM_FileHandle * World :=
  match fopen_rbplus name w with
  | (None, w1) => (RC_FILE_NOT_FOUND, fHandle, w1)
  | (Some s, w1) =>
    let '(ok, s1, w2) := fseek_end s w1 in
    if negb ok then
      let '(_, w3) := fclose s1 w2 in (RC_READ_NON_EXISTING_PAGE, fHandle, w3)
    else
      let '(fileSizeBytes, w3) := ftell s1 w2 in
      if fileSizeBytes <? 0 then
        let '(_, w4) := fclose s1 w3 in (RC_READ_NON_EXISTING_PAGE, fHandle, w4)
      else
        let totalPages := fileSizeBytes ÷ Z.of_nat PAGE_SIZE_BYTES in
        let '(okName, w4) := malloc_checked w3 in
        if negb okName then
          let '(_, w5) := fclose s1 w4 in (RC_FILE_HANDLE_NOT_INIT, fHandle, w5)
        else
          match allocateFileContext name s1 totalPages w4 with
          | (None, w5) =>
            let '(_, w6) := fclose s1 w5 in (RC_FILE_HANDLE_NOT_INIT, fHandle, w6)
          | (Some ctx, w5) =>
            (* the unchecked rewind fseek(fp, 0L, SEEK_SET) *)
            let '(_, s2, w6) := fseek_set 0 (fp ctx) w5 in
            (RC_OK, mkFileHandle (Some name) totalPages 0 (Some (set_fp s2 ctx)), w6)
          end
  end.

Definition freeFileContext (ctx : FileContext) (w : World) : RC * World :=
  let '(ok, w1) := fclose (fp ctx) w in
  if ok then (RC_OK, w1) else (RC_WRITE_FAILED, w1).

Definition closePageFile (fHandle : SM_FileHandle) (w : World)
  : RC * SM_FileHandle * World :=
  match mgmtInfo fHandle with
  | None => (RC_FILE_HANDLE_NOT_INIT, fHandle, w)
  | Some ctx =>
    let '(rc, w1) := freeFileContext ctx w in
    if bool_decide (rc = RC_OK) then (RC_OK, blank_handle, w1)
    else (rc, fHandle, w1)
  end.

Definition seekToPageNum (pageNum : Z) (fHandle : SM_FileHandle) (w : World)
  : RC * SM_FileHandle * World :=
  match mgmtInfo fHandle with
  | None => (RC_FILE_HANDLE_NOT_INIT, fHandle, w)
  | Some ctx =>
    if (pageNum <? 0) || (totalNumPages fHandle <=? pageNum) then
      (RC_READ_NON_EXISTING_PAGE, fHandle, w)
    else
      let offsetBytes := pageNum * Z.of_nat PAGE_SIZE_BYTES in
      let '(ok, s, w1) := fseek_set offsetBytes (fp ctx) w in
      let h := with_ctx (set_fp s ctx) fHandle in
      if ok then (RC_OK, h, w1) else (RC_READ_NON_EXISTING_PAGE, h, w1)
  end.

(** [memPage] is the caller's buffer; its new contents are returned. *)
Definition readBlock (pageNum : Z) (fHandle : SM_FileHandle) (memPage : list byte)
    (w : World) : RC * SM_FileHandle * list byte * World :=
  match mgmtInfo fHandle with
  | None => (RC_FILE_HANDLE_NOT_INIT, fHandle, memPage, w)
  | Some _ =>
    if (pageNum <? 0) || (totalNumPages fHandle <=? pageNum) then
      (RC_READ_NON_EXISTING_PAGE, fHandle, memPage, w)
    else
      let '(rcSeek, h1, w1) := seekToPageNum pageNum fHandle w in
      if negb (bool_decide (rcSeek = RC_OK)) then
        (RC_READ_NON_EXISTING_PAGE, h1, memPage, w1)
      else
        match mgmtInfo h1 with
        | None => (RC_FILE_HANDLE_NOT_INIT, h1, memPage, w1)
        | Some ctx =>
          let '(got, s, w2) := fread PAGE_SIZE_BYTES (fp ctx) w1 in
          let h2 := with_ctx (set_fp s ctx) h1 in
          let buf := got ++ drop (length got) memPage in
          if (length got <? PAGE_SIZE_BYTES)%nat then
            (RC_READ_NON_EXISTING_PAGE, h2, buf, w2)
          else (RC_OK, set_curPagePos pageNum h2, buf, w2)
        end
  end.

Definition appendEmptyBlock (fHandle : SM_FileHandle) (w : World)
  : RC * SM_FileHandle * World :=
  match mgmtInfo fHandle with
  | None => (RC_FILE_HANDLE_NOT_INIT, fHandle, w)
  | Some ctx =>
    let '(ok, s, w1) := fseek_end (fp ctx) w in
    let h1 := with_ctx (set_fp s ctx) fHandle in
    if negb ok then (RC_WRITE_FAILED, h1, w1)
    else
      match calloc PAGE_SIZE_BYTES w1 with
      | (None, w2) => (RC_WRITE_FAILED, h1, w2)
      | (Some zeroBuf, w2) =>
        let '(written, s1, w3) := fwrite zeroBuf PAGE_SIZE_BYTES s w2 in
        if (written <? PAGE_SIZE_BYTES)%nat then
          (RC_WRITE_FAILED, with_ctx (set_fp s1 ctx) fHandle, w3)
        else
          let ctx1 := mkFileContext (fflush s1) (fname ctx) (pages ctx + 1) in
          (RC_OK,
           mkFileHandle (fileName fHandle) (pages ctx1) (pages ctx1 - 1) (Some ctx1),
           w3)
      end
  end.

(** The loop of [ensureCapacity]; [None] when the fuel runs out. *)
Fixpoint ensureCapacity_loop (fuel : nat) (numberOfPages : Z)
    (fHandle : SM_FileHandle) (w : World) : option (RC * SM_FileHandle * World) :=
  if totalNumPages fHandle <? numberOfPages then
    match fuel with
    | O => None
    | S fuel' =>
      let '(rc, h1, w1) := appendEmptyBlock fHandle w in
      if bool_decide (rc = RC_OK) then ensureCapacity_loop fuel' numberOfPages h1 w1
      else Some (rc, h1, w1)
    end
  else Some (RC_OK, fHandle, w).

(** After the first successful append the handle's page count is the
    context's, and every further append adds one page: the loop body runs
    at most this many times. *)
Definition ensureCapacity_fuel (numberOfPages : Z) (fHandle : SM_FileHandle) : nat :=
  match mgmtInfo fHandle with
  | None => O
  | Some ctx => S (Z.to_nat (numberOfPages - (pages ctx + 1)))
  end.

Definition ensureCapacity (numberOfPages : Z) (fHandle : SM_FileHandle) (w : World)
  : RC * SM_FileHandle * World :=
  match mgmtInfo fHandle with
  | None => (RC_FILE_HANDLE_NOT_INIT, fHandle, w)
  | Some _ =>
    if numberOfPages <? 0 then (RC_WRITE_FAILED, fHandle, w)
    else
      default (RC_OK, fHandle, w)
        (ensureCapacity_loop (ensureCapacity_fuel numberOfPages fHandle)
           numberOfPages fHandle w)
  end.

Definition writeBlock (pageNum : Z) (fHandle : SM_FileHandle) (memPage : list byte)
    (w : World) : RC * SM_FileHandle * World :=
  match mgmtInfo fHandle with
  | None => (RC_FILE_HANDLE_NOT_INIT, fHandle, w)
  | Some _ =>
    if pageNum <? 0 then (RC_WRITE_FAILED, fHandle, w)
    else
      let '(rcExtend, h1, w1) :=
        if totalNumPages fHandle <=? pageNum
        then ensureCapacity (pageNum + 1) fHandle w
        else (RC_OK, fHandle, w) in
      if negb (bool_decide (rcExtend = RC_OK)) then (RC_WRITE_FAILED, h1, w1)
      else
        let '(rcSeek, h2, w2) := seekToPageNum pageNum h1 w1 in
        if negb (bool_decide (rcSeek = RC_OK)) then (RC_WRITE_FAILED, h2, w2)
        else
          match mgmtInfo h2 with
          | None => (RC_FILE_HANDLE_NOT_INIT, h2, w2)
          | Some ctx =>
            let '(written, s, w3) := fwrite memPage PAGE_SIZE_BYTES (fp ctx) w2 in
            let h3 := with_ctx (set_fp (fflush s) ctx) h2 in
            if (written <? PAGE_SIZE_BYTES)%nat then (RC_WRITE_FAILED, h3, w3)
            else (RC_OK, set_curPagePos pageNum h3, w3)
          end
  end.

(** ** Buffer manager: replacement bookkeeping *)

(** [f->prev] and [f->next] for the frame of index [i]. *)
Definition fprev (F : list Frame) (i : nat) : option nat := F !! i ≫= prev.
Definition fnext (F : list Frame) (i : nat) : option nat := F !! i ≫= next.

Definition moveToLRUHead (md : PoolMetadata) (f : option nat) : PoolMetadata :=
  match f with
  | None => md
  | Some i =>
    if bool_decide (lruHead md = Some i) then md
    else
      let F0 := frames md in
      (* if (f->prev) f->prev->next = f->next; *)
      let F1 := match fprev F0 i with
                | Some p => alter (set_next (fnext F0 i)) p F0
                | None => F0
                end in
      (* if (f->next) f->next->prev = f->prev; *)
      let F2 := match fnext F1 i with
                | Some n => alter (set_prev (fprev F1 i)) n F1
                | None => F1
                end in
      (* if (md->lruTail == f) md->lruTail = f->prev; *)
      let tail1 := if bool_decide (lruTail md = Some i) then fprev F2 i
                   else lruTail md in
      (* f->prev = NULL; f->next = md->lruHead; *)
      let F3 := alter (fun fr => set_next (lruHead md) (set_prev None fr)) i F2 in
      (* if (md->lruHead) md->lruHead->prev = f; *)
      let F4 := match lruHead md with
                | Some h => alter (set_prev (Some i)) h F3
                | None => F3
                end in
      (* md->lruHead = f; if (!md->lruTail) md->lruTail = f; *)
      let tail2 := match tail1 with
                   | None => Some i
                   | Some _ => tail1
                   end in
      set_lru F4 (Some i) tail2 md
  end.

(** The FIFO loop of [selectVictim], [n] iterations left: every entry
    looked at is taken off the queue before its pin count is tested. *)
Fixpoint fifo_scan (n : nat) (md : PoolMetadata) : option nat * PoolMetadata :=
  match n with
  | O => (None, md)
  | S n' =>
    let idx := default 0 (fifoQ md !! Z.to_nat (fifoHead md)) in
    let md1 := set_fifo (fifoQ md) (Z.rem (fifoHead md + 1) (capacity md))
                 (fifoCount md - 1) md in
    match frames md1 !! Z.to_nat idx with
    | Some f => if pinCount f =? 0 then (Some (Z.to_nat idx), md1)
                else fifo_scan n' md1
    | None => fifo_scan n' md1
    end
  end.

(** The LRU loop [while (f && f->pinCount > 0) f = f->prev;].  It changes
    nothing, so it either ends within as many steps as there are frames or
    walks a cycle of pinned frames forever: [None] is that divergence. *)
Fixpoint lru_scan (fuel : nat) (F : list Frame) (f : option nat)
  : option (option nat) :=
  match f with
  | None => Some None
  | Some i =>
    match F !! i with
    | None => Some (Some i)
    | Some fr =>
      if 0 <? pinCount fr then
        match fuel with
        | O => None
        | S fuel' => lru_scan fuel' F (prev fr)
        end
      else Some (Some i)
    end
  end.

Definition selectVictim (md : PoolMetadata) : option (option nat * PoolMetadata) :=
  if bool_decide (strat md = RS_FIFO) then
    Some (fifo_scan (Z.to_nat (fifoCount md)) md)
  else
    match lru_scan (length (frames md)) (frames md) (lruTail md) with
    | None => None
    | Some f => Some (f, md)
    end.

Definition enqueueFIFO (md : PoolMetadata) (idx : Z) : PoolMetadata :=
  let tail := Z.rem (fifoHead md + fifoCount md) (capacity md) in
  set_fifo (<[Z.to_nat tail := idx]> (fifoQ md)) (fifoHead md) (fifoCount md + 1) md.

(** ** Buffer manager: the pool interface *)

(** [initBufferPool]; [stratData] is not used by the code.  [CHECK] is a
    macro of [dberror.h], not among the sources: it reports a code other
    than [RC_OK] and ends the process, an outcome rendered by [None]. *)
Definition initBufferPool (bm : BM_BufferPool) (pageFileName : string)
    (numPages : Z) (strat : ReplacementStrategy) (w : World)
  : option (RC * BM_BufferPool * World) :=
  let '(rc, fh, w1) := openPageFile pageFileName blank_handle w in
  if bool_decide (rc = RC_FILE_NOT_FOUND) then Some (RC_FILE_NOT_FOUND, bm, w1)
  else if negb (bool_decide (rc = RC_OK)) then None
  else
    let n := Z.to_nat numPages in
    let frame0 :=
      mkFrame NO_PAGE (replicate PAGE_SIZE (junk_byte w1)) false 0 None None in
    let md := mkPool fh (replicate n frame0) strat 0 0
                (replicate n (junk_int w1)) 0 0 None None in
    Some (RC_OK, mkBM (Some pageFileName) numPages strat (Some md), w1).

(** The write loop shared by [forceFlushPool] and [shutdownBufferPool]
    ([clear] tells whether the dirty flag is reset), frame by frame. *)
Definition flushable (f : Frame) : bool :=
  negb (pageId f =? NO_PAGE) && isDirty f && (pinCount f =? 0).

Fixpoint flush_loop (clear : bool) (F : list Frame) (h : SM_FileHandle)
    (wio : Z) (w : World) : list Frame * SM_FileHandle * Z * World :=
  match F with
  | [] => ([], h, wio, w)
  | f :: F' =>
    if flushable f then
      let '(_, h1, w1) := writeBlock (pageId f) h (data f) w in
      let '(F1, h2, wio2, w2) := flush_loop clear F' h1 (uincr wio) w1 in
      ((if clear then set_dirty false f else f) :: F1, h2, wio2, w2)
    else
      let '(F1, h2, wio2, w2) := flush_loop clear F' h wio w in
      (f :: F1, h2, wio2, w2)
  end.

Definition shutdownBufferPool (bm : BM_BufferPool) (w : World)
  : RC * BM_BufferPool * World :=
  match mgmtData bm with
  | None => (RC_FILE_HANDLE_NOT_INIT, bm, w)
  | Some md =>
    let '(_, h1, _, w1) := flush_loop false (frames md) (fh md) (writeIO md) w in
    let '(_, _, w2) := closePageFile h1 w1 in
    (RC_OK, mkBM None (numPages bm) (strategy bm) None, w2)
  end.

Definition forceFlushPool (bm : BM_BufferPool) (w : World)
  : RC * BM_BufferPool * World :=
  match mgmtData bm with
  | None => (RC_FILE_HANDLE_NOT_INIT, bm, w)
  | Some md =>
    let '(F1, h1, wio1, w1) := flush_loop true (frames md) (fh md) (writeIO md) w in
    (RC_OK, with_md (set_writeIO wio1 (set_frames F1 (set_fh h1 md))) bm, w1)
  end.

(** The scan at the head of [pinPage]: [inl i] is a hit on frame [i],
    [inr freeIdx] a miss with the value of [freeIdx] at the end of the loop. *)
Fixpoint pin_scan (pid : PageNumber) (F : list Frame) (i : nat) (freeIdx : Z)
  : nat + Z :=
  match F with
  | [] => inr freeIdx
  | f :: F' =>
    if pageId f =? pid then inl i
    else pin_scan pid F' (S i)
           (if (pageId f =? NO_PAGE) && (freeIdx <? 0) then Z.of_nat i else freeIdx)
  end.

(** Write-back of the victim [slot]; the first component is the code
    returned by [writeBlock] ([RC_OK] when nothing had to be written). *)
Definition pin_writeback (md : PoolMetadata) (slot : nat) (w : World)
  : RC * PoolMetadata * World :=
  match frames md !! slot with
  | Some f =>
    if isDirty f then
      let '(rc, h1, w1) := writeBlock (pageId f) (fh md) (data f) w in
      (rc, set_writeIO (uincr (writeIO md)) (set_fh h1 md), w1)
    else (RC_OK, md, w)
  | None => (RC_OK, md, w)
  end.

(** The load of page [pid] into [slot]; the first two components are the
    codes returned by [ensureCapacity] ([RC_OK] when it is not called) and
    by [readBlock]. *)
Definition pin_load (md : PoolMetadata) (slot : nat) (pid : PageNumber) (w : World)
  : RC * RC * PoolMetadata * World :=
  let '(rcGrow, h1, w1) :=
    if totalNumPages (fh md) <=? pid then ensureCapacity (pid + 1) (fh md) w
    else (RC_OK, fh md, w) in
  let buf := default [] (data <$> frames md !! slot) in
  let '(rcRead, h2, buf1, w2) := readBlock pid h1 buf w1 in
  let md1 := set_readIO (uincr (readIO md)) (set_fh h2 md) in
  let md2 := set_frames
               (alter (fun f => loaded pid (set_data buf1 f)) slot (frames md1)) md1 in
  let md3 := if bool_decide (strat md2 = RS_FIFO) then enqueueFIFO md2 (Z.of_nat slot)
             else moveToLRUHead md2 (Some slot) in
  (rcGrow, rcRead, md3, w2).

(** [pinPage]; [None] when the LRU victim scan does not end. *)
Definition pinPage (bm : BM_BufferPool) (ph : BM_PageHandle) (pid : PageNumber)
    (w : World) : option (RC * BM_BufferPool * BM_PageHandle * World) :=
  match mgmtData bm with
  | None => Some (RC_FILE_HANDLE_NOT_INIT, bm, ph, w)
  | Some md =>
    if pid <? 0 then Some (RC_READ_NON_EXISTING_PAGE, bm, ph, w)
    else
      match pin_scan pid (frames md) 0 (-1) with
      | inl i =>
        let md1 := set_frames
                     (alter (fun f => set_pin (pinCount f + 1) f) i (frames md)) md in
        let md2 := if bool_decide (strat md1 = RS_LRU)
                      || bool_decide (strat md1 = RS_LRU_K)
                   then moveToLRUHead md1 (Some i) else md1 in
        Some (RC_OK, with_md md2 bm, mkPageHandle pid (Some i), w)
      | inr freeIdx =>
        if 0 <=? freeIdx then
          let slot := Z.to_nat freeIdx in
          let '(_, _, md1, w1) := pin_load md slot pid w in
          Some (RC_OK, with_md md1 bm, mkPageHandle pid (Some slot), w1)
        else
          match selectVictim md with
          | None => None
          | Some (None, md1) =>
            Some (RC_READ_NON_EXISTING_PAGE, with_md md1 bm, ph, w)
          | Some (Some slot, md1) =>
            let '(_, md2, w1) := pin_writeback md1 slot w in
            let '(_, _, md3, w2) := pin_load md2 slot pid w1 in
            Some (RC_OK, with_md md3 bm, mkPageHandle pid (Some slot), w2)
          end
      end
  end.

(** Index of the first frame holding [pid], counting from [i]. *)
Fixpoint findPage (pid : PageNumber) (F : list Frame) (i : nat) : option nat :=
  match F with
  | [] => None
  | f :: F' => if pageId f =? pid then Some i else findPage pid F' (S i)
  end.

Definition unpinPage (bm : BM_BufferPool) (ph : BM_PageHandle)
  : RC * BM_BufferPool :=
  match mgmtData bm with
  | None => (RC_FILE_HANDLE_NOT_INIT, bm)
  | Some md =>
    match findPage (pageNum ph) (frames md) 0 with
    | Some i =>
      if 0 <? default 0 (pinCount <$> frames md !! i) then
        (RC_OK,
         with_md (set_frames
                    (alter (fun f => set_pin (pinCount f - 1) f) i (frames md)) md) bm)
      else (RC_READ_NON_EXISTING_PAGE, bm)
    | None => (RC_READ_NON_EXISTING_PAGE, bm)
    end
  end.

Definition markDirty (bm : BM_BufferPool) (ph : BM_PageHandle)
  : RC * BM_BufferPool :=
  match mgmtData bm with
  | None => (RC_FILE_HANDLE_NOT_INIT, bm)
  | Some md =>
    match findPage (pageNum ph) (frames md) 0 with
    | Some i =>
      (RC_OK, with_md (set_frames (alter (set_dirty true) i (frames md)) md) bm)
    | None => (RC_READ_NON_EXISTING_PAGE, bm)
    end
  end.

Definition forcePage (bm : BM_BufferPool) (ph : BM_PageHandle) (w : World)
  : RC * BM_BufferPool * World :=
  match mgmtData bm with
  | None => (RC_FILE_HANDLE_NOT_INIT, bm, w)
  | Some md =>
    match findPage (pageNum ph) (frames md) 0 with
    | Some i =>
      let buf := default [] (data <$> frames md !! i) in
      let '(_, h1, w1) := writeBlock (pageNum ph) (fh md) buf w in
      let md1 := set_writeIO (uincr (writeIO md)) (set_fh h1 md) in
      (RC_OK,
       with_md (set_frames (alter (set_dirty false) i (frames md1)) md1) bm, w1)
    | None => (RC_READ_NON_EXISTING_PAGE, bm, w)
    end
  end.

(** Statistics interface. *)
Definition getFrameContents (md : PoolMetadata) : list PageNumber :=
  pageId <$> frames md.
Definition getDirtyFlags (md : PoolMetadata) : list bool := isDirty <$> frames md.
Definition getFixCounts (md : PoolMetadata) : list Z := pinCount <$> frames md.

(** [getNumReadIO] and [getNumWriteIO] return an [int] read from an
    [unsigned] counter: the conversion keeps a value below 2^31 and is
    implementation-defined above; it wraps to the negative numbers on the
    two's complement machines the code is built for. *)
Definition int_of_unsigned (n : Z) : Z := if n <? 2 ^ 31 then n else n - 2 ^ 32.

Definition getNumReadIO (md : PoolMetadata) : Z := int_of_unsigned (readIO md).
Definition getNumWriteIO (md : PoolMetadata) : Z := int_of_unsigned (writeIO md).

(** ** Sequences of pool operations *)

Inductive PoolOp : Set :=
  | OpPin (pid : PageNumber)
  | OpUnpin (pageNum : PageNumber)
  | OpMarkDirty (pageNum : PageNumber)
  | OpForcePage (pageNum : PageNumber)
  | OpForceFlush
  | OpShutdown.

(** One call on the pool [bm] in the world [w]. *)
Definition step (op : PoolOp) (bm : BM_BufferPool) (w : World)
  : option (RC * BM_BufferPool * World) :=
  match op with
  | OpPin pid =>
    match pinPage bm (mkPageHandle NO_PAGE None) pid w with
    | Some (rc, bm1, _, w1) => Some (rc, bm1, w1)
    | None => None
    end
  | OpUnpin p => let '(rc, bm1) := unpinPage bm (mkPageHandle p None) in
                 Some (rc, bm1, w)
  | OpMarkDirty p => let '(rc, bm1) := markDirty bm (mkPageHandle p None) in
                     Some (rc, bm1, w)
  | OpForcePage p => Some (forcePage bm (mkPageHandle p None) w)
  | OpForceFlush => Some (forceFlushPool bm w)
  | OpShutdown => Some (shutdownBufferPool bm w)
  end.

(** The calls of [ops] in order, with the codes they return. *)
Fixpoint run (ops : list PoolOp) (bm : BM_BufferPool) (w : World)
  : option (list RC * BM_BufferPool * World) :=
  match ops with
  | [] => Some ([], bm, w)
  | op :: ops' =>
    match step op bm w with
    | None => None
    | Some (rc, bm1, w1) =>
      match run ops' bm1 w1 with
      | None => None
      | Some (rcs, bm2, w2) => Some (rc :: rcs, bm2, w2)
      end
    end
  end.

(** ** Storage manager: the sequential helpers *)

(** A handle is a record here, never [NULL]: the source's answer -1 for a
    [NULL] handle has no counterpart. *)
Definition getBlockPos (fHandle : SM_FileHandle) : Z := curPagePos fHandle.

Definition readFirstBlock (fHandle : SM_FileHandle) (memPage : list byte) (w : World)
  : RC * SM_FileHandle * list byte * World :=
  readBlock 0 fHandle memPage w.

Definition readPreviousBlock (fHandle : SM_FileHandle) (memPage : list byte)
    (w : World) : RC * SM_FileHandle * list byte * World :=
  match mgmtInfo fHandle with
  | None => (RC_FILE_HANDLE_NOT_INIT, fHandle, memPage, w)
  | Some _ =>
    let prev := curPagePos fHandle - 1 in
    if prev <? 0 then (RC_READ_NON_EXISTING_PAGE, fHandle, memPage, w)
    else readBlock prev fHandle memPage w
  end.

Definition readCurrentBlock (fHandle : SM_FileHandle) (memPage : list byte)
    (w : World) : RC * SM_FileHandle * list byte * World :=
  match mgmtInfo fHandle with
  | None => (RC_FILE_HANDLE_NOT_INIT, fHandle, memPage, w)
  | Some _ => readBlock (curPagePos fHandle) fHandle memPage w
  end.

Definition readNextBlock (fHandle : SM_FileHandle) (memPage : list byte) (w : World)
  : RC * SM_FileHandle * list byte * World :=
  match mgmtInfo fHandle with
  | None => (RC_FILE_HANDLE_NOT_INIT, fHandle, memPage, w)
  | Some _ =>
    let next := curPagePos fHandle + 1 in
    if totalNumPages fHandle <=? next then
      (RC_READ_NON_EXISTING_PAGE, fHandle, memPage, w)
    else readBlock next fHandle memPage w
  end.

Definition readLastBlock (fHandle : SM_FileHandle) (memPage : list byte) (w : World)
  : RC * SM_FileHandle * list byte * World :=
  match mgmtInfo fHandle with
  | None => (RC_FILE_HANDLE_NOT_INIT, fHandle, memPage, w)
  | Some _ => readBlock (totalNumPages fHandle - 1) fHandle memPage w
  end.

Definition writeCurrentBlock (fHandle : SM_FileHandle) (memPage : list byte)
    (w : World) : RC * SM_FileHandle * World :=
  match mgmtInfo fHandle with
  | None => (RC_FILE_HANDLE_NOT_INIT, fHandle, w)
  | Some _ => writeBlock (curPagePos fHandle) fHandle memPage w
  end.

(** * Notions used to state the properties *)

(** What stands in the way of [createPageFile]: the file cannot be opened,
    the zero buffer cannot be allocated, or the page is written short. *)
Definition create_obstacle (fileName : string) (w : World) : Prop :=
  match fopen_wb fileName w with
  | (None, _) => True
  | (Some s, w1) =>
    match calloc PAGE_SIZE_BYTES w1 with
    | (None, _) => True
    | (Some zeroBuf, w2) =>
      ((fwrite zeroBuf PAGE_SIZE_BYTES s w2).1.1 < PAGE_SIZE_BYTES)%nat
    end
  end.

(** The pool [bm] with its strategy replaced by [s]. *)
Definition relabel (s : ReplacementStrategy) (bm : BM_BufferPool) : BM_BufferPool :=
  mkBM (pageFile bm) (numPages bm) s (set_strat s <$> mgmtData bm).

Definition lru_like (s : ReplacementStrategy) : Prop := s = RS_LRU ∨ s = RS_LRU_K.

(** A pool whose metadata record an LRU-like strategy. *)
Definition lru_pool (bm : BM_BufferPool) : Prop :=
  ∀ md, mgmtData bm = Some md → lru_like (strat md).

(** A whole session: [initBufferPool] followed by the calls of [ops]
    (none of them when the pool could not be set up). *)
Definition session (s : ReplacementStrategy) (bm0 : BM_BufferPool)
    (pageFileName : string) (numPages : Z) (ops : list PoolOp) (w : World)
  : option (RC * list RC * BM_BufferPool * World) :=
  match initBufferPool bm0 pageFileName numPages s w with
  | None => None
  | Some (rc, bm, w1) =>
    if bool_decide (rc = RC_OK) then
      match run ops bm w1 with
      | None => None
      | Some (rcs, bm1, w2) => Some (rc, rcs, bm1, w2)
      end
    else Some (rc, [], bm, w1)
  end.

(** What a client can tell about a pool: the statistics interface and the
    page contents of the frames. *)
Definition pool_view (bm : BM_BufferPool)
  : option (list PageNumber * list bool * list Z * list (list byte) * Z * Z) :=
  (λ md, (getFrameContents md, getDirtyFlags md, getFixCounts md,
          data <$> frames md, getNumReadIO md, getNumWriteIO md)) <$> mgmtData bm.

Definition session_view (r : option (RC * list RC * BM_BufferPool * World)) :=
  (λ x, (x.1.1.1, x.1.1.2, pool_view x.1.2, x.2)) <$> r.

(** The frame invariant of the data model: pin counts are not negative
    and an empty frame is not pinned. *)
Definition frame_ok (f : Frame) : Prop :=
  0 ≤ pinCount f ∧ (pageId f = NO_PAGE → pinCount f = 0).

(** An empty frame owes no write. *)
Definition frame_clean_if_empty (f : Frame) : Prop :=
  pageId f = NO_PAGE → isDirty f = false.

(** No page is held by two frames. *)
Definition resident_unique (F : list Frame) : Prop :=
  ∀ i j fi fj,
    F !! i = Some fi → F !! j = Some fj →
    pageId fi = pageId fj → pageId fi ≠ NO_PAGE → i = j.

Definition hd_or (l : list nat) (d : option nat) : option nat :=
  match l with
  | [] => d
  | i :: _ => Some i
  end.

(** The frames of [l], in this order, form a doubly linked segment
    entered from [pv] and left towards [nx]. *)
Fixpoint dll (F : list Frame) (pv : option nat) (l : list nat) (nx : option nat)
  : Prop :=
  match l with
  | [] => True
  | i :: l' =>
    (i < length F)%nat ∧ fprev F i = pv ∧ fnext F i = hd_or l' nx
    ∧ dll F (Some i) l' nx
  end.

(** [l] lists the LRU chain of [md] from head to tail. *)
Definition lru_repr (md : PoolMetadata) (l : list nat) : Prop :=
  NoDup l
  ∧ lruHead md = head l
  ∧ lruTail md = last l
  ∧ dll (frames md) None l None
  ∧ (∀ j, j ∉ l → fprev (frames md) j = None ∧ fnext (frames md) j = None).

Definition pool_inv (md : PoolMetadata) : Prop :=
  Forall frame_ok (frames md)
  ∧ resident_unique (frames md)
  ∧ ∃ l, lru_repr md l.

(** The states a pool goes through: set up by [initBufferPool], then any
    calls among those allowed by [P]. *)
Inductive reachable_by (P : PoolOp → Prop) : BM_BufferPool → World → Prop :=
  | reachable_init bm0 pageFileName numPages s w bm w1 :
      initBufferPool bm0 pageFileName numPages s w = Some (RC_OK, bm, w1) →
      reachable_by P bm w1
  | reachable_step op bm w rc bm1 w1 :
      reachable_by P bm w →
      P op →
      step op bm w = Some (rc, bm1, w1) →
      reachable_by P bm1 w1.

Definition reachable : BM_BufferPool → World → Prop := reachable_by (λ _, True).

(** Calls whose handle carries a page number, as the handles filled in by
    [pinPage] do. *)
Definition valid_handle (op : PoolOp) : Prop :=
  match op with
  | OpUnpin p | OpMarkDirty p | OpForcePage p => 0 ≤ p
  | _ => True
  end.

(** What a frame holds, as opposed to where it sits in the LRU chain. *)
Definition payload (f : Frame) : PageNumber * list byte * bool * Z :=
  (pageId f, data f, isDirty f, pinCount f).

(** A frame after a call that neither loads nor evicts it: same page, same
    bytes, and the frame invariants carry over ([V]: the call came with a
    valid handle). *)
Definition benign (V : Prop) (f f' : Frame) : Prop :=
  pageId f' = pageId f ∧ data f' = data f
  ∧ (frame_ok f → frame_ok f')
  ∧ (V → frame_clean_if_empty f → frame_clean_if_empty f').

(** What a call does to the frame array: it leaves every frame in place,
    or it loads a page that was not resident into a frame that was not
    pinned. *)
Definition frames_trans (V : Prop) (F F' : list Frame) : Prop :=
  Forall2 (benign V) F F'
  ∨ ∃ slot f pid buf,
      F !! slot = Some f ∧ pinCount f = 0 ∧ 0 ≤ pid
      ∧ Forall (λ g, pageId g ≠ pid) F
      ∧ payload <$> F' = payload <$> alter (λ g, loaded pid (set_data buf g)) slot F.

(** A transition of the pool: of its frames, and of its LRU chain. *)
Definition pool_trans (V : Prop) (md md' : PoolMetadata) : Prop :=
  frames_trans V (frames md) (frames md')
  ∧ (∀ l, lru_repr md l → ∃ l', lru_repr md' l').

(** The frames [forceFlushPool] has to write: resident, dirty, not pinned. *)
Definition flush_targets (F : list Frame) : list Frame :=
  filter (λ f, flushable f = true) F.

(** [writeBlock] called for each frame of [targets] in turn. *)
Definition flush_writes (targets : list Frame) (h : SM_FileHandle) (w : World)
  : SM_FileHandle * World :=
  foldl (λ hw f, let r := writeBlock (pageId f) hw.1 (data f) hw.2 in (r.1.2, r.2))
    (h, w) targets.

(** The handle [h] is open on the file [name], whose content is [c], in
    a world where no fault is pending; the page count of the handle is that
    of its context and of the file. *)
Definition handle_on (name : string) (c : list byte) (h : SM_FileHandle)
    (w : World) : Prop :=
  faults w = []
  ∧ files w !! name = Some c
  ∧ 0 ≤ totalNumPages h
  ∧ length c = (Z.to_nat (totalNumPages h) * PAGE_SIZE)%nat
  ∧ ∃ ctx, mgmtInfo h = Some ctx ∧ f_name (fp ctx) = name
           ∧ pages ctx = totalNumPages h.

(** *** Worked examples: a file of [n] pages and a pool over it *)

Definition no_pool : BM_BufferPool := mkBM None 0 RS_FIFO None.

Definition example_world (script : list (option nat)) (n : nat) : World :=
  mkWorld {[ "pool.bin" := replicate (n * PAGE_SIZE) Byte.x01 ]} script Byte.xff 7.

Definition example_session (s : ReplacementStrategy) (script : list (option nat))
    (n : nat) (numPages : Z) (ops : list PoolOp)
  : option (RC * list RC * BM_BufferPool * World) :=
  session s no_pool "pool.bin" numPages ops (example_world script n).

(** The codes returned, and the pool and world at the end. *)
Definition session_codes (r : option (RC * list RC * BM_BufferPool * World))
  : option (list RC) := (λ x, x.1.1.2) <$> r.

Definition session_pool (r : option (RC * list RC * BM_BufferPool * World))
  : option PoolMetadata := r ≫= λ x, mgmtData x.1.2.

Definition session_world (r : option (RC * list RC * BM_BufferPool * World))
  : option World := (λ x, x.2) <$> r.

(** The FIFO queue: the [fifoCount] entries of the ring from [fifoHead] on. *)
Definition fifo_entries (md : PoolMetadata) : list Z :=
  (λ i, default 0 (fifoQ md !! (Z.to_nat ((fifoHead md + Z.of_nat i) `rem` capacity md))))
    <$> seq 0 (Z.to_nat (fifoCount md)).

(** The pool and the world a session ends in. *)
Definition final_state (r : option (RC * list RC * BM_BufferPool * World))
  : BM_BufferPool * World :=
  match r with
  | Some (_, _, bm, w) => (bm, w)
  | None => (no_pool, mkWorld ∅ [] zero_byte 0)
  end.

Definition final_pool (r : option (RC * list RC * BM_BufferPool * World))
  : PoolMetadata :=
  default (mkPool blank_handle [] RS_FIFO 0 0 [] 0 0 None None)
    (mgmtData (final_state r).1).

(** Page [q] of a file content. *)
Definition page_of (c : list byte) (q : nat) : list byte :=
  take PAGE_SIZE (drop (q * PAGE_SIZE) c).


(** The handle [h] is open on the file [name]. *)
Definition open_on (name : string) (h : SM_FileHandle) : Prop :=
  ∃ ctx, mgmtInfo h = Some ctx ∧ f_name (fp ctx) = name.

(** Between [w] and [w1] no file other than [name] has changed. *)
Definition same_files_off (name : string) (w w1 : World) : Prop :=
  ∀ other, other ≠ name → files w1 !! other = files w !! other.

(** A handle open on the example file of [n] pages, cursor on page [pos]. *)
Definition example_handle (n : nat) (pos : Z) : SM_FileHandle :=
  mkFileHandle (Some "pool.bin") (Z.of_nat n) pos
    (Some (mkFileContext (mkFILE "pool.bin" 0) "pool.bin" (Z.of_nat n))).

(** The pool agrees with its page file: the file handle is consistent
    with the file [name], no fault is pending, every frame has a page of
    bytes, and a frame that holds a page holds the bytes this page has in
    the file. *)
Definition coherent (name : string) (md : PoolMetadata) (w : World) : Prop :=
  ∃ c, handle_on name c (fh md) w
       ∧ ∀ i f, frames md !! i = Some f →
           length (data f) = PAGE_SIZE
           ∧ NO_PAGE ≤ pageId f
           ∧ (pageId f ≠ NO_PAGE →
              pageId f < totalNumPages (fh md)
              ∧ page_of c (Z.to_nat (pageId f)) = data f).

(** The frame of index [i], for the worked examples. *)
Definition frame_at (md : PoolMetadata) (i : nat) : Frame :=
  default (mkFrame NO_PAGE [] false 0 None None) (frames md !! i).

(** The library call number [i] from now on (0 is the next one) fails. *)
Definition fails_at (w : World) (i : nat) : Prop :=
  ∃ k, faults w !! i = Some (Some k).


(** * Properties *)

#[local] Arguments moveToLRUHead : simpl never.
#[local] Arguments enqueueFIFO : simpl never.
#[local] Arguments selectVictim : simpl never.
#[local] Arguments openPageFile : simpl never.
#[local] Arguments closePageFile : simpl never.
#[local] Arguments readBlock : simpl never.
#[local] Arguments writeBlock : simpl never.
#[local] Arguments ensureCapacity : simpl never.
#[local] Arguments pin_load : simpl never.
#[local] Arguments pin_writeback : simpl never.
#[local] Arguments pinPage : simpl never.

(** ** The page file *)

Lemma next_fault_quiet w : faults w = [] → next_fault w = (None, w).
Proof. unfold next_fault. by intros ->. Qed.

Lemma write_at_end (c buf : list byte) : write_at c (length c) buf = c ++ buf.
Proof.
  unfold write_at. rewrite firstn_all, Nat.sub_diag. simpl.
  rewrite drop_ge by lia. by rewrite app_nil_r.
Qed.

(** C8. When [createPageFile] returns [RC_OK] the file of that name exists
    and holds exactly one page of zero bytes; it returns [RC_WRITE_FAILED]
    when the file cannot be opened, the buffer cannot be allocated or the
    page is written short, and [RC_OK] otherwise. *)
Theorem createPageFile_one_zero_page (fileName : string) (w : World) :
  let r := createPageFile fileName w in
  (r.1 = RC_OK →
     files r.2 !! fileName = Some (replicate PAGE_SIZE zero_byte)
     ∧ length (file_bytes r.2 fileName) = PAGE_SIZE
     ∧ Forall (λ b, b = zero_byte) (file_bytes r.2 fileName))
  ∧ (create_obstacle fileName w → r.1 = RC_WRITE_FAILED)
  ∧ (¬ create_obstacle fileName w → r.1 = RC_OK).
Proof.
  unfold createPageFile, create_obstacle, fopen_wb, calloc, fwrite, fclose,
    PAGE_SIZE_BYTES, file_bytes.
  destruct (next_fault w) as [[k1|] w1] eqn:E1; simpl; [by intuition|].
  destruct (next_fault (set_files _ w1)) as [[k2|] w2] eqn:E2; simpl.
  { destruct (next_fault w2) as [[?|] ?]; simpl; by intuition. }
  assert (Hf2 : files w2 !! fileName = Some []).
  { unfold next_fault in E2. simpl in E2.
    destruct (faults w1); simplify_eq; simpl; by rewrite lookup_insert_eq. }
  destruct (next_fault w2) as [f3 w3] eqn:E3.
  assert (Hf3 : files w3 !! fileName = Some []).
  { unfold next_fault in E3.
    destruct (faults w2); simplify_eq; simpl; done. }
  rewrite Hf3. simpl.
  set (out := match f3 with
              | Some k => take (k `min` PAGE_SIZE)%nat (replicate PAGE_SIZE zero_byte)
              | None => take PAGE_SIZE (replicate PAGE_SIZE zero_byte)
              end).
  destruct (Nat.ltb_spec (length out) PAGE_SIZE) as [Hlt|Hge].
  - destruct (next_fault (set_files _ w3)) as [[?|] ?]; simpl;
      split_and!; try done; intros; lia.
  - assert (Hout : out = replicate PAGE_SIZE zero_byte).
    { subst out. destruct f3 as [k|].
      - rewrite length_take, length_replicate in Hge.
        rewrite take_replicate. f_equal. lia.
      - rewrite take_replicate. f_equal. lia. }
    assert (Hfin : ∀ w', (next_fault (set_files (<[fileName:=write_at [] 0 out]> (files w3)) w3)).2 = w' →
                    files w' !! fileName = Some (replicate PAGE_SIZE zero_byte)).
    { intros w' <-. unfold next_fault. simpl.
      destruct (faults w3); simpl; rewrite lookup_insert_eq; f_equal;
        unfold write_at; simpl; rewrite Hout, drop_nil, app_nil_r; done. }
    destruct (next_fault (set_files _ w3)) as [f4 w4] eqn:E4.
    specialize (Hfin w4 eq_refl).
    assert (r4 : (let '(_, w5) := match f4 with Some _ => (false, w4) | None => (true, w4) end
                  in (RC_OK, w5)) = (RC_OK, w4)) by (by destruct f4).
    rewrite r4. simpl. rewrite Hfin. simpl.
    split_and!; try done.
    + intros _. split_and!; [done|by rewrite length_replicate|].
      apply Forall_forall. intros b Hb. by apply elem_of_replicate in Hb as [-> _].
    + intros; lia.
Qed.

(** ** Negative page numbers *)

(** C9. On an initialised pool, [pinPage] with a negative page number
    returns [RC_READ_NON_EXISTING_PAGE] and changes neither the pool, nor
    the handle, nor the world. *)
Theorem pinPage_negative_pid (bm : BM_BufferPool) (md : PoolMetadata)
    (ph : BM_PageHandle) (pid : PageNumber) (w : World) :
  mgmtData bm = Some md →
  pid < 0 →
  pinPage bm ph pid w = Some (RC_READ_NON_EXISTING_PAGE, bm, ph, w).
Proof.
  intros Hmd Hneg. unfold pinPage. rewrite Hmd.
  by rewrite (proj2 (Z.ltb_lt _ _) Hneg).
Qed.

(** ** RS_LRU_K is handled like RS_LRU *)

Lemma moveToLRUHead_set_strat s md f :
  moveToLRUHead (set_strat s md) f = set_strat s (moveToLRUHead md f).
Proof.
  destruct f as [i|]; [|done]. unfold moveToLRUHead. simpl.
  by case_bool_decide.
Qed.

Lemma selectVictim_set_strat s md :
  lru_like s → lru_like (strat md) →
  selectVictim (set_strat s md) =
  (λ r, (r.1, set_strat s r.2)) <$> selectVictim md.
Proof.
  intros Hs Hmd. unfold selectVictim. simpl.
  rewrite !bool_decide_eq_false_2 by (destruct Hs, Hmd; congruence).
  by destruct (lru_scan _ _ _).
Qed.

Lemma pin_writeback_set_strat s md slot w :
  pin_writeback (set_strat s md) slot w =
  let r := pin_writeback md slot w in (r.1.1, set_strat s r.1.2, r.2).
Proof.
  unfold pin_writeback. simpl.
  destruct (frames md !! slot) as [f|]; [|done].
  destruct (isDirty f); [|done].
  by destruct (writeBlock _ _ _ _) as [[? ?] ?].
Qed.

Lemma pin_load_set_strat s md slot pid w :
  lru_like s → lru_like (strat md) →
  pin_load (set_strat s md) slot pid w =
  let r := pin_load md slot pid w in (r.1.1, set_strat s r.1.2, r.2).
Proof.
  intros Hs Hmd. unfold pin_load. simpl.
  destruct (if totalNumPages (fh md) <=? pid then _ else _) as [[rcG h1] w1].
  destruct (readBlock _ _ _ _) as [[[rcR h2] buf1] w2]. simpl.
  rewrite !bool_decide_eq_false_2 by (destruct Hs, Hmd; congruence).
  simpl. by rewrite <- moveToLRUHead_set_strat.
Qed.

Lemma pin_writeback_strat md slot w : strat (pin_writeback md slot w).1.2 = strat md.
Proof.
  unfold pin_writeback. destruct (frames md !! slot) as [f|]; [|done].
  destruct (isDirty f); [|done]. by destruct (writeBlock _ _ _ _) as [[? ?] ?].
Qed.

Lemma moveToLRUHead_strat md f : strat (moveToLRUHead md f) = strat md.
Proof. destruct f; [|done]. unfold moveToLRUHead. by case_bool_decide. Qed.

Lemma pin_load_strat md slot pid w : strat (pin_load md slot pid w).1.2 = strat md.
Proof.
  unfold pin_load.
  destruct (if totalNumPages (fh md) <=? pid then _ else _) as [[rcG h1] w1].
  destruct (readBlock _ _ _ _) as [[[rcR h2] buf1] w2]. simpl.
  case_bool_decide; [done|]. by rewrite moveToLRUHead_strat.
Qed.

Lemma fifo_scan_strat n md : strat (fifo_scan n md).2 = strat md.
Proof.
  revert md. induction n as [|n IH]; intros md; [done|]. simpl.
  destruct (frames md !! _) as [f|]; [|by rewrite IH].
  destruct (pinCount f =? 0); [done|by rewrite IH].
Qed.

Lemma selectVictim_strat md r : selectVictim md = Some r → strat r.2 = strat md.
Proof.
  unfold selectVictim. case_bool_decide.
  - intros [= <-]. apply fifo_scan_strat.
  - destruct (lru_scan _ _ _); [|done]. by intros [= <-].
Qed.

(** Every call leaves the strategy recorded in the pool as it was. *)
Lemma step_strat op bm w rc bm' w' md' :
  step op bm w = Some (rc, bm', w') →
  mgmtData bm' = Some md' →
  ∃ md, mgmtData bm = Some md ∧ strat md' = strat md.
Proof.
  destruct op as [pid|p|p|p| |]; simpl.
  - unfold pinPage. destruct (mgmtData bm) as [md|] eqn:Hmd.
    2:{ intros [= <- <- <-]. by rewrite Hmd. }
    destruct (pid <? 0).
    { intros [= <- <- <-]. rewrite Hmd. intros [= <-]. eauto. }
    destruct (pin_scan _ _ _ _) as [i|freeIdx].
    { intros [= <- <- <-]. simpl. intros [= <-]. eexists; split; [done|].
      destruct (_ || _); [by rewrite moveToLRUHead_strat|done]. }
    destruct (0 <=? freeIdx).
    { pose proof (pin_load_strat md (Z.to_nat freeIdx) pid w) as Hl.
      destruct (pin_load _ _ _ _) as [[[? ?] md1] w1].
      intros [= <- <- <-]. simpl. intros [= <-]. eauto. }
    destruct (selectVictim md) as [[[slot|] md1]|] eqn:Hv; [| |done].
    + apply selectVictim_strat in Hv. simpl in Hv.
      pose proof (pin_writeback_strat md1 slot w) as Hwb.
      destruct (pin_writeback _ _ _) as [[? md2] w1]. simpl in Hwb.
      pose proof (pin_load_strat md2 slot pid w1) as Hl.
      destruct (pin_load _ _ _ _) as [[[? ?] md3] w2]. simpl in Hl.
      intros [= <- <- <-]. simpl. intros [= <-]. eexists; split; [done|]. congruence.
    + apply selectVictim_strat in Hv. simpl in Hv.
      intros [= <- <- <-]. simpl. intros [= <-]. eauto.
  - unfold unpinPage. destruct (mgmtData bm) as [md|] eqn:Hmd.
    2:{ intros [= <- <- <-]. by rewrite Hmd. }
    destruct (findPage _ _ _) as [i|].
    2:{ intros [= <- <- <-]. rewrite Hmd. intros [= <-]. eauto. }
    destruct (0 <? _).
    + intros [= <- <- <-]. simpl. intros [= <-]. eauto.
    + intros [= <- <- <-]. rewrite Hmd. intros [= <-]. eauto.
  - unfold markDirty. destruct (mgmtData bm) as [md|] eqn:Hmd.
    2:{ intros [= <- <- <-]. by rewrite Hmd. }
    destruct (findPage _ _ _) as [i|].
    + intros [= <- <- <-]. simpl. intros [= <-]. eauto.
    + intros [= <- <- <-]. rewrite Hmd. intros [= <-]. eauto.
  - unfold forcePage. destruct (mgmtData bm) as [md|] eqn:Hmd.
    2:{ intros [= <- <- <-]. by rewrite Hmd. }
    destruct (findPage _ _ _) as [i|].
    + simpl. destruct (writeBlock _ _ _ _) as [[? ?] ?].
      intros [= <- <- <-]. simpl. intros [= <-]. eauto.
    + intros [= <- <- <-]. rewrite Hmd. intros [= <-]. eauto.
  - unfold forceFlushPool. destruct (mgmtData bm) as [md|] eqn:Hmd.
    2:{ intros [= <- <- <-]. by rewrite Hmd. }
    destruct (flush_loop _ _ _ _ _) as [[[? ?] ?] ?].
    intros [= <- <- <-]. simpl. intros [= <-]. eauto.
  - unfold shutdownBufferPool. destruct (mgmtData bm) as [md|] eqn:Hmd.
    2:{ intros [= <- <- <-]. by rewrite Hmd. }
    destruct (flush_loop _ _ _ _ _) as [[[? ?] ?] ?].
    destruct (closePageFile _ _) as [[? ?] ?].
    by intros [= <- <- <-].
Qed.

Lemma step_lru_pool op bm w rc bm' w' :
  lru_pool bm → step op bm w = Some (rc, bm', w') → lru_pool bm'.
Proof.
  intros Hl Hs md' Hmd'.
  destruct (step_strat _ _ _ _ _ _ _ Hs Hmd') as (md & Hmd & ->). by apply Hl.
Qed.

Lemma step_relabel s op bm w :
  lru_like s → lru_pool bm →
  step op (relabel s bm) w =
  (λ r, (r.1.1, relabel s r.1.2, r.2)) <$> step op bm w.
Proof.
  intros Hs Hl. unfold lru_pool in Hl.
  destruct bm as [pf np st [md|]]; simpl in *.
  2:{ destruct op; done. }
  specialize (Hl md eq_refl).
  destruct op as [pid|p|p|p| |]; simpl.
  - unfold pinPage. simpl. destruct (pid <? 0); [done|].
    destruct (pin_scan _ _ _ _) as [i|freeIdx]; simpl.
    { assert (∀ t, lru_like t →
               bool_decide (t = RS_LRU) || bool_decide (t = RS_LRU_K) = true) as Ht.
      { intros t [-> | ->]; done. }
      rewrite !Ht by done. unfold relabel. simpl.
      by rewrite <- moveToLRUHead_set_strat. }
    destruct (0 <=? freeIdx).
    { pose proof (pin_load_set_strat s md (Z.to_nat freeIdx) pid w Hs Hl) as E.
      destruct (pin_load (set_strat s md) _ _ _) as [[[? ?] m1] w1].
      destruct (pin_load md _ _ _) as [[[? ?] m2] w2]. simpl in E.
      by simplify_eq. }
    rewrite selectVictim_set_strat by done.
    destruct (selectVictim md) as [[[slot|] md1]|] eqn:Hv; simpl; [| done | done].
    apply selectVictim_strat in Hv. simpl in Hv.
    pose proof (pin_writeback_set_strat s md1 slot w) as E1.
    pose proof (pin_writeback_strat md1 slot w) as S1.
    destruct (pin_writeback (set_strat s md1) _ _) as [[? m1] w1].
    destruct (pin_writeback md1 _ _) as [[? m2] w2]. simpl in E1, S1.
    simplify_eq.
    pose proof (pin_load_set_strat s m2 slot pid w2 Hs) as E2.
    rewrite S1, Hv in E2. specialize (E2 Hl).
    destruct (pin_load (set_strat s m2) _ _ _) as [[[? ?] m3] w3].
    destruct (pin_load m2 _ _ _) as [[[? ?] m4] w4]. simpl in E2.
    by simplify_eq.
  - unfold unpinPage. simpl. destruct (findPage _ _ _) as [i|]; [|done].
    by destruct (0 <? _).
  - unfold markDirty. simpl. by destruct (findPage _ _ _) as [i|].
  - unfold forcePage. simpl. destruct (findPage _ _ _) as [i|]; [|done].
    by destruct (writeBlock _ _ _ _) as [[? ?] ?].
  - unfold forceFlushPool. simpl.
    by destruct (flush_loop _ _ _ _ _) as [[[? ?] ?] ?].
  - unfold shutdownBufferPool. simpl.
    destruct (flush_loop _ _ _ _ _) as [[[? ?] ?] ?].
    by destruct (closePageFile _ _) as [[? ?] ?].
Qed.

Lemma run_relabel s ops bm w :
  lru_like s → lru_pool bm →
  run ops (relabel s bm) w =
  (λ r, (r.1.1, relabel s r.1.2, r.2)) <$> run ops bm w.
Proof.
  intros Hs. revert bm w. induction ops as [|op ops IH]; intros bm w Hl; [done|].
  simpl. rewrite step_relabel by done.
  destruct (step op bm w) as [[[rc bm1] w1]|] eqn:Hst; [|done]. simpl.
  rewrite IH by eauto using step_lru_pool.
  by destruct (run ops bm1 w1) as [[[rcs bm2] w2]|].
Qed.

Lemma pool_view_relabel s bm : pool_view (relabel s bm) = pool_view bm.
Proof. unfold pool_view, relabel. simpl. by destruct (mgmtData bm). Qed.

(** C10. A pool set up with [RS_LRU_K] behaves like one set up with
    [RS_LRU]: over any world and any sequence of calls, the codes returned
    by [initBufferPool] and by every call, the frame contents, dirty flags,
    fix counts, page data, both I/O counters and the resulting world are
    the same (and one session ends exactly when the other does). *)
Theorem lru_k_behaves_as_lru (bm0 : BM_BufferPool) (pageFileName : string)
    (numPages : Z) (ops : list PoolOp) (w : World) :
  session_view (session RS_LRU_K bm0 pageFileName numPages ops w) =
  session_view (session RS_LRU bm0 pageFileName numPages ops w).
Proof.
  unfold session, initBufferPool.
  destruct (openPageFile pageFileName blank_handle w) as [[rc h] w1].
  case_bool_decide; [by rewrite bool_decide_eq_false_2 by congruence|].
  case_bool_decide; simpl; [|done]. subst rc.
  set (md := mkPool h _ RS_LRU 0 0 _ 0 0 None None).
  set (bm := mkBM (Some pageFileName) numPages RS_LRU (Some md)).
  change (mkBM (Some pageFileName) numPages RS_LRU_K _) with (relabel RS_LRU_K bm).
  rewrite run_relabel.
  - destruct (run ops bm w1) as [[[rcs bm1] w2]|]; [|done]. simpl.
    unfold session_view. simpl. by rewrite pool_view_relabel.
  - by right.
  - intros ? [= <-]. by left.
Qed.

(** ** The LRU chain *)

Lemma fprev_alter g F a j :
  fprev (alter g a F) j =
  if decide (a = j) then (F !! j ≫= λ f, prev (g f)) else fprev F j.
Proof.
  unfold fprev. rewrite list_lookup_alter. case_decide; [subst|done].
  by destruct (F !! j).
Qed.

Lemma fnext_alter g F a j :
  fnext (alter g a F) j =
  if decide (a = j) then (F !! j ≫= λ f, next (g f)) else fnext F j.
Proof.
  unfold fnext. rewrite list_lookup_alter. case_decide; [subst|done].
  by destruct (F !! j).
Qed.

Lemma fprev_alter_ne g F a j : a ≠ j → fprev (alter g a F) j = fprev F j.
Proof. intros. rewrite fprev_alter. by case_decide. Qed.

Lemma fnext_alter_ne g F a j : a ≠ j → fnext (alter g a F) j = fnext F j.
Proof. intros. rewrite fnext_alter. by case_decide. Qed.

Lemma fprev_alter_keep g F a j :
  (∀ f, prev (g f) = prev f) → fprev (alter g a F) j = fprev F j.
Proof.
  intros Hg. rewrite fprev_alter. case_decide; [|done]. unfold fprev.
  destruct (F !! j); simpl; [apply Hg|done].
Qed.

Lemma fnext_alter_keep g F a j :
  (∀ f, next (g f) = next f) → fnext (alter g a F) j = fnext F j.
Proof.
  intros Hg. rewrite fnext_alter. case_decide; [|done]. unfold fnext.
  destruct (F !! j); simpl; [apply Hg|done].
Qed.

Lemma fprev_alter_set g F a v :
  (a < length F)%nat → (∀ f, prev (g f) = v) → fprev (alter g a F) a = v.
Proof.
  intros Ha Hg. rewrite fprev_alter, decide_True by done.
  destruct (lookup_lt_is_Some_2 F a Ha) as [f ->]. simpl. apply Hg.
Qed.

Lemma fnext_alter_set g F a v :
  (a < length F)%nat → (∀ f, next (g f) = v) → fnext (alter g a F) a = v.
Proof.
  intros Ha Hg. rewrite fnext_alter, decide_True by done.
  destruct (lookup_lt_is_Some_2 F a Ha) as [f ->]. simpl. apply Hg.
Qed.

(** A segment only depends on the links of its own frames. *)
Lemma dll_ext F F' pv l nx :
  length F = length F' →
  (∀ j, j ∈ l → fprev F' j = fprev F j ∧ fnext F' j = fnext F j) →
  dll F pv l nx → dll F' pv l nx.
Proof.
  intros Hlen. revert pv. induction l as [|i l IH]; intros pv Hext; [done|].
  simpl. intros (Hi & Hp & Hn & Hd).
  destruct (Hext i) as [-> ->]; [by left|].
  split_and!; [lia|done|done|].
  apply IH; [|done]. intros j Hj. apply Hext. by right.
Qed.

Lemma dll_alter_notin g F a pv l nx :
  a ∉ l → dll F pv l nx → dll (alter g a F) pv l nx.
Proof.
  intros Ha. apply dll_ext; [by rewrite length_alter|].
  intros j Hj. assert (a ≠ j) by (intros ->; done).
  by rewrite fprev_alter_ne, fnext_alter_ne.
Qed.

Lemma dll_in_range F pv l nx j : dll F pv l nx → j ∈ l → (j < length F)%nat.
Proof.
  revert pv. induction l as [|i l IH]; intros pv; simpl.
  - by intros _ ?%elem_of_nil.
  - intros (Hi & _ & _ & Hd) [->|Hj]%elem_of_cons; eauto.
Qed.

(** Re-entering a segment from another frame: the head's [prev] changes. *)
Lemma dll_set_entry F pv l nx v i l' :
  l = i :: l' → i ∉ l' →
  dll F pv l nx →
  dll (alter (set_prev v) i F) v l nx.
Proof.
  intros -> Hi. simpl. intros (Hr & Hp & Hn & Hd).
  rewrite length_alter. split_and!; [done| | |].
  - by apply fprev_alter_set.
  - by rewrite fnext_alter_keep.
  - by apply dll_alter_notin.
Qed.

(** Leaving a segment towards another frame: the last frame's [next]
    changes. *)
Lemma dll_set_exit F pv l nx v i l' :
  l = l' ++ [i] → i ∉ l' →
  dll F pv l nx →
  dll (alter (set_next v) i F) pv l v.
Proof.
  intros -> Hi. revert pv. induction l' as [|a l' IH]; intros pv; simpl.
  - intros (Hr & Hp & Hn & _). rewrite length_alter. split_and!; [done| | |done].
    + by rewrite fprev_alter_keep.
    + by apply fnext_alter_set.
  - intros (Hr & Hp & Hn & Hd).
    apply not_elem_of_cons in Hi as [Hia Hi].
    rewrite length_alter. split_and!; [done| | |by apply IH].
    + by rewrite fprev_alter_keep.
    + rewrite fnext_alter_ne by done. rewrite Hn. by destruct l'.
Qed.

Lemma dll_app F pv l1 l2 nx :
  dll F pv (l1 ++ l2) nx ↔
  dll F pv l1 (hd_or l2 nx) ∧ dll F (from_option Some pv (last l1)) l2 nx.
Proof.
  revert pv. induction l1 as [|i l1 IH]; intros pv; simpl.
  - tauto.
  - rewrite IH. destruct l1 as [|a l1]; simpl; [tauto|].
    assert (from_option Some (Some i) (last (a :: l1)) =
            from_option Some pv (last (a :: l1))) as ->.
    { destruct (last (a :: l1)) eqn:E; [done|]. by apply last_None in E. }
    tauto.
Qed.

Lemma dll_cons F pv i l nx :
  dll F pv (i :: l) nx ↔
  (i < length F)%nat ∧ fprev F i = pv ∧ fnext F i = hd_or l nx ∧ dll F (Some i) l nx.
Proof. done. Qed.

#[local] Arguments dll : simpl never.

(** [moveToLRUHead] on a frame outside the chain puts it in front. *)
Lemma moveToLRUHead_fresh md l i :
  lru_repr md l → (i < length (frames md))%nat → i ∉ l →
  lru_repr (moveToLRUHead md (Some i)) (i :: l).
Proof.
  intros (Hnd & Hh & Ht & Hd & Hout) Hi Hnin.
  destruct (Hout i Hnin) as [Hp Hn].
  unfold moveToLRUHead.
  rewrite bool_decide_eq_false_2.
  2:{ rewrite Hh. intros E. destruct l; simplify_eq/=. apply Hnin. by left. }
  rewrite Hp. simpl. rewrite Hn. simpl.
  rewrite bool_decide_eq_false_2.
  2:{ rewrite Ht. intros E. apply Hnin. by eapply last_Some_elem_of. }
  unfold lru_repr. simpl.
  refine (conj _ (conj _ (conj _ (conj _ _)))).
  - by apply NoDup_cons.
  - done.
  - rewrite Ht. destruct l as [|a l]; [done|].
    rewrite last_cons_cons. by destruct (last (a :: l)) eqn:E; [|apply last_None in E].
  - rewrite Hh. apply dll_cons. destruct l as [|h l]; simpl.
    + rewrite length_alter. refine (conj _ (conj _ (conj _ _))); [done| | |done].
      * by apply fprev_alter_set.
      * by apply fnext_alter_set.
    + assert (h ≠ i) by (intros ->; apply Hnin; by left).
      rewrite !length_alter. refine (conj _ (conj _ (conj _ _))); [done| | |].
      * rewrite fprev_alter_ne by done. by apply fprev_alter_set.
      * rewrite fnext_alter_keep by done. by apply fnext_alter_set.
      * apply NoDup_cons in Hnd as [Hh' _].
        eapply dll_set_entry; [done|done|].
        by apply dll_alter_notin.
  - intros j Hj. apply not_elem_of_cons in Hj as [Hji Hj].
    destruct (Hout j Hj) as [Hpj Hnj].
    destruct (lruHead md) as [h|] eqn:Hhd.
    + assert (h ∈ l).
      { rewrite Hh in Hhd. destruct l; simplify_eq/=. by left. }
      assert (h ≠ j) by (intros ->; done).
      by rewrite fprev_alter_ne, fnext_alter_ne, fprev_alter_ne, fnext_alter_ne.
    + by rewrite fprev_alter_ne, fnext_alter_ne.
Qed.

(** [moveToLRUHead] on a frame inside the chain, not at its head, takes
    it out and puts it in front. *)
Lemma moveToLRUHead_member md l1 l2 i :
  lru_repr md (l1 ++ i :: l2) → l1 ≠ [] →
  lru_repr (moveToLRUHead md (Some i)) (i :: l1 ++ l2).
Proof.
  intros (Hnd & Hh & Ht & Hd & Hout) Hne.
  apply NoDup_app in Hnd as (Hnd1 & Hdisj & Hnd2).
  apply NoDup_cons in Hnd2 as [Hi2 Hnd2].
  assert (Hi1 : i ∉ l1) by (intros Hin; apply (Hdisj i Hin); by left).
  assert (Hdisj' : ∀ x, x ∈ l1 → x ∉ l2).
  { intros x Hx Hx2. apply (Hdisj x Hx). by right. }
  destruct l1 as [|h l1']; [done|]. clear Hne.
  destruct (last (h :: l1')) as [p|] eqn:Hlast; [|by apply last_None in Hlast].
  assert (Hp1 : p ∈ h :: l1') by (by eapply last_Some_elem_of).
  assert (Hh1 : h ∈ h :: l1') by (by left).
  apply dll_app in Hd as [Hd1 Hd2]. rewrite Hlast in Hd2. simpl in Hd1, Hd2.
  apply dll_cons in Hd2 as (Hir & Hip & Hin & Hd2).
  assert (Hpi : p ≠ i) by (intros ->; done).
  assert (Hhi : h ≠ i) by (intros ->; done).
  assert (Hhd : lruHead md = Some h) by (by rewrite Hh).
  set (F0 := frames md) in *.
  set (F1 := alter (set_next (hd_or l2 None)) p F0).
  set (F2 := match hd_or l2 None with
             | Some n => alter (set_prev (Some p)) n F1
             | None => F1
             end).
  set (F3 := alter (λ fr, set_next (Some h) (set_prev None fr)) i F2).
  set (F4 := alter (set_prev (Some i)) h F3).
  assert (Hlen1 : length F1 = length F0) by apply length_alter.
  assert (Hlen2 : length F2 = length F0).
  { unfold F2. destruct (hd_or l2 None); [by rewrite length_alter|done]. }
  assert (Hlen3 : length F3 = length F0) by (unfold F3; by rewrite length_alter).
  assert (Hlen4 : length F4 = length F0) by (unfold F4; by rewrite length_alter).
  assert (Hn2 : ∀ n, hd_or l2 None = Some n → n ∈ l2).
  { intros n. destruct l2; intros [= <-]. by left. }
  (* the chain pieces in the final frame array *)
  assert (Hseg1 : dll F4 (Some i) (h :: l1') (hd_or l2 None)).
  { apply last_Some in Hlast as [l1'' Hl1].
    assert (p ∉ l1'').
    { rewrite Hl1 in Hnd1. apply NoDup_app in Hnd1 as (_ & Hx & _).
      intros Hin'. apply (Hx p Hin'). by left. }
    eapply dll_set_entry; [done|by apply NoDup_cons in Hnd1 as [? _]|].
    apply dll_alter_notin; [done|].
    assert (dll F1 None (h :: l1') (hd_or l2 None)) as HF1.
    { eapply dll_set_exit; [exact Hl1|done|done]. }
    unfold F2. destruct (hd_or l2 None) as [n|] eqn:En; [|done].
    apply dll_alter_notin; [|done]. intros Hn1. by apply (Hdisj' n Hn1), Hn2. }
  assert (Hseg2 : dll F4 (Some p) l2 None).
  { assert (h ∉ l2) by (by apply Hdisj').
    assert (p ∉ l2) by (by apply Hdisj').
    do 2 (apply dll_alter_notin; [done|]).
    unfold F2. destruct l2 as [|n l2']; [done|]. simpl.
    eapply dll_set_entry; [done|by apply NoDup_cons in Hnd2 as [? _]|].
    by apply dll_alter_notin. }
  assert (HiF4 : fprev F4 i = None ∧ fnext F4 i = Some h).
  { unfold F4. rewrite fprev_alter_ne by done. rewrite fnext_alter_keep by done.
    unfold F3. split; [apply fprev_alter_set|apply fnext_alter_set]; try done; lia. }
  assert (Hout4 : ∀ j, j ∉ i :: (h :: l1') ++ l2 →
                  fprev F4 j = None ∧ fnext F4 j = None).
  { intros j Hj.
    apply not_elem_of_cons in Hj as [Hji Hj].
    apply not_elem_of_app in Hj as [Hj1 Hj2].
    assert (h ≠ j) by (intros ->; done).
    assert (p ≠ j) by (intros ->; done).
    assert (i ≠ j) by done.
    destruct (Hout j) as [Hpj Hnj].
    { intros [?|[->|?]%elem_of_cons]%elem_of_app; done. }
    unfold F4, F3. rewrite !fprev_alter_ne, !fnext_alter_ne by done.
    unfold F2. destruct (hd_or l2 None) as [n|] eqn:En.
    - assert (n ≠ j) by (intros ->; by apply Hj2, Hn2).
      unfold F1. by rewrite !fprev_alter_ne, !fnext_alter_ne by done.
    - unfold F1. by rewrite !fprev_alter_ne, !fnext_alter_ne by done. }
  (* the code computes exactly these arrays *)
  assert (HnF1 : fnext F1 i = hd_or l2 None).
  { unfold F1. by rewrite fnext_alter_ne by done. }
  assert (HpF1 : fprev F1 i = Some p).
  { unfold F1. by rewrite fprev_alter_keep by done. }
  assert (HpF2 : fprev F2 i = Some p).
  { unfold F2. destruct (hd_or l2 None) as [n|] eqn:En; [|done].
    rewrite fprev_alter_ne; [done|]. intros ->. by apply Hi2, Hn2. }
  unfold moveToLRUHead.
  rewrite bool_decide_eq_false_2 by (rewrite Hhd; congruence).
  fold F0. rewrite Hip. simpl. rewrite Hin. fold F1. rewrite HnF1, HpF1. fold F2.
  rewrite HpF2, Hhd. fold F3. fold F4.
  assert (Htail : match (if bool_decide (lruTail md = Some i) then Some p
                         else lruTail md) with
                  | Some _ => if bool_decide (lruTail md = Some i) then Some p
                              else lruTail md
                  | None => Some i
                  end = last ((h :: l1') ++ l2)).
  { rewrite Ht. rewrite last_app. rewrite last_app. simpl last at 1.
    destruct l2 as [|n l2'].
    - simpl. rewrite bool_decide_eq_true_2 by done. by rewrite Hlast.
    - rewrite last_cons_cons.
      destruct (last (n :: l2')) as [t|] eqn:Et; [|by apply last_None in Et].
      simpl. rewrite bool_decide_eq_false_2; [done|].
      intros [= ->]. apply Hi2. by eapply last_Some_elem_of. }
  rewrite Htail.
  refine (conj _ (conj _ (conj _ (conj _ _)))).
  - assert (i ∉ (h :: l1') ++ l2) as Hfresh.
    { by intros [?|?]%elem_of_app. }
    assert (NoDup ((h :: l1') ++ l2)) as Hnd'.
    { apply NoDup_app. by split_and!. }
    apply NoDup_cons. split; [exact Hfresh|exact Hnd'].
  - done.
  - done.
  - simpl frames. apply dll_cons. rewrite Hlen4. destruct HiF4 as [-> ->].
    refine (conj _ (conj _ (conj _ _))); [done|done|done|].
    change (dll F4 (Some i) ((h :: l1') ++ l2) None).
    apply dll_app. rewrite Hlast. by split.
  - exact Hout4.
Qed.

Lemma moveToLRUHead_repr md l i :
  lru_repr md l → (i < length (frames md))%nat →
  ∃ l', lru_repr (moveToLRUHead md (Some i)) l'.
Proof.
  intros Hr Hi. destruct (decide (i ∈ l)) as [Hin|Hnin].
  - apply list_elem_of_split in Hin as (l1 & l2 & ->).
    destruct l1 as [|h l1].
    + exists (i :: l2). unfold moveToLRUHead.
      rewrite bool_decide_eq_true_2; [done|]. by destruct Hr as (_ & -> & _).
    + eexists. by apply moveToLRUHead_member.
  - eexists. by apply moveToLRUHead_fresh.
Qed.

Lemma fmap_alter_keep {B} (f : Frame → B) g i (F : list Frame) :
  (∀ x, f (g x) = f x) → f <$> alter g i F = f <$> F.
Proof.
  intros Hg. rewrite (list_fmap_alter f g id).
  - by apply list_alter_id.
  - apply Forall_forall. intros x _. apply Hg.
Qed.

Lemma moveToLRUHead_payload md f :
  payload <$> frames (moveToLRUHead md f) = payload <$> frames md.
Proof.
  destruct f as [i|]; [|done]. unfold moveToLRUHead.
  case_bool_decide; [done|]. simpl.
  assert (∀ v (F : list Frame) a,
            payload <$> alter (set_prev v) a F = payload <$> F) as E1.
  { intros. by apply fmap_alter_keep. }
  assert (∀ v (F : list Frame) a,
            payload <$> alter (set_next v) a F = payload <$> F) as E2.
  { intros. by apply fmap_alter_keep. }
  destruct (lruHead md) as [h|]; rewrite ?E1; rewrite fmap_alter_keep by done;
    (destruct (fnext _ i); rewrite ?E1; destruct (fprev (frames md) i); by rewrite ?E2).
Qed.

Lemma moveToLRUHead_other md f :
  fh (moveToLRUHead md f) = fh md
  ∧ readIO (moveToLRUHead md f) = readIO md
  ∧ writeIO (moveToLRUHead md f) = writeIO md
  ∧ fifoQ (moveToLRUHead md f) = fifoQ md
  ∧ fifoHead (moveToLRUHead md f) = fifoHead md
  ∧ fifoCount (moveToLRUHead md f) = fifoCount md.
Proof. destruct f; [|done]. unfold moveToLRUHead. by case_bool_decide. Qed.

(** The chain only depends on the links and on the two end pointers. *)
Lemma lru_repr_ext md md' l :
  length (frames md') = length (frames md) →
  (∀ j, fprev (frames md') j = fprev (frames md) j
        ∧ fnext (frames md') j = fnext (frames md) j) →
  lruHead md' = lruHead md → lruTail md' = lruTail md →
  lru_repr md l → lru_repr md' l.
Proof.
  intros Hlen Hlk Hh Ht (Hnd & Hh' & Ht' & Hd & Hout).
  refine (conj Hnd (conj _ (conj _ (conj _ _)))); [congruence|congruence| |].
  - eapply dll_ext; [|intros j _; apply Hlk|done]. done.
  - intros j Hj. destruct (Hlk j) as [-> ->]. by apply Hout.
Qed.

(** The LRU scan over a well-formed chain ends, on an unpinned frame of
    the chain or on [NULL] after passing pinned frames only. *)
Lemma lru_scan_chain F nx l fuel :
  dll F None l nx → (length l ≤ fuel)%nat →
  ∃ r, lru_scan fuel F (last l) = Some r
       ∧ match r with
         | Some v => v ∈ l ∧ ∃ f, F !! v = Some f ∧ pinCount f ≤ 0
         | None => ∀ j, j ∈ l → ∃ f, F !! j = Some f ∧ 0 < pinCount f
         end.
Proof.
  revert nx fuel. induction l as [|i l IH] using rev_ind; intros nx fuel Hd Hfuel.
  - exists None. split; [by destruct fuel|]. by intros j ?%elem_of_nil.
  - rewrite last_snoc. apply dll_app in Hd as [Hd1 Hd2].
    apply dll_cons in Hd2 as (Hi & Hp & _).
    destruct (lookup_lt_is_Some_2 F i Hi) as [fr Hfr].
    assert (prev fr = last l) as Hpl.
    { unfold fprev in Hp. rewrite Hfr in Hp. simpl in Hp. rewrite Hp.
      by destruct (last l). }
    rewrite length_app in Hfuel. simpl in Hfuel.
    destruct fuel as [|fuel]; [lia|]. simpl. rewrite Hfr.
    destruct (Z.ltb_spec 0 (pinCount fr)) as [Hpin|Hpin].
    + rewrite Hpl. destruct (IH _ fuel Hd1) as (r & -> & Hr); [lia|].
      exists r. split; [done|]. destruct r as [v|].
      * destruct Hr as [Hv Hf]. split; [|done]. apply elem_of_app. by left.
      * intros j [Hj|Hj%list_elem_of_singleton]%elem_of_app; [by apply Hr|].
        subst j. eauto.
    + exists (Some i). split; [done|]. split; [|eauto].
      apply elem_of_app. right. by left.
Qed.

Lemma NoDup_bounded_length (l : list nat) n :
  NoDup l → (∀ j, j ∈ l → (j < n)%nat) → (length l ≤ n)%nat.
Proof.
  intros Hnd Hb.
  assert (length l ≤ length (seq 0%nat n))%nat as Hle.
  { apply submseteq_length, NoDup_submseteq; [done|].
    intros j Hj. apply elem_of_seq. specialize (Hb j Hj). lia. }
  by rewrite length_seq in Hle.
Qed.

Lemma lru_scan_repr md l :
  lru_repr md l →
  ∃ r, lru_scan (length (frames md)) (frames md) (lruTail md) = Some r
       ∧ match r with
         | Some v => ∃ f, frames md !! v = Some f ∧ pinCount f ≤ 0
         | None => ∀ j, j ∈ l → ∃ f, frames md !! j = Some f ∧ 0 < pinCount f
         end.
Proof.
  intros (Hnd & _ & Ht & Hd & _). rewrite Ht.
  destruct (lru_scan_chain (frames md) None l (length (frames md)) Hd)
    as (r & Hr & Hres).
  - apply NoDup_bounded_length; [done|]. intros j. by apply dll_in_range with (1 := Hd).
  - exists r. split; [done|]. destruct r; [|done]. by destruct Hres.
Qed.

(** ** What the calls do to the frames *)

Lemma pin_scan_hit pid F i fr k :
  pin_scan pid F i fr = inl k →
  ∃ f, (i ≤ k)%nat ∧ F !! (k - i)%nat = Some f ∧ pageId f = pid
       ∧ ∀ j g, (j < k - i)%nat → F !! j = Some g → pageId g ≠ pid.
Proof.
  revert i fr. induction F as [|f F IH]; intros i fr; simpl; [done|].
  destruct (Z.eqb_spec (pageId f) pid) as [He|Hne].
  - intros [= <-]. exists f. rewrite Nat.sub_diag. split_and!; [lia|done|done|].
    intros; lia.
  - intros Hs. apply IH in Hs as (g & Hle & Hg & Hpid & Hfirst).
    exists g. split_and!; [lia| |done|].
    + replace (k - i)%nat with (S (k - S i)) by lia. done.
    + intros j g' Hj. destruct j as [|j]; simpl.
      * by intros [= <-].
      * apply Hfirst. lia.
Qed.

Lemma pin_scan_miss pid F i fr z :
  pin_scan pid F i fr = inr z → Forall (λ f, pageId f ≠ pid) F.
Proof.
  revert i fr. induction F as [|f F IH]; intros i fr; simpl; [done|].
  destruct (Z.eqb_spec (pageId f) pid) as [He|Hne]; [done|].
  intros Hs. constructor; eauto.
Qed.

Lemma pin_scan_free_keep pid F i fr z :
  0 ≤ fr → pin_scan pid F i fr = inr z → z = fr.
Proof.
  revert i. induction F as [|f F IH]; intros i Hfr; simpl; [congruence|].
  destruct (pageId f =? pid); [done|].
  rewrite (proj2 (Z.ltb_ge fr 0)) by done. rewrite andb_false_r. by apply IH.
Qed.

Lemma pin_scan_free pid F i fr z :
  fr < 0 → pin_scan pid F i fr = inr z →
  (z = fr ∧ Forall (λ f, pageId f ≠ NO_PAGE) F)
  ∨ ∃ f, (i ≤ Z.to_nat z)%nat ∧ 0 ≤ z
         ∧ F !! (Z.to_nat z - i)%nat = Some f ∧ pageId f = NO_PAGE.
Proof.
  revert i. induction F as [|f F IH]; intros i Hfr; simpl.
  - intros [= <-]. by left.
  - destruct (pageId f =? pid); [done|].
    rewrite (proj2 (Z.ltb_lt fr 0)) by done. rewrite andb_true_r.
    destruct (Z.eqb_spec (pageId f) NO_PAGE) as [He|Hne].
    + intros Hs. apply pin_scan_free_keep in Hs; [|lia]. subst z. right.
      exists f. rewrite Nat2Z.id, Nat.sub_diag. split_and!; [lia|lia|done|done].
    + intros Hs. apply IH in Hs; [|done].
      destruct Hs as [[-> Hall]|(g & Hle & Hz & Hg & Hp)].
      * left. split; [done|]. by constructor.
      * right. exists g. split_and!; [lia|done| |done].
        replace (Z.to_nat z - i)%nat with (S (Z.to_nat z - S i)) by lia. done.
Qed.

Lemma findPage_Some pid F i k :
  findPage pid F i = Some k →
  ∃ f, (i ≤ k)%nat ∧ F !! (k - i)%nat = Some f ∧ pageId f = pid.
Proof.
  revert i. induction F as [|f F IH]; intros i; simpl; [done|].
  destruct (Z.eqb_spec (pageId f) pid) as [He|Hne].
  - intros [= <-]. exists f. rewrite Nat.sub_diag. split_and!; [lia|done|done].
  - intros Hs. apply IH in Hs as (g & Hle & Hg & Hpid).
    exists g. split_and!; [lia| |done].
    replace (k - i)%nat with (S (k - S i)) by lia. done.
Qed.

(** *** Consequences of a frame transition *)

Lemma benign_refl V f : benign V f f.
Proof. by split_and!. Qed.

Lemma Forall2_benign_refl V F : Forall2 (benign V) F F.
Proof. apply Forall2_same_length_lookup_2; [done|]. intros i x y ? ?. simplify_eq. apply benign_refl. Qed.

Lemma benign_trans V f g h : benign V f g → benign V g h → benign V f h.
Proof.
  intros (? & ? & ? & ?) (? & ? & ? & ?). split_and!; [congruence|congruence|tauto|tauto].
Qed.

Lemma payload_lookup (F F' : list Frame) i f' :
  payload <$> F' = payload <$> F → F' !! i = Some f' →
  ∃ f, F !! i = Some f ∧ payload f = payload f'.
Proof.
  intros He Hf'. assert ((payload <$> F) !! i = Some (payload f')) as Hl.
  { rewrite <- He, list_lookup_fmap, Hf'. done. }
  rewrite list_lookup_fmap in Hl. destruct (F !! i) as [f|]; [|done].
  simpl in Hl. exists f. split; [done|congruence].
Qed.

Lemma payload_frame_ok f f' : payload f = payload f' → frame_ok f → frame_ok f'.
Proof. unfold payload, frame_ok. intros [= -> _ _ ->]. done. Qed.

Lemma payload_benign V (F F' : list Frame) :
  payload <$> F' = payload <$> F → Forall2 (benign V) F F'.
Proof.
  intros He. apply Forall2_same_length_lookup_2.
  - rewrite <- (length_fmap payload F), <- He. by rewrite length_fmap.
  - intros i f f' Hf Hf'. destruct (payload_lookup _ _ _ _ He Hf') as (g & Hg & Hp).
    assert (g = f) as -> by congruence.
    unfold payload in Hp. injection Hp as Hid Hdt Hdy Hpc.
    unfold benign, frame_ok, frame_clean_if_empty.
    rewrite <- Hid, <- Hdt, <- Hdy, <- Hpc. tauto.
Qed.

Lemma Forall2_benign_trans V (F G H : list Frame) :
  Forall2 (benign V) F G → Forall2 (benign V) G H → Forall2 (benign V) F H.
Proof.
  intros HFG HGH. eapply Forall2_trans; [|done..]. intros. by eapply benign_trans.
Qed.

(** A change of one frame that is benign for that frame. *)
Lemma alter_benign V g i (F : list Frame) :
  (∀ f, F !! i = Some f → benign V f (g f)) →
  Forall2 (benign V) F (alter g i F).
Proof.
  intros Hg. apply Forall2_same_length_lookup_2; [by rewrite length_alter|].
  intros j f f' Hf. rewrite list_lookup_alter. case_decide.
  - subst j. rewrite Hf. simpl. intros [= <-]. by apply Hg.
  - rewrite Hf. intros [= <-]. apply benign_refl.
Qed.

Lemma frames_trans_ok V F F' :
  frames_trans V F F' → Forall frame_ok F → Forall frame_ok F'.
Proof.
  intros [H2|(slot & f & pid & buf & Hs & Hpin & Hpid & Habs & He)] Hok.
  - apply Forall_lookup. intros i f' Hf'.
    destruct (Forall2_lookup_r _ _ _ _ _ H2 Hf') as (f & Hf & Hb).
    destruct Hb as (_ & _ & Hb & _). apply Hb.
    by eapply Forall_lookup_1.
  - apply Forall_lookup. intros i f' Hf'.
    destruct (payload_lookup _ _ _ _ He Hf') as (g & Hg & Hp).
    apply (payload_frame_ok g); [done|].
    rewrite list_lookup_alter in Hg. case_decide.
    + subst. rewrite Hs in Hg. simpl in Hg. simplify_eq.
      unfold frame_ok, loaded, NO_PAGE. simpl. split; [lia|]. intros E. lia.
    + by eapply Forall_lookup_1.
Qed.

Lemma frames_trans_clean V F F' :
  V → frames_trans V F F' →
  Forall frame_clean_if_empty F → Forall frame_clean_if_empty F'.
Proof.
  intros HV [H2|(slot & f & pid & buf & Hs & Hpin & Hpid & Habs & He)] Hok.
  - apply Forall_lookup. intros i f' Hf'.
    destruct (Forall2_lookup_r _ _ _ _ _ H2 Hf') as (f & Hf & Hb).
    destruct Hb as (_ & _ & _ & Hb). apply Hb; [done|].
    by eapply Forall_lookup_1.
  - apply Forall_lookup. intros i f' Hf'.
    destruct (payload_lookup _ _ _ _ He Hf') as (g & Hg & Hp).
    unfold payload in Hp. injection Hp as Hid Hdt Hdy Hpc.
    unfold frame_clean_if_empty. rewrite <- Hid, <- Hdy.
    rewrite list_lookup_alter in Hg. case_decide.
    + subst. rewrite Hs in Hg. simpl in Hg. simplify_eq. done.
    + by eapply (Forall_lookup_1 frame_clean_if_empty).
Qed.

Lemma frames_trans_unique V F F' :
  frames_trans V F F' → resident_unique F → resident_unique F'.
Proof.
  intros [H2|(slot & f & pid & buf & Hs & Hpin & Hpid & Habs & He)] Hu.
  - intros i j fi fj Hi Hj Heq Hne.
    destruct (Forall2_lookup_r _ _ _ _ _ H2 Hi) as (gi & Hgi & (Ei & _)).
    destruct (Forall2_lookup_r _ _ _ _ _ H2 Hj) as (gj & Hgj & (Ej & _)).
    apply (Hu i j gi gj); congruence.
  - assert (∀ i fi, F' !! i = Some fi →
              if decide (slot = i) then pageId fi = pid
              else ∃ g, F !! i = Some g ∧ pageId g = pageId fi) as Hcase.
    { intros i fi Hi. destruct (payload_lookup _ _ _ _ He Hi) as (g & Hg & Hp).
      unfold payload in Hp. injection Hp as Hid _ _ _.
      rewrite list_lookup_alter in Hg. case_decide.
      - subst. rewrite Hs in Hg. simpl in Hg. by simplify_eq.
      - eauto. }
    intros i j fi fj Hi Hj Heq Hne.
    pose proof (Hcase i fi Hi) as Ci. pose proof (Hcase j fj Hj) as Cj.
    destruct (decide (slot = i)), (decide (slot = j)); [congruence| | |].
    + destruct Cj as (g & Hg & Hgp). exfalso.
      apply (Forall_lookup_1 _ _ _ _ Habs Hg). congruence.
    + destruct Ci as (g & Hg & Hgp). exfalso.
      apply (Forall_lookup_1 _ _ _ _ Habs Hg). congruence.
    + destruct Ci as (gi & Hgi & Hgip), Cj as (gj & Hgj & Hgjp).
      apply (Hu i j gi gj); congruence.
Qed.

(** Pin safety of a transition: a pinned frame keeps its page and its
    bytes. *)
Lemma frames_trans_pinned V F F' i f :
  frames_trans V F F' → F !! i = Some f → 0 < pinCount f →
  ∃ f', F' !! i = Some f' ∧ pageId f' = pageId f ∧ data f' = data f.
Proof.
  intros [H2|(slot & f0 & pid & buf & Hs & Hpin & Hpid & Habs & He)] Hf Hp.
  - destruct (Forall2_lookup_l _ _ _ _ _ H2 Hf) as (f' & Hf' & (? & ? & _)). eauto.
  - assert (slot ≠ i) by (intros ->; simplify_eq; lia).
    assert (is_Some (F' !! i)) as [f' Hf'].
    { apply lookup_lt_is_Some.
      rewrite <- (length_fmap payload F'), He, length_fmap, length_alter.
      by eapply lookup_lt_Some. }
    destruct (payload_lookup _ _ _ _ He Hf') as (g & Hg & Hpl).
    rewrite list_lookup_alter_ne in Hg by done.
    assert (g = f) as -> by congruence.
    unfold payload in Hpl. injection Hpl as ? ? ? ?. eauto.
Qed.

(** ** The calls preserve the pool invariant *)

Lemma pool_trans_refl V md : pool_trans V md md.
Proof. split; [left; apply Forall2_benign_refl|eauto]. Qed.

Lemma pool_trans_inv V md md' : pool_trans V md md' → pool_inv md → pool_inv md'.
Proof.
  intros [Hf Hl] (Hok & Hu & l & Hr). split_and!.
  - by eapply frames_trans_ok.
  - by eapply frames_trans_unique.
  - eauto.
Qed.

(** A change of one frame that keeps its links. *)
Lemma alter_pool_benign V g i md :
  (∀ f, frames md !! i = Some f → benign V f (g f)) →
  (∀ f, prev (g f) = prev f ∧ next (g f) = next f) →
  Forall2 (benign V) (frames md) (frames (set_frames (alter g i (frames md)) md))
  ∧ ∀ l, lru_repr md l → ∃ l', lru_repr (set_frames (alter g i (frames md)) md) l'.
Proof.
  intros Hb Hk. split; [by apply alter_benign|].
  intros l Hr. exists l. apply (lru_repr_ext md); [| |done|done|done].
  - apply length_alter.
  - intros j. simpl. split; [apply fprev_alter_keep|apply fnext_alter_keep]; apply Hk.
Qed.

Lemma alter_pool_trans V g i md :
  (∀ f, frames md !! i = Some f → benign V f (g f)) →
  (∀ f, prev (g f) = prev f ∧ next (g f) = next f) →
  pool_trans V md (set_frames (alter g i (frames md)) md).
Proof.
  intros Hb Hk. destruct (alter_pool_benign V g i md Hb Hk) as [? ?].
  split; [by left|done].
Qed.

Lemma fifo_scan_spec n md :
  let r := fifo_scan n md in
  frames r.2 = frames md ∧ lruHead r.2 = lruHead md ∧ lruTail r.2 = lruTail md
  ∧ fh r.2 = fh md ∧ readIO r.2 = readIO md ∧ writeIO r.2 = writeIO md
  ∧ ∀ k, r.1 = Some k → ∃ f, frames md !! k = Some f ∧ pinCount f = 0.
Proof.
  revert md. induction n as [|n IH]; intros md; simpl; [by split_and!|].
  set (md1 := set_fifo _ _ _ md).
  destruct (frames md !! _) as [f|] eqn:Hf; [|apply (IH md1)].
  destruct (Z.eqb_spec (pinCount f) 0) as [Hz|Hnz]; [|apply (IH md1)].
  simpl. split_and!; try done. intros k [= <-]. eauto.
Qed.

(** Victim selection ends on every pool that satisfies the invariant,
    changes no frame, and only ever returns a frame whose pin count is 0. *)
Lemma selectVictim_spec md :
  pool_inv md →
  ∃ v md1, selectVictim md = Some (v, md1)
    ∧ frames md1 = frames md ∧ lruHead md1 = lruHead md ∧ lruTail md1 = lruTail md
    ∧ fh md1 = fh md ∧ readIO md1 = readIO md ∧ writeIO md1 = writeIO md
    ∧ ∀ k, v = Some k → ∃ f, frames md !! k = Some f ∧ pinCount f = 0.
Proof.
  intros (Hok & _ & l & Hr). unfold selectVictim. case_bool_decide.
  - pose proof (fifo_scan_spec (Z.to_nat (fifoCount md)) md) as Hs.
    destruct (fifo_scan _ md) as [v md1]. simpl in Hs.
    exists v, md1. by destruct Hs as (? & ? & ? & ? & ? & ? & ?).
  - destruct (lru_scan_repr md l Hr) as (r & -> & Hres).
    exists r, md. split_and!; try done.
    intros k ->. destruct Hres as (f & Hf & Hp). exists f. split; [done|].
    destruct (Forall_lookup_1 _ _ _ _ Hok Hf) as [? _]. lia.
Qed.

Lemma pin_writeback_spec md slot w :
  let md1 := (pin_writeback md slot w).1.2 in
  frames md1 = frames md ∧ lruHead md1 = lruHead md ∧ lruTail md1 = lruTail md
  ∧ readIO md1 = readIO md ∧ strat md1 = strat md.
Proof.
  unfold pin_writeback. destruct (frames md !! slot) as [f|]; [|done].
  destruct (isDirty f); [|done]. by destruct (writeBlock _ _ _ _) as [[? ?] ?].
Qed.

Lemma pin_load_frames md slot pid w :
  ∃ buf, payload <$> frames (pin_load md slot pid w).1.2 =
         payload <$> alter (λ g, loaded pid (set_data buf g)) slot (frames md).
Proof.
  unfold pin_load.
  destruct (if totalNumPages (fh md) <=? pid then _ else _) as [[rcG h1] w1].
  destruct (readBlock _ _ _ _) as [[[rcR h2] buf1] w2]. simpl.
  exists buf1. case_bool_decide; [done|]. by rewrite moveToLRUHead_payload.
Qed.

Lemma pin_load_repr md slot pid w l :
  lru_repr md l → (slot < length (frames md))%nat →
  ∃ l', lru_repr (pin_load md slot pid w).1.2 l'.
Proof.
  intros Hr Hs. unfold pin_load.
  destruct (if totalNumPages (fh md) <=? pid then _ else _) as [[rcG h1] w1].
  destruct (readBlock _ _ _ _) as [[[rcR h2] buf1] w2]. simpl.
  set (md2 := set_frames _ _).
  assert (lru_repr md2 l) as Hr2.
  { apply (lru_repr_ext md); [| |done|done|done].
    - apply length_alter.
    - intros j. simpl. by rewrite fprev_alter_keep, fnext_alter_keep. }
  case_bool_decide.
  - exists l. by apply (lru_repr_ext md2).
  - apply (moveToLRUHead_repr md2 l slot Hr2). unfold md2. simpl.
    by rewrite length_alter.
Qed.

(** Loading into a frame that is not pinned, a page that is not resident. *)
Lemma pin_load_trans V md slot pid w f :
  frames md !! slot = Some f → pinCount f = 0 → 0 ≤ pid →
  Forall (λ g, pageId g ≠ pid) (frames md) →
  pool_trans V md (pin_load md slot pid w).1.2.
Proof.
  intros Hf Hp Hpid Habs. split.
  - right. destruct (pin_load_frames md slot pid w) as [buf Hb].
    exists slot, f, pid, buf. by split_and!.
  - intros l Hr. eapply pin_load_repr; [done|]. by eapply lookup_lt_Some.
Qed.

Lemma pool_trans_same_frames V md md' :
  frames md' = frames md → lruHead md' = lruHead md → lruTail md' = lruTail md →
  pool_trans V md md'.
Proof.
  intros Hf Hh Ht. split.
  - left. rewrite Hf. apply Forall2_benign_refl.
  - intros l Hr. exists l. apply (lru_repr_ext md); [| |done|done|done]; by rewrite Hf.
Qed.

Lemma pool_trans_trans V md1 md2 md3 :
  (Forall2 (benign V) (frames md1) (frames md2)
   ∧ ∀ l, lru_repr md1 l → ∃ l', lru_repr md2 l') →
  frames md3 = frames md2 ∨ payload <$> frames md3 = payload <$> frames md2 →
  (∀ l, lru_repr md2 l → ∃ l', lru_repr md3 l') →
  pool_trans V md1 md3.
Proof.
  intros [H12 Hl12] H23 Hl23. split.
  - left. eapply Forall2_benign_trans; [done|]. apply payload_benign.
    destruct H23 as [-> | ->]; done.
  - intros l Hr. destruct (Hl12 l Hr) as [l' Hr']. eauto.
Qed.

(** [pinPage] ends on every pool that satisfies the invariant, and what it
    does to the pool is a transition. *)
Lemma pinPage_trans V bm md ph pid w :
  mgmtData bm = Some md → pool_inv md →
  ∃ rc bm' ph' w' md',
    pinPage bm ph pid w = Some (rc, bm', ph', w')
    ∧ mgmtData bm' = Some md' ∧ pool_trans V md md'.
Proof.
  intros Hmd Hinv. unfold pinPage. rewrite Hmd.
  destruct (Z.ltb_spec pid 0) as [Hneg|Hpid].
  { do 5 eexists. split_and!; [done..|apply pool_trans_refl]. }
  destruct (pin_scan pid (frames md) 0 (-1)) as [i|freeIdx] eqn:Hscan.
  - (* hit *)
    apply pin_scan_hit in Hscan as (f & _ & Hf & Hfp & _).
    rewrite Nat.sub_0_r in Hf.
    set (md1 := set_frames _ md).
    assert (Forall2 (benign V) (frames md) (frames md1)
            ∧ ∀ l, lru_repr md l → ∃ l', lru_repr md1 l') as [Hb1 Hl1].
    { apply alter_pool_benign; [|done]. intros g Hg. assert (g = f) as -> by congruence.
      unfold benign, frame_ok, frame_clean_if_empty, NO_PAGE. simpl.
      split_and!; [done|done| |done]. intros [? ?]. split; [lia|]. intros; lia. }
    do 5 eexists. split_and!; [done|done|].
    destruct (_ || _); [|by split; [left|]].
    eapply pool_trans_trans; [by split| |].
    + right. apply moveToLRUHead_payload.
    + intros l Hr. eapply moveToLRUHead_repr; [done|].
      unfold md1. simpl. rewrite length_alter. by eapply lookup_lt_Some.
  - pose proof (pin_scan_miss _ _ _ _ _ Hscan) as Habs.
    destruct (Z.leb_spec 0 freeIdx) as [Hfree|Hnofree].
    + (* free frame *)
      apply pin_scan_free in Hscan; [|done].
      destruct Hscan as [[-> _]|(f & _ & _ & Hf & Hfp)]; [lia|].
      rewrite Nat.sub_0_r in Hf.
      destruct Hinv as (Hok & _).
      destruct (Forall_lookup_1 _ _ _ _ Hok Hf) as [_ Hz].
      pose proof (pin_load_trans V md (Z.to_nat freeIdx) pid w f Hf (Hz Hfp) Hpid Habs)
        as Ht.
      destruct (pin_load _ _ _ _) as [[[? ?] md1] w1].
      do 5 eexists. by split_and!.
    + (* victim *)
      destruct (selectVictim_spec md Hinv)
        as (v & md1 & -> & Hf1 & Hh1 & Ht1 & _ & _ & _ & Hv).
      destruct v as [slot|].
      * destruct (Hv slot eq_refl) as (f & Hf & Hp).
        pose proof (pin_writeback_spec md1 slot w) as (Hf2 & Hh2 & Ht2 & _).
        destruct (pin_writeback md1 slot w) as [[? md2] w1]. simpl in *.
        assert (frames md2 !! slot = Some f) as Hf' by (by rewrite Hf2, Hf1).
        assert (Forall (λ g, pageId g ≠ pid) (frames md2)) as Habs'
          by (by rewrite Hf2, Hf1).
        pose proof (pin_load_trans V md2 slot pid w1 f Hf' Hp Hpid Habs') as [Ht Hl].
        destruct (pin_load _ _ _ _) as [[[? ?] md3] w2]. simpl in *.
        do 5 eexists. split_and!; [done|done|]. split.
        -- by rewrite Hf2, Hf1 in Ht.
        -- intros l Hr. apply (Hl l).
           apply (lru_repr_ext md); [| |congruence|congruence|done];
             by rewrite Hf2, Hf1.
      * do 5 eexists. split_and!; [done|done|].
        by apply pool_trans_same_frames.
Qed.

Lemma unpinPage_trans V bm md ph :
  mgmtData bm = Some md →
  ∃ md', mgmtData (unpinPage bm ph).2 = Some md' ∧ pool_trans V md md'.
Proof.
  intros Hmd. unfold unpinPage. rewrite Hmd.
  destruct (findPage _ _ _) as [i|] eqn:Hfind.
  2:{ exists md. split; [done|apply pool_trans_refl]. }
  apply findPage_Some in Hfind as (f & _ & Hf & Hfp). rewrite Nat.sub_0_r in Hf.
  rewrite Hf. simpl.
  destruct (Z.ltb_spec 0 (pinCount f)) as [Hp|Hp].
  2:{ exists md. split; [done|apply pool_trans_refl]. }
  eexists. split; [done|]. apply alter_pool_trans; [|done].
  intros g Hg. assert (g = f) as -> by congruence.
  unfold benign, frame_ok, frame_clean_if_empty. simpl.
  split_and!; [done|done| |done]. intros [? Hz]. split; [lia|].
  intros He. specialize (Hz He). lia.
Qed.

Lemma markDirty_trans bm md ph :
  mgmtData bm = Some md →
  ∃ md', mgmtData (markDirty bm ph).2 = Some md'
         ∧ pool_trans (0 ≤ pageNum ph) md md'.
Proof.
  intros Hmd. unfold markDirty. rewrite Hmd.
  destruct (findPage _ _ _) as [i|] eqn:Hfind.
  2:{ exists md. split; [done|apply pool_trans_refl]. }
  apply findPage_Some in Hfind as (f & _ & Hf & Hfp). rewrite Nat.sub_0_r in Hf.
  eexists. split; [done|]. apply alter_pool_trans; [|done].
  intros g Hg. assert (g = f) as -> by congruence.
  unfold benign, frame_ok, frame_clean_if_empty, NO_PAGE. simpl.
  split_and!; [done|done|done|]. intros; lia.
Qed.

Lemma forcePage_trans V bm md ph w :
  mgmtData bm = Some md →
  ∃ md', mgmtData (forcePage bm ph w).1.2 = Some md' ∧ pool_trans V md md'.
Proof.
  intros Hmd. unfold forcePage. rewrite Hmd.
  destruct (findPage _ _ _) as [i|] eqn:Hfind.
  2:{ exists md. split; [done|apply pool_trans_refl]. }
  destruct (writeBlock _ _ _ _) as [[? h1] w1]. simpl.
  eexists. split; [done|].
  set (md1 := set_writeIO _ _).
  change (frames md1) with (frames md).
  assert (pool_trans V md1 (set_frames (alter (set_dirty false) i (frames md1)) md1))
    as [Hb Hl].
  { apply alter_pool_trans; [|done]. intros g _.
    unfold benign, frame_ok, frame_clean_if_empty. simpl. by split_and!. }
  split; [exact Hb|]. intros l Hr. apply (Hl l).
  by apply (lru_repr_ext md).
Qed.

Lemma flush_loop_spec clear F h wio w :
  flush_loop clear F h wio w =
  ((λ f, if flushable f && clear then set_dirty false f else f) <$> F,
   (flush_writes (flush_targets F) h w).1,
   Nat.iter (length (flush_targets F)) uincr wio,
   (flush_writes (flush_targets F) h w).2).
Proof.
  unfold flush_targets, flush_writes.
  revert h wio w. induction F as [|f F IH]; intros h wio w; [done|].
  simpl flush_loop. rewrite filter_cons. rewrite fmap_cons.
  destruct (flushable f) eqn:Hfl.
  - rewrite decide_True by done.
    destruct (writeBlock (pageId f) h (data f) w) as [[rc h1] w1] eqn:Hw.
    rewrite IH. simpl. rewrite Hw. simpl. rewrite <- Nat.iter_succ_r. simpl.
    by destruct clear.
  - rewrite decide_False by done. rewrite IH. done.
Qed.

Lemma flushable_spec f :
  flushable f = true ↔ pageId f ≠ NO_PAGE ∧ isDirty f = true ∧ pinCount f = 0.
Proof.
  unfold flushable. rewrite !andb_true_iff, negb_true_iff.
  rewrite Z.eqb_neq, Z.eqb_eq. tauto.
Qed.

Lemma forceFlushPool_trans V bm md w :
  mgmtData bm = Some md →
  ∃ md', (forceFlushPool bm w).1 = (RC_OK, with_md md' bm) ∧ pool_trans V md md'.
Proof.
  intros Hmd. unfold forceFlushPool. rewrite Hmd, flush_loop_spec.
  eexists. split; [done|]. split.
  - left. simpl. apply Forall2_fmap_r, Forall_Forall2_diag, Forall_forall.
    intros f _. unfold compose. destruct (flushable f && true); [|apply benign_refl].
    unfold benign, frame_ok, frame_clean_if_empty. simpl. by split_and!.
  - intros l Hr. exists l. apply (lru_repr_ext md); [| |done|done|done].
    + simpl. by rewrite length_fmap.
    + intros j. simpl. unfold fprev, fnext. rewrite !list_lookup_fmap.
      destruct (frames md !! j) as [f|]; [|done]. simpl.
      by destruct (flushable f && true).
Qed.

(** Every call ends on a pool that satisfies the invariant, and what it
    does to the pool, if the pool is still there, is a transition. *)
Lemma step_trans op bm w md :
  mgmtData bm = Some md → pool_inv md →
  ∃ rc bm' w', step op bm w = Some (rc, bm', w')
    ∧ ∀ md', mgmtData bm' = Some md' → pool_trans (valid_handle op) md md'.
Proof.
  intros Hmd Hinv. destruct op as [pid|p|p|p| |]; simpl.
  - destruct (pinPage_trans True bm md (mkPageHandle NO_PAGE None) pid w Hmd Hinv)
      as (rc & bm' & ph' & w' & md' & -> & Hmd' & Ht).
    do 3 eexists. split; [done|]. intros ? ?. by simplify_eq.
  - destruct (unpinPage_trans (0 ≤ p) bm md (mkPageHandle p None) Hmd) as (md' & Hmd' & Ht).
    destruct (unpinPage _ _) as [rc bm']. do 3 eexists. split; [done|].
    intros ? ?. by simplify_eq/=.
  - destruct (markDirty_trans bm md (mkPageHandle p None) Hmd) as (md' & Hmd' & Ht).
    destruct (markDirty _ _) as [rc bm']. do 3 eexists. split; [done|].
    intros ? ?. by simplify_eq/=.
  - destruct (forcePage_trans (0 ≤ p) bm md (mkPageHandle p None) w Hmd)
      as (md' & Hmd' & Ht).
    destruct (forcePage _ _ _) as [[rc bm'] w']. do 3 eexists. split; [done|].
    intros ? ?. by simplify_eq/=.
  - destruct (forceFlushPool_trans True bm md w Hmd) as (md' & Hff & Ht).
    destruct (forceFlushPool _ _) as [[rc bm'] w']. do 3 eexists. split; [done|].
    intros ? ?. by simplify_eq/=.
  - unfold shutdownBufferPool. rewrite Hmd.
    destruct (flush_loop _ _ _ _ _) as [[[? ?] ?] ?].
    destruct (closePageFile _ _) as [[? ?] ?].
    do 3 eexists. split; [done|]. done.
Qed.

Lemma initBufferPool_frames bm0 pageFileName numPages s w bm w1 md :
  initBufferPool bm0 pageFileName numPages s w = Some (RC_OK, bm, w1) →
  mgmtData bm = Some md →
  frames md = replicate (Z.to_nat numPages)
                (mkFrame NO_PAGE (replicate PAGE_SIZE (junk_byte w1)) false 0 None None)
  ∧ lruHead md = None ∧ lruTail md = None
  ∧ readIO md = 0 ∧ writeIO md = 0 ∧ strat md = s
  ∧ fifoHead md = 0 ∧ fifoCount md = 0.
Proof.
  unfold initBufferPool.
  destruct (openPageFile _ _ _) as [[rc h] w2].
  case_bool_decide; [by intros [= ? ?]|].
  case_bool_decide; [|done]. simpl. intros [= <- <-] [= <-]. by split_and!.
Qed.

Lemma initBufferPool_inv bm0 pageFileName numPages s w bm w1 md :
  initBufferPool bm0 pageFileName numPages s w = Some (RC_OK, bm, w1) →
  mgmtData bm = Some md →
  pool_inv md ∧ Forall frame_clean_if_empty (frames md).
Proof.
  intros Hi Hmd.
  destruct (initBufferPool_frames _ _ _ _ _ _ _ _ Hi Hmd) as (HF & Hh & Ht & _).
  assert (∀ j f, frames md !! j = Some f →
            pageId f = NO_PAGE ∧ pinCount f = 0 ∧ isDirty f = false
            ∧ prev f = None ∧ next f = None) as Hall.
  { intros j f. rewrite HF. intros [-> _]%lookup_replicate. done. }
  split; [split_and!|].
  - apply Forall_lookup. intros j f Hf. destruct (Hall j f Hf) as (? & ? & _).
    unfold frame_ok. split; [lia|done].
  - intros i j fi fj Hfi _ _ Hne. by destruct (Hall i fi Hfi) as (? & _).
  - exists []. unfold lru_repr. rewrite Hh, Ht.
    refine (conj _ (conj _ (conj _ (conj _ _)))); [constructor|done|done|done|].
    intros j _. unfold fprev, fnext.
    destruct (frames md !! j) as [f|] eqn:Hf; [|done]. simpl.
    by destruct (Hall j f Hf) as (_ & _ & _ & -> & ->).
  - apply Forall_lookup. intros j f Hf _. by destruct (Hall j f Hf) as (_ & _ & ? & _).
Qed.

(** The pool invariant holds in every state a pool goes through. *)
Lemma reachable_inv P bm w md :
  reachable_by P bm w → mgmtData bm = Some md → pool_inv md.
Proof.
  intros Hr. revert md. induction Hr as [? ? ? ? ? ? ? Hi|op bm w rc bm1 w1 Hr IH HP Hs];
    intros md Hmd.
  - by eapply initBufferPool_inv.
  - destruct (step_strat _ _ _ _ _ _ _ Hs Hmd) as (md0 & Hmd0 & _).
    specialize (IH md0 Hmd0).
    destruct (step_trans op bm w md0 Hmd0 IH) as (rc' & bm' & w' & Hs' & Ht).
    rewrite Hs in Hs'. simplify_eq. eapply pool_trans_inv; eauto.
Qed.

(** When every handle carries a page number, an empty frame is never
    dirty. *)
Lemma reachable_clean bm w md :
  reachable_by valid_handle bm w → mgmtData bm = Some md →
  Forall frame_clean_if_empty (frames md).
Proof.
  intros Hr. revert md. induction Hr as [? ? ? ? ? ? ? Hi|op bm w rc bm1 w1 Hr IH HP Hs];
    intros md Hmd.
  - by eapply initBufferPool_inv.
  - destruct (step_strat _ _ _ _ _ _ _ Hs Hmd) as (md0 & Hmd0 & _).
    specialize (IH md0 Hmd0).
    pose proof (reachable_inv _ _ _ _ Hr Hmd0) as Hinv.
    destruct (step_trans op bm w md0 Hmd0 Hinv) as (rc' & bm' & w' & Hs' & Ht).
    rewrite Hs in Hs'. simplify_eq.
    destruct (Ht md Hmd) as [Hf _]. exact (frames_trans_clean _ _ _ HP Hf IH).
Qed.


(** ** Pin safety and residency *)

(** C4. Pin safety.  In every state a pool goes through, whatever its
    replacement strategy: victim selection ends and only ever returns a
    frame whose pin count is 0; and every call ends and leaves each frame
    whose pin count is positive with the page it held and with the bytes
    it held, so that no pinned frame is evicted or overwritten. *)
Theorem pin_safety (bm : BM_BufferPool) (w : World) (md : PoolMetadata) :
  reachable bm w →
  mgmtData bm = Some md →
  (∃ v md1, selectVictim md = Some (v, md1)
     ∧ ∀ k, v = Some k → ∃ f, frames md !! k = Some f ∧ pinCount f = 0)
  ∧ ∀ op, ∃ rc bm' w',
      step op bm w = Some (rc, bm', w')
      ∧ ∀ md', mgmtData bm' = Some md' →
          ∀ i f, frames md !! i = Some f → 0 < pinCount f →
            ∃ f', frames md' !! i = Some f'
                  ∧ pageId f' = pageId f ∧ data f' = data f.
Proof.
  intros Hr Hmd. pose proof (reachable_inv _ _ _ _ Hr Hmd) as Hinv. split.
  - destruct (selectVictim_spec md Hinv) as (v & md1 & Hs & _ & _ & _ & _ & _ & _ & Hv).
    eauto.
  - intros op. destruct (step_trans op bm w md Hmd Hinv) as (rc & bm' & w' & Hs & Ht).
    exists rc, bm', w'. split; [done|]. intros md' Hmd' i f Hf Hp.
    destruct (Ht md' Hmd') as [HF _]. by eapply frames_trans_pinned.
Qed.

Lemma payload_projections (F F' : list Frame) :
  payload <$> F' = payload <$> F →
  pageId <$> F' = pageId <$> F ∧ data <$> F' = data <$> F
  ∧ isDirty <$> F' = isDirty <$> F ∧ pinCount <$> F' = pinCount <$> F.
Proof.
  intros He.
  assert (∀ {B} (g : PageNumber * list byte * bool * Z → B),
            (g ∘ payload) <$> F' = (g ∘ payload) <$> F) as Hg.
  { intros B g. by rewrite !list_fmap_compose, He. }
  split_and!.
  - apply (Hg _ (λ p, p.1.1.1)).
  - apply (Hg _ (λ p, p.1.1.2)).
  - apply (Hg _ (λ p, p.1.2)).
  - apply (Hg _ (λ p, p.2)).
Qed.

Lemma fmap_alter_insert {B} (g : Frame → B) h i f (F : list Frame) :
  F !! i = Some f → g <$> alter h i F = <[i := g (h f)]> (g <$> F).
Proof.
  intros Hf. apply list_eq. intros j.
  rewrite list_lookup_fmap, list_lookup_alter.
  destruct (decide (i = j)) as [->|Hne].
  - rewrite list_lookup_insert_eq; [by rewrite Hf|].
    rewrite length_fmap. by eapply lookup_lt_Some.
  - rewrite list_lookup_insert_ne by done. by rewrite list_lookup_fmap.
Qed.

(** C6. Residency uniqueness.  In every state a pool goes through, no
    page is held by two frames; and [pinPage] of a page held by frame [i]
    is a hit: it returns [RC_OK] with a handle on frame [i], adds one to
    that frame's pin count and loads nothing (frame contents, dirty flags,
    page data, counters and world are as before). *)
Theorem residency_unique (bm : BM_BufferPool) (w : World) (md : PoolMetadata) :
  reachable bm w →
  mgmtData bm = Some md →
  (∀ i j fi fj,
     frames md !! i = Some fi → frames md !! j = Some fj →
     pageId fi = pageId fj → pageId fi ≠ NO_PAGE → i = j)
  ∧ ∀ ph pid i f,
      frames md !! i = Some f → pageId f = pid → 0 ≤ pid →
      ∃ md', pinPage bm ph pid w
               = Some (RC_OK, with_md md' bm, mkPageHandle pid (Some i), w)
        ∧ getFrameContents md' = getFrameContents md
        ∧ getFixCounts md' = <[i := pinCount f + 1]> (getFixCounts md)
        ∧ getDirtyFlags md' = getDirtyFlags md
        ∧ data <$> frames md' = data <$> frames md
        ∧ getNumReadIO md' = getNumReadIO md
        ∧ getNumWriteIO md' = getNumWriteIO md.
Proof.
  intros Hr Hmd. destruct (reachable_inv _ _ _ _ Hr Hmd) as (Hok & Hu & _).
  split; [exact Hu|].
  intros ph pid i f Hf Hfp Hpid. unfold pinPage. rewrite Hmd.
  rewrite (proj2 (Z.ltb_ge pid 0)) by done.
  destruct (pin_scan pid (frames md) 0 (-1)) as [i'|z] eqn:Hscan.
  2:{ apply pin_scan_miss in Hscan. by destruct (Forall_lookup_1 _ _ _ _ Hscan Hf). }
  apply pin_scan_hit in Hscan as (f' & _ & Hf' & Hfp' & _).
  rewrite Nat.sub_0_r in Hf'.
  assert (i' = i) as ->.
  { apply (Hu i' i f' f); [done|done|congruence|unfold NO_PAGE; lia]. }
  assert (f' = f) as -> by congruence.
  set (md1 := set_frames _ md).
  set (md2 := if _ || _ then _ else _).
  assert (payload <$> frames md2 = payload <$> frames md1) as Hp.
  { unfold md2. destruct (_ || _); [apply moveToLRUHead_payload|done]. }
  assert (readIO md2 = readIO md ∧ writeIO md2 = writeIO md) as [Hrd Hwr].
  { unfold md2. destruct (_ || _); [|done].
    by destruct (moveToLRUHead_other md1 (Some i)) as (_ & -> & -> & _). }
  destruct (payload_projections _ _ Hp) as (Hp1 & Hp2 & Hp3 & Hp4).
  exists md2. split; [done|].
  unfold getFrameContents, getFixCounts, getDirtyFlags, getNumReadIO, getNumWriteIO.
  rewrite Hp1, Hp2, Hp3, Hp4, Hrd, Hwr. unfold md1. simpl.
  split_and!; try done; try (by apply fmap_alter_keep).
  exact (fmap_alter_insert pinCount (λ g, set_pin (pinCount g + 1) g) i f _ Hf).
Qed.

(** ** Frames of the states reached with valid handles *)

Lemma reachable_frames_wf (bm : BM_BufferPool) (w : World) (md : PoolMetadata) :
  reachable_by valid_handle bm w → mgmtData bm = Some md →
  Forall (λ f, 0 ≤ pinCount f ∧ (pageId f = NO_PAGE → isDirty f = false)) (frames md).
Proof.
  intros Hr Hmd.
  pose proof (reachable_clean _ _ _ Hr Hmd) as Hclean.
  destruct (reachable_inv _ _ _ _ Hr Hmd) as (Hok & _).
  apply Forall_lookup. intros j f Hj.
  destruct (Forall_lookup_1 _ _ _ _ Hok Hj) as [Hpin _].
  pose proof (Forall_lookup_1 _ _ _ _ Hclean Hj) as Hc. by split.
Qed.

(** ** I/O codes and counters in [pinPage] *)

Lemma pin_load_counters md slot pid w :
  readIO (pin_load md slot pid w).1.2 = uincr (readIO md)
  ∧ writeIO (pin_load md slot pid w).1.2 = writeIO md.
Proof.
  unfold pin_load.
  destruct (if totalNumPages (fh md) <=? pid then _ else _) as [[rcG h1] w1].
  destruct (readBlock _ _ _ _) as [[[rcR h2] buf1] w2]. simpl.
  case_bool_decide; [done|].
  by destruct (moveToLRUHead_other
                 (set_frames
                    (alter (λ f, loaded pid (set_data buf1 f)) slot (frames md))
                    (set_readIO (uincr (readIO md)) (set_fh h2 md))) (Some slot))
    as (_ & -> & -> & _).
Qed.

Lemma pin_writeback_counters md slot w f :
  frames md !! slot = Some f →
  readIO (pin_writeback md slot w).1.2 = readIO md
  ∧ writeIO (pin_writeback md slot w).1.2
    = (if isDirty f then uincr (writeIO md) else writeIO md).
Proof.
  intros Hf. unfold pin_writeback. rewrite Hf.
  destruct (isDirty f); [|done]. by destruct (writeBlock _ _ _ _) as [[? ?] ?].
Qed.

Lemma selectVictim_counters md v md1 :
  selectVictim md = Some (v, md1) →
  frames md1 = frames md ∧ readIO md1 = readIO md ∧ writeIO md1 = writeIO md.
Proof.
  unfold selectVictim. case_bool_decide.
  - intros [= Hs].
    pose proof (fifo_scan_spec (Z.to_nat (fifoCount md)) md) as Hspec.
    rewrite Hs in Hspec. simpl in Hspec. tauto.
  - destruct (lru_scan _ _ _); [|done]. by intros [= _ <-].
Qed.

(** C1, as amended.  [pinPage] discards the codes returned by
    [writeBlock], [ensureCapacity] and [readBlock].  On a miss that finds
    a free frame, or an unpinned victim, it returns [RC_OK] whatever these
    codes are; it advances [readIO] once for the load it attempts, and
    [writeIO] once when the victim is dirty, whether or not the transfer
    succeeded. *)
Theorem pinPage_discards_io_codes (bm : BM_BufferPool) (md : PoolMetadata)
    (ph : BM_PageHandle) (pid : PageNumber) (w : World) (freeIdx : Z) :
  mgmtData bm = Some md →
  0 ≤ pid →
  pin_scan pid (frames md) 0 (-1) = inr freeIdx →
  (0 ≤ freeIdx →
     ∀ rcGrow rcRead md1 w1,
       pin_load md (Z.to_nat freeIdx) pid w = (rcGrow, rcRead, md1, w1) →
       pinPage bm ph pid w
         = Some (RC_OK, with_md md1 bm,
                 mkPageHandle pid (Some (Z.to_nat freeIdx)), w1)
       ∧ readIO md1 = uincr (readIO md)
       ∧ writeIO md1 = writeIO md)
  ∧ (freeIdx < 0 →
     ∀ slot md1 f rcWrite md2 w1 rcGrow rcRead md3 w2,
       selectVictim md = Some (Some slot, md1) →
       frames md !! slot = Some f →
       pin_writeback md1 slot w = (rcWrite, md2, w1) →
       pin_load md2 slot pid w1 = (rcGrow, rcRead, md3, w2) →
       pinPage bm ph pid w
         = Some (RC_OK, with_md md3 bm, mkPageHandle pid (Some slot), w2)
       ∧ readIO md3 = uincr (readIO md)
       ∧ writeIO md3 = (if isDirty f then uincr (writeIO md) else writeIO md)).
Proof.
  intros Hmd Hpid Hscan. split.
  - intros Hfree rcGrow rcRead md1 w1 Hload.
    unfold pinPage. rewrite Hmd, Hscan.
    rewrite (proj2 (Z.ltb_ge pid 0)) by done.
    rewrite (proj2 (Z.leb_le 0 freeIdx)) by done.
    pose proof (pin_load_counters md (Z.to_nat freeIdx) pid w) as Hc.
    rewrite Hload in *. simpl in Hc. by destruct Hc.
  - intros Hnofree slot md1 f rcWrite md2 w1 rcGrow rcRead md3 w2 Hv Hf Hwb Hload.
    unfold pinPage. rewrite Hmd, Hscan.
    rewrite (proj2 (Z.ltb_ge pid 0)) by done.
    rewrite (proj2 (Z.leb_gt 0 freeIdx)) by done.
    rewrite Hv.
    destruct (selectVictim_counters _ _ _ Hv) as (HF1 & Hr1 & Hw1).
    assert (frames md1 !! slot = Some f) as Hf1 by (by rewrite HF1).
    pose proof (pin_writeback_counters md1 slot w f Hf1) as Hc2.
    pose proof (pin_load_counters md2 slot pid w1) as Hc3.
    rewrite Hwb in *. rewrite Hload in *. simpl in Hc2, Hc3.
    destruct Hc2 as [Hr2 Hw2], Hc3 as [Hr3 Hw3].
    split; [done|]. split; [congruence|]. rewrite Hw3, Hw2. by rewrite Hw1.
Qed.

(** ** The page file without faults *)

Lemma appendEmptyBlock_sync h w h1 w1 ctx :
  appendEmptyBlock h w = (RC_OK, h1, w1) → mgmtInfo h = Some ctx →
  ∃ ctx1, mgmtInfo h1 = Some ctx1 ∧ pages ctx1 = pages ctx + 1
          ∧ totalNumPages h1 = pages ctx1.
Proof.
  unfold appendEmptyBlock. intros Ha Hc. rewrite Hc in Ha.
  destruct (fseek_end _ _) as [[ok s] w2]. destruct ok; simpl in Ha; [|done].
  destruct (calloc _ _) as [[zb|] w3]; [|done].
  destruct (fwrite _ _ _ _) as [[written s1] w4].
  destruct (written <? PAGE_SIZE_BYTES)%nat; [done|].
  injection Ha as <- <-. eexists. by split_and!.
Qed.

Lemma ensureCapacity_loop_sync fuel n h w ctx :
  mgmtInfo h = Some ctx → totalNumPages h = pages ctx →
  (Z.to_nat (n - pages ctx) ≤ fuel)%nat →
  is_Some (ensureCapacity_loop fuel n h w).
Proof.
  revert h w ctx. induction fuel as [|fuel IH]; intros h w ctx Hc Ht Hf; simpl.
  - destruct (Z.ltb_spec (totalNumPages h) n); [lia|done].
  - destruct (Z.ltb_spec (totalNumPages h) n); [|done].
    destruct (appendEmptyBlock h w) as [[rc h1] w1] eqn:Ha.
    case_bool_decide; [|done]. subst rc.
    destruct (appendEmptyBlock_sync _ _ _ _ _ Ha Hc) as (ctx1 & Hc1 & Hp1 & Ht1).
    apply (IH h1 w1 ctx1); [done|done|lia].
Qed.

(** The fuel given to the loop of [ensureCapacity] is never exhausted:
    the function is total, whatever the faults. *)
Lemma ensureCapacity_fuel_enough n h w :
  is_Some (mgmtInfo h) →
  is_Some (ensureCapacity_loop (ensureCapacity_fuel n h) n h w).
Proof.
  intros [ctx Hc]. unfold ensureCapacity_fuel. rewrite Hc. simpl.
  destruct (Z.ltb_spec (totalNumPages h) n); [|done].
  destruct (appendEmptyBlock h w) as [[rc h1] w1] eqn:Ha.
  case_bool_decide; [|done]. subst rc.
  destruct (appendEmptyBlock_sync _ _ _ _ _ Ha Hc) as (ctx1 & Hc1 & Hp1 & Ht1).
  apply (ensureCapacity_loop_sync _ _ _ _ ctx1); [done|done|lia].
Qed.

Lemma appendEmptyBlock_ok name c h w :
  handle_on name c h w →
  ∃ h1 w1, appendEmptyBlock h w = (RC_OK, h1, w1)
    ∧ handle_on name (c ++ replicate PAGE_SIZE zero_byte) h1 w1
    ∧ totalNumPages h1 = totalNumPages h + 1
    ∧ junk_byte w1 = junk_byte w.
Proof.
  intros (Hq & Hfile & Hpos & Hlen & ctx & Hc & Hn & Hp).
  unfold appendEmptyBlock, fseek_end, calloc, fwrite, PAGE_SIZE_BYTES, file_bytes.
  rewrite Hc. rewrite (next_fault_quiet w Hq). simpl.
  rewrite (next_fault_quiet w Hq). simpl. rewrite (next_fault_quiet w Hq).
  rewrite Hn, Hfile. simpl.
  rewrite take_replicate, Nat.min_id, length_replicate, Nat.ltb_irrefl.
  rewrite write_at_end.
  do 2 eexists. split; [done|]. split; [|split; [simpl; lia|done]].
  unfold handle_on. simpl.
  refine (conj Hq (conj _ (conj _ (conj _ _)))).
  - by rewrite lookup_insert_eq.
  - lia.
  - rewrite length_app, length_replicate, Hlen.
    replace (Z.to_nat (pages ctx + 1)) with (S (Z.to_nat (totalNumPages h))) by lia.
    lia.
  - eexists. by split_and!.
Qed.

Lemma ensureCapacity_loop_ok name fuel n c h w :
  handle_on name c h w →
  (Z.to_nat (n - totalNumPages h) ≤ fuel)%nat →
  ∃ h1 w1, ensureCapacity_loop fuel n h w = Some (RC_OK, h1, w1)
    ∧ handle_on name
        (c ++ replicate (Z.to_nat (n - totalNumPages h) * PAGE_SIZE) zero_byte) h1 w1
    ∧ totalNumPages h1 = Z.max n (totalNumPages h)
    ∧ junk_byte w1 = junk_byte w.
Proof.
  revert c h w. induction fuel as [|fuel IH]; intros c h w Hh Hf; simpl.
  - destruct (Z.ltb_spec (totalNumPages h) n); [lia|].
    do 2 eexists. split; [done|].
    replace (Z.to_nat (n - totalNumPages h)) with 0%nat by lia.
    simpl. rewrite app_nil_r. split_and!; [done|lia|done].
  - destruct (Z.ltb_spec (totalNumPages h) n) as [Hlt|Hge].
    + destruct (appendEmptyBlock_ok name c h w Hh) as (h1 & w1 & -> & Hh1 & Ht1 & Hj1).
      rewrite bool_decide_eq_true_2 by done.
      destruct (IH _ h1 w1 Hh1) as (h2 & w2 & -> & Hh2 & Ht2 & Hj2); [lia|].
      do 2 eexists. split; [done|]. split_and!; [|lia|congruence].
      rewrite <- app_assoc, <- replicate_add in Hh2.
      replace (PAGE_SIZE + Z.to_nat (n - totalNumPages h1) * PAGE_SIZE)%nat
        with (Z.to_nat (n - totalNumPages h) * PAGE_SIZE)%nat in Hh2; [done|].
      rewrite Ht1.
      replace (Z.to_nat (n - totalNumPages h))
        with (S (Z.to_nat (n - (totalNumPages h + 1)))) by lia.
      simpl. lia.
    + do 2 eexists. split; [done|].
      replace (Z.to_nat (n - totalNumPages h)) with 0%nat by lia.
      simpl. rewrite app_nil_r. split_and!; [done|lia|done].
Qed.

Lemma ensureCapacity_ok name n c h w :
  handle_on name c h w → 0 ≤ n →
  ∃ h1 w1, ensureCapacity n h w = (RC_OK, h1, w1)
    ∧ handle_on name
        (c ++ replicate (Z.to_nat (n - totalNumPages h) * PAGE_SIZE) zero_byte) h1 w1
    ∧ totalNumPages h1 = Z.max n (totalNumPages h)
    ∧ junk_byte w1 = junk_byte w.
Proof.
  intros Hh Hn. pose proof Hh as (_ & _ & _ & _ & ctx & Hc & _ & Hp).
  unfold ensureCapacity. rewrite Hc. rewrite (proj2 (Z.ltb_ge n 0)) by done.
  destruct (ensureCapacity_loop_ok name (ensureCapacity_fuel n h) n c h w Hh)
    as (h1 & w1 & -> & Hres).
  - unfold ensureCapacity_fuel. rewrite Hc. lia.
  - simpl. eauto.
Qed.

Lemma readBlock_ok name c h w p memPage :
  handle_on name c h w → 0 ≤ p < totalNumPages h →
  ∃ h1, readBlock p h memPage w
        = (RC_OK, h1,
           take PAGE_SIZE (drop (Z.to_nat p * PAGE_SIZE) c) ++ drop PAGE_SIZE memPage,
           w)
    ∧ handle_on name c h1 w ∧ totalNumPages h1 = totalNumPages h.
Proof.
  intros (Hq & Hfile & Hpos & Hlen & ctx & Hc & Hn & Hp) Hr.
  unfold readBlock, seekToPageNum, fseek_set, fread, PAGE_SIZE_BYTES, file_bytes.
  rewrite Hc.
  rewrite (proj2 (Z.ltb_ge p 0)) by lia.
  rewrite (proj2 (Z.leb_gt (totalNumPages h) p)) by lia. simpl.
  rewrite (next_fault_quiet w Hq).
  rewrite (proj2 (Z.ltb_ge (p * Z.of_nat PAGE_SIZE) 0)) by lia. simpl.
  rewrite (next_fault_quiet w Hq). simpl. rewrite Hn, Hfile. simpl.
  replace (Z.to_nat (p * Z.of_nat PAGE_SIZE)) with (Z.to_nat p * PAGE_SIZE)%nat by lia.
  assert (length (take PAGE_SIZE (drop (Z.to_nat p * PAGE_SIZE) c)) = PAGE_SIZE) as Hgot.
  { rewrite length_take, length_drop, Hlen.
    assert (Z.to_nat p < Z.to_nat (totalNumPages h))%nat by lia. nia. }
  rewrite Hgot, Nat.ltb_irrefl.
  eexists. split; [done|]. split; [|done].
  unfold handle_on. simpl.
  refine (conj Hq (conj Hfile (conj Hpos (conj Hlen _)))).
  eexists. by split_and!.
Qed.

Lemma openPageFile_ok name c k w :
  faults w = [] → files w !! name = Some c →
  (0 < PAGE_SIZE)%nat → length c = (k * PAGE_SIZE)%nat →
  ∃ h, openPageFile name blank_handle w = (RC_OK, h, w)
       ∧ handle_on name c h w ∧ totalNumPages h = Z.of_nat k.
Proof.
  intros Hq Hfile Hps Hlen.
  unfold openPageFile, fopen_rbplus, fseek_end, ftell, malloc_checked,
    allocateFileContext, malloc_checked, fseek_set, PAGE_SIZE_BYTES, file_bytes.
  rewrite (next_fault_quiet w Hq), Hfile. simpl.
  rewrite (next_fault_quiet w Hq). simpl. rewrite (next_fault_quiet w Hq), Hfile. simpl.
  rewrite (proj2 (Z.ltb_ge (Z.of_nat (length c)) 0)) by lia.
  rewrite (next_fault_quiet w Hq). simpl. rewrite (next_fault_quiet w Hq). simpl.
  rewrite (next_fault_quiet w Hq). simpl.
  assert (Z.of_nat (length c) ÷ Z.of_nat PAGE_SIZE = Z.of_nat k) as Hdiv.
  { rewrite Hlen, Nat2Z.inj_mul. rewrite Z.quot_mul; lia. }
  rewrite Hdiv.
  eexists. split; [done|]. split; [|done].
  unfold handle_on. simpl.
  refine (conj Hq (conj Hfile (conj _ (conj _ _)))); [lia|by rewrite Nat2Z.id|].
  eexists. by split_and!.
Qed.

(** ** Pinning past the end of the file *)

Lemma pin_scan_all_empty pid n f0 i fr :
  pageId f0 = NO_PAGE → 0 ≤ pid → 0 ≤ fr →
  pin_scan pid (replicate n f0) i fr = inr fr.
Proof.
  intros He Hpid. revert i. induction n as [|n IH]; intros i Hfr; simpl; [done|].
  rewrite He. rewrite (proj2 (Z.eqb_neq NO_PAGE pid)) by (unfold NO_PAGE; lia).
  rewrite (proj2 (Z.ltb_ge fr 0)) by done. rewrite andb_false_r. by apply IH.
Qed.

Lemma pin_scan_fresh_pool pid n f0 :
  pageId f0 = NO_PAGE → 0 ≤ pid →
  pin_scan pid (replicate (S n) f0) 0 (-1) = inr 0.
Proof.
  intros He Hpid. simpl. rewrite He.
  rewrite (proj2 (Z.eqb_neq NO_PAGE pid)) by (unfold NO_PAGE; lia).
  simpl. by apply pin_scan_all_empty.
Qed.

(** C7. Pinning a page at or beyond the end of the file grows the file
    first.  Over a fault-free world in which the file holds [k] pages, on
    a freshly set up pool with at least one frame, [pinPage] of a page
    [pid ≥ k] returns [RC_OK]; the file then holds [pid + 1] pages, the old
    ones followed by zero bytes only; frame 0 holds page [pid], all zero,
    clean, pinned once; [readIO] is 1 and [writeIO] is 0.  (With [k = 1]
    and [pid = 5]: six pages, five of them added and zero-filled.) *)
Theorem pin_beyond_end_grows_file (bm0 : BM_BufferPool) (name : string)
    (c : list byte) (k : nat) (numPages : Z) (s : ReplacementStrategy)
    (ph : BM_PageHandle) (pid : PageNumber) (w : World) :
  (0 < PAGE_SIZE)%nat →
  faults w = [] →
  files w !! name = Some c →
  length c = (k * PAGE_SIZE)%nat →
  1 ≤ numPages →
  Z.of_nat k ≤ pid →
  ∃ bm md' w2 f,
    initBufferPool bm0 name numPages s w = Some (RC_OK, bm, w)
    ∧ pinPage bm ph pid w
      = Some (RC_OK, with_md md' bm, mkPageHandle pid (Some 0%nat), w2)
    ∧ files w2 !! name
      = Some (c ++ replicate ((Z.to_nat pid + 1 - k) * PAGE_SIZE) zero_byte)
    ∧ totalNumPages (fh md') = pid + 1
    ∧ frames md' !! 0%nat = Some f
    ∧ pageId f = pid
    ∧ data f = replicate PAGE_SIZE zero_byte
    ∧ isDirty f = false
    ∧ pinCount f = 1
    ∧ getNumReadIO md' = 1
    ∧ getNumWriteIO md' = 0.
Proof.
  intros Hps Hq Hfile Hlen Hn Hpid.
  destruct (openPageFile_ok name c k w Hq Hfile Hps Hlen) as (h & Hopen & Hh & Ht).
  unfold initBufferPool. rewrite Hopen. simpl.
  set (frame0 := mkFrame NO_PAGE (replicate PAGE_SIZE (junk_byte w)) false 0 None None).
  set (md := mkPool h _ s 0 0 _ 0 0 None None).
  set (bm := mkBM (Some name) numPages s (Some md)).
  destruct (Z.to_nat numPages) as [|n] eqn:Hnp; [lia|].
  assert (frames md !! 0%nat = Some frame0) as Hf0 by done.
  (* the load *)
  destruct (ensureCapacity_ok name (pid + 1) c h w Hh) as (h1 & w1 & Hgrow & Hh1 & Ht1 & _);
    [lia|].
  destruct (readBlock_ok name _ h1 w1 pid (replicate PAGE_SIZE (junk_byte w)) Hh1)
    as (h2 & Hread & Hh2 & Ht2); [lia|].
  assert (take PAGE_SIZE
            (drop (Z.to_nat pid * PAGE_SIZE)
               (c ++ replicate (Z.to_nat (pid + 1 - totalNumPages h) * PAGE_SIZE)
                       zero_byte))
          ++ drop PAGE_SIZE (replicate PAGE_SIZE (junk_byte w))
          = replicate PAGE_SIZE zero_byte) as Hbuf.
  { rewrite drop_replicate, Nat.sub_diag. simpl. rewrite app_nil_r.
    rewrite drop_app_ge by (rewrite Hlen; nia).
    rewrite drop_replicate, take_replicate. f_equal. rewrite Hlen, Ht. nia. }
  rewrite Hbuf in Hread.
  pose (md2 := set_frames
                 (alter (λ f, loaded pid (set_data
                           (replicate PAGE_SIZE zero_byte) f)) 0%nat (frames md))
                 (set_readIO (uincr 0) (set_fh h2 md))).
  pose (md3 := if bool_decide (s = RS_FIFO) then enqueueFIFO md2 0
               else moveToLRUHead md2 (Some 0%nat)).
  assert (pin_load md 0 pid w = (RC_OK, RC_OK, md3, w1)) as Hload.
  { unfold pin_load. change (fh md) with h. rewrite Ht.
    rewrite (proj2 (Z.leb_le (Z.of_nat k) pid)) by done.
    rewrite Hgrow. rewrite Hf0. simpl default. rewrite Hread. done. }
  assert (payload <$> frames md3
          = payload <$> alter (λ f, loaded pid (set_data
                                 (replicate PAGE_SIZE zero_byte) f)) 0%nat (frames md))
    as Hpl.
  { unfold md3. case_bool_decide; [done|]. by rewrite moveToLRUHead_payload. }
  assert (fh md3 = h2 ∧ readIO md3 = 1 ∧ writeIO md3 = 0) as (Hfh & Hrd & Hwr).
  { unfold md3. case_bool_decide; [done|].
    by destruct (moveToLRUHead_other md2 (Some 0%nat)) as (-> & -> & -> & _). }
  assert (∃ f, frames md3 !! 0%nat = Some f
               ∧ payload f = (pid, replicate PAGE_SIZE zero_byte, false, 1))
    as (f & Hf & Hpf).
  { assert (is_Some (frames md3 !! 0%nat)) as [f Hf].
    { apply lookup_lt_is_Some. rewrite <- (length_fmap payload), Hpl.
      rewrite length_fmap, length_alter. by eapply lookup_lt_Some. }
    exists f. split; [done|].
    destruct (payload_lookup _ _ _ _ Hpl Hf) as (g & Hg & Hgp).
    rewrite list_lookup_alter_eq, Hf0 in Hg. simpl in Hg.
    injection Hg as <-. by rewrite <- Hgp. }
  unfold payload in Hpf. injection Hpf as Hp1 Hp2 Hp3 Hp4.
  exists bm, md3, w1, f.
  split; [done|]. split.
  { unfold pinPage. change (mgmtData bm) with (Some md).
    rewrite (proj2 (Z.ltb_ge pid 0)) by lia.
    change (frames md) with (replicate (S n) frame0).
    rewrite pin_scan_fresh_pool by (done || lia).
    change (replicate (S n) frame0) with (frames md).
    simpl Z.leb. cbv iota. change (Z.to_nat 0) with 0%nat. by rewrite Hload. }
  destruct Hh2 as (_ & Hfile2 & _).
  split_and!; try done;
    try (unfold getNumReadIO, getNumWriteIO; rewrite ?Hrd, ?Hwr; done).
  - rewrite Hfile2, Ht.
    by replace (Z.to_nat (pid + 1 - Z.of_nat k)) with (Z.to_nat pid + 1 - k)%nat by lia.
  - rewrite Hfh, Ht2, Ht1. lia.
Qed.

(** ** Sessions and reachable states *)

Lemma run_reachable (P : PoolOp → Prop) ops bm w rcs bm' w' :
  reachable_by P bm w → Forall P ops →
  run ops bm w = Some (rcs, bm', w') → reachable_by P bm' w'.
Proof.
  revert bm w rcs. induction ops as [|op ops IH]; intros bm w rcs Hr HP; simpl.
  - by intros [= _ <- <-].
  - destruct (step op bm w) as [[[rc bm1] w1]|] eqn:Hs; [|done].
    destruct (run ops bm1 w1) as [[[rcs' bm2] w2]|] eqn:Hrun; [|done].
    intros [= _ <- <-]. apply Forall_cons in HP as [Hop HP].
    eapply IH; [|done|done]. by eapply reachable_step.
Qed.

Lemma session_reachable (P : PoolOp → Prop) s bm0 name n ops w rcs bm w' :
  Forall P ops →
  session s bm0 name n ops w = Some (RC_OK, rcs, bm, w') →
  reachable_by P bm w'.
Proof.
  intros HP. unfold session.
  destruct (initBufferPool _ _ _ _ _) as [[[rc bm1] w1]|] eqn:Hi; [|done].
  case_bool_decide; [subst rc|by intros [= ? ? ? ?]].
  destruct (run ops bm1 w1) as [[[rcs' bm2] w2]|] eqn:Hrun; [|done].
  intros [= _ <- <-]. eapply run_reachable; [|done|done]. by eapply reachable_init.
Qed.

(** ** The FIFO scan *)

(** The scan takes every entry it looks at off the queue, pinned or not:
    when it finds no victim, [n] entries are gone. *)
Lemma fifo_scan_none_drains n md md1 :
  fifo_scan n md = (None, md1) → fifoCount md1 = fifoCount md - Z.of_nat n.
Proof.
  revert md. induction n as [|n IH]; intros md; simpl.
  - intros [= <-]. lia.
  - set (md2 := set_fifo _ _ _ md).
    assert (fifoCount md2 = fifoCount md - 1) as Hc by done.
    destruct (frames md !! _) as [f|].
    + destruct (pinCount f =? 0); [done|]. intros Hs%IH. lia.
    + intros Hs%IH. lia.
Qed.

(** When every frame is pinned and none holds the page asked for,
    [pinPage] fails with [RC_READ_NON_EXISTING_PAGE] without touching any
    frame, the counters, the file handle, the LRU chain or the world; under
    a strategy other than FIFO the pool is exactly as before, under FIFO the
    queue has lost all its entries. *)
Lemma pinPage_all_pinned bm md ph pid w :
  mgmtData bm = Some md → pool_inv md → 0 ≤ pid →
  Forall (λ f, 0 < pinCount f ∧ pageId f ≠ pid) (frames md) →
  ∃ md1, pinPage bm ph pid w
         = Some (RC_READ_NON_EXISTING_PAGE, with_md md1 bm, ph, w)
    ∧ frames md1 = frames md ∧ fh md1 = fh md
    ∧ readIO md1 = readIO md ∧ writeIO md1 = writeIO md
    ∧ lruHead md1 = lruHead md ∧ lruTail md1 = lruTail md
    ∧ (strat md ≠ RS_FIFO → md1 = md)
    ∧ (strat md = RS_FIFO → 0 ≤ fifoCount md → fifoCount md1 = 0).
Proof.
  intros Hmd Hinv Hpid Hall. unfold pinPage. rewrite Hmd.
  rewrite (proj2 (Z.ltb_ge pid 0)) by done.
  destruct (pin_scan pid (frames md) 0 (-1)) as [i|z] eqn:Hscan.
  { apply pin_scan_hit in Hscan as (f & _ & Hf & Hfp & _).
    by destruct (Forall_lookup_1 _ _ _ _ Hall Hf) as [_ ?]. }
  apply pin_scan_free in Hscan; [|done].
  destruct Hscan as [[-> _]|(f & _ & _ & Hf & Hfp)].
  2:{ destruct Hinv as (Hok & _).
      destruct (Forall_lookup_1 _ _ _ _ Hok Hf) as [_ Hz].
      destruct (Forall_lookup_1 _ _ _ _ Hall Hf) as [? _]. specialize (Hz Hfp). lia. }
  simpl.
  destruct (selectVictim_spec md Hinv)
    as (v & md1 & Hsel & Hf1 & Hh1 & Ht1 & Hfh1 & Hr1 & Hw1 & Hv).
  rewrite Hsel. destruct v as [k|].
  { destruct (Hv k eq_refl) as (f & Hf & Hp).
    destruct (Forall_lookup_1 _ _ _ _ Hall Hf) as [? _]. lia. }
  exists md1. split; [done|]. split_and!; try done.
  - intros Hs. unfold selectVictim in Hsel.
    rewrite bool_decide_eq_false_2 in Hsel by done.
    destruct (lru_scan _ _ _); by simplify_eq.
  - intros Hs Hc. unfold selectVictim in Hsel.
    rewrite bool_decide_eq_true_2 in Hsel by done. injection Hsel as Hsel.
    apply fifo_scan_none_drains in Hsel. lia.
Qed.

(** ** More on the page file *)

#[local] Arguments page_of : simpl never.

Lemma page_of_app_l (c d : list byte) q :
  ((q + 1) * PAGE_SIZE ≤ length c)%nat → page_of (c ++ d) q = page_of c q.
Proof.
  intros Hq. unfold page_of. rewrite drop_app_le by lia.
  apply take_app_le. rewrite length_drop. lia.
Qed.

Lemma page_of_app_r (c d : list byte) k q :
  length c = (k * PAGE_SIZE)%nat → (k ≤ q)%nat →
  page_of (c ++ d) q = page_of d (q - k).
Proof.
  intros Hc Hq. unfold page_of. rewrite drop_app_ge by (rewrite Hc; nia).
  do 2 f_equal. rewrite Hc. nia.
Qed.

Lemma page_of_replicate n q (x : byte) :
  ((q + 1) * PAGE_SIZE ≤ n)%nat → page_of (replicate n x) q = replicate PAGE_SIZE x.
Proof.
  intros Hq. unfold page_of. rewrite drop_replicate, take_replicate. f_equal. lia.
Qed.

Lemma page_of_length (c : list byte) q :
  ((q + 1) * PAGE_SIZE ≤ length c)%nat → length (page_of c q) = PAGE_SIZE.
Proof. intros Hq. unfold page_of. rewrite length_take, length_drop. lia. Qed.

Lemma write_at_inside (cg out : list byte) pos :
  (pos + length out ≤ length cg)%nat →
  write_at cg pos out = take pos cg ++ out ++ drop (pos + length out) cg
  ∧ length (write_at cg pos out) = length cg.
Proof.
  intros Hin. unfold write_at.
  replace (pos - length cg)%nat with 0%nat by lia. simpl. split; [done|].
  rewrite !length_app, length_take, length_drop. lia.
Qed.

(** Storing one page leaves every other page as it was. *)
Lemma page_of_write_at (cg out : list byte) p q :
  ((p + 1) * PAGE_SIZE ≤ length cg)%nat → length out = PAGE_SIZE →
  page_of (write_at cg (p * PAGE_SIZE) out) q
  = if decide (q = p) then out else page_of cg q.
Proof.
  intros Hp Hout. destruct (write_at_inside cg out (p * PAGE_SIZE)) as [-> _]; [lia|].
  rewrite Hout.
  assert (length (take (p * PAGE_SIZE) cg) = (p * PAGE_SIZE)%nat) as Hla
    by (rewrite length_take; lia).
  case_decide as Hqp.
  - subst q. unfold page_of. rewrite drop_app_length' by done.
    by rewrite take_app_length' by done.
  - destruct (decide (q < p)%nat) as [Hlt|Hge].
    + rewrite page_of_app_l by (rewrite Hla; nia).
      unfold page_of. rewrite !take_drop_commute, take_take. do 2 f_equal. nia.
    + rewrite (page_of_app_r _ _ p) by (done || lia).
      rewrite (page_of_app_r _ _ 1) by (lia || lia).
      unfold page_of. rewrite drop_drop. do 2 f_equal. nia.
Qed.

Lemma readBlock_ok_pos name c h w p memPage :
  handle_on name c h w → 0 ≤ p < totalNumPages h →
  ∃ h1, readBlock p h memPage w
        = (RC_OK, h1, page_of c (Z.to_nat p) ++ drop PAGE_SIZE memPage, w)
    ∧ handle_on name c h1 w ∧ totalNumPages h1 = totalNumPages h
    ∧ curPagePos h1 = p.
Proof.
  intros (Hq & Hfile & Hpos & Hlen & ctx & Hc & Hn & Hp) Hr.
  unfold readBlock, seekToPageNum, fseek_set, fread, PAGE_SIZE_BYTES, file_bytes, page_of.
  rewrite Hc.
  rewrite (proj2 (Z.ltb_ge p 0)) by lia.
  rewrite (proj2 (Z.leb_gt (totalNumPages h) p)) by lia. simpl.
  rewrite (next_fault_quiet w Hq).
  rewrite (proj2 (Z.ltb_ge (p * Z.of_nat PAGE_SIZE) 0)) by lia. simpl.
  rewrite (next_fault_quiet w Hq). simpl. rewrite Hn, Hfile. simpl.
  replace (Z.to_nat (p * Z.of_nat PAGE_SIZE)) with (Z.to_nat p * PAGE_SIZE)%nat by lia.
  assert (length (take PAGE_SIZE (drop (Z.to_nat p * PAGE_SIZE) c)) = PAGE_SIZE) as Hgot.
  { rewrite length_take, length_drop, Hlen.
    assert (Z.to_nat p < Z.to_nat (totalNumPages h))%nat by lia. nia. }
  rewrite Hgot, Nat.ltb_irrefl.
  eexists. split; [done|]. split; [|done].
  unfold handle_on. simpl.
  refine (conj Hq (conj Hfile (conj Hpos (conj Hlen _)))).
  eexists. by split_and!.
Qed.

Lemma write_at_prefix_length (c : list byte) pos :
  length (take pos c ++ replicate (pos - length c) zero_byte) = pos.
Proof. rewrite length_app, length_take, length_replicate. lia. Qed.

Lemma page_of_write_at_same (c out : list byte) p :
  length out = PAGE_SIZE → page_of (write_at c (p * PAGE_SIZE) out) p = out.
Proof.
  intros Hout. unfold page_of, write_at. rewrite (app_assoc (take _ _)).
  rewrite drop_app_length' by (by rewrite write_at_prefix_length).
  by rewrite take_app_length' by done.
Qed.

(** *** The library calls, whatever the fault script *)

Lemma next_fault_files w : files (next_fault w).2 = files w.
Proof. unfold next_fault. by destruct (faults w). Qed.

Lemma next_fault_junk w : junk_byte (next_fault w).2 = junk_byte w.
Proof. unfold next_fault. by destruct (faults w). Qed.

Lemma fseek_end_spec s w :
  files (fseek_end s w).2 = files w ∧ f_name (fseek_end s w).1.2 = f_name s.
Proof.
  unfold fseek_end. pose proof (next_fault_files w) as Hf.
  destruct (next_fault w) as [[k|] w1]; simpl in *; done.
Qed.

Lemma fseek_set_spec off s w :
  files (fseek_set off s w).2 = files w
  ∧ f_name (fseek_set off s w).1.2 = f_name s
  ∧ ((fseek_set off s w).1.1 = true →
     0 ≤ off ∧ f_pos (fseek_set off s w).1.2 = Z.to_nat off).
Proof.
  unfold fseek_set. pose proof (next_fault_files w) as Hf.
  destruct (next_fault w) as [[k|] w1]; simpl in *; [done|].
  destruct (Z.ltb_spec off 0); simpl; split_and!; try done.
  all: intros _; split; [lia|done].
Qed.

Lemma calloc_spec n w :
  files (calloc n w).2 = files w
  ∧ ∀ b, (calloc n w).1 = Some b → b = replicate n zero_byte.
Proof.
  unfold calloc. pose proof (next_fault_files w) as Hf.
  destruct (next_fault w) as [[k|] w1]; simpl in *; split; try done.
  by intros b [= <-].
Qed.

Lemma fclose_spec s w : files (fclose s w).2 = files w.
Proof.
  unfold fclose. pose proof (next_fault_files w) as Hf.
  by destruct (next_fault w) as [[k|] w1].
Qed.

Lemma fread_spec n s w :
  files (fread n s w).2 = files w ∧ f_name (fread n s w).1.2 = f_name s.
Proof.
  unfold fread. pose proof (next_fault_files w) as Hf.
  by destruct (next_fault w) as [[k|] w1].
Qed.

Lemma fwrite_spec buf n s w :
  f_name (fwrite buf n s w).1.2 = f_name s
  ∧ same_files_off (f_name s) w (fwrite buf n s w).2
  ∧ ((n ≤ (fwrite buf n s w).1.1)%nat →
     files (fwrite buf n s w).2 !! f_name s
     = Some (write_at (file_bytes w (f_name s)) (f_pos s) (take n buf))).
Proof.
  unfold fwrite, same_files_off, file_bytes. pose proof (next_fault_files w) as Hf.
  destruct (next_fault w) as [[k|] w1]; simpl in *; rewrite Hf.
  - split_and!; [done|by intros; rewrite lookup_insert_ne|].
    rewrite length_take. intros Hn. rewrite lookup_insert_eq.
    by replace (k `min` n)%nat with n by lia.
  - split_and!; [done|by intros; rewrite lookup_insert_ne|].
    intros _. by rewrite lookup_insert_eq.
Qed.

(** *** The page file, whatever the fault script *)

Lemma seekToPageNum_frame name p h w :
  open_on name h →
  open_on name (seekToPageNum p h w).1.2
  ∧ files (seekToPageNum p h w).2 = files w
  ∧ totalNumPages (seekToPageNum p h w).1.2 = totalNumPages h
  ∧ curPagePos (seekToPageNum p h w).1.2 = curPagePos h
  ∧ ((seekToPageNum p h w).1.1 = RC_OK →
     0 ≤ p ∧ ∃ ctx, mgmtInfo (seekToPageNum p h w).1.2 = Some ctx
                    ∧ f_pos (fp ctx) = (Z.to_nat p * PAGE_SIZE)%nat).
Proof.
  intros (ctx & Hc & Hn). unfold seekToPageNum. rewrite Hc.
  destruct (Z.ltb_spec p 0); simpl.
  { split_and!; try done. by exists ctx. }
  destruct (_ <=? _); simpl.
  { split_and!; try done. by exists ctx. }
  pose proof (fseek_set_spec (p * Z.of_nat PAGE_SIZE_BYTES) (fp ctx) w) as (Hf & Hnm & Hpos).
  destruct (fseek_set _ _ _) as [[ok s] w1]. simpl in *.
  destruct ok; simpl; (split_and!; [eexists; split; [done|]; simpl; congruence|done..| ]);
    [|done].
  intros _. split; [done|]. eexists. split; [done|]. simpl.
  destruct Hpos as [_ ->]; [done|]. unfold PAGE_SIZE_BYTES. lia.
Qed.

Lemma same_files_off_refl name w : same_files_off name w w.
Proof. by intros other _. Qed.

Lemma same_files_off_eq name w w1 : files w1 = files w → same_files_off name w w1.
Proof. intros E other _. by rewrite E. Qed.

Lemma same_files_off_trans name w w1 w2 :
  same_files_off name w w1 → same_files_off name w1 w2 → same_files_off name w w2.
Proof. intros H1 H2 other Ho. by rewrite H2, H1. Qed.

Lemma appendEmptyBlock_frame name h w :
  open_on name h →
  open_on name (appendEmptyBlock h w).1.2
  ∧ same_files_off name w (appendEmptyBlock h w).2.
Proof.
  intros (ctx & Hc & Hn). unfold appendEmptyBlock. rewrite Hc.
  pose proof (fseek_end_spec (fp ctx) w) as (Hf1 & Hn1).
  destruct (fseek_end _ _) as [[ok s] w1]. simpl in *.
  destruct ok; simpl.
  2:{ split; [eexists; split; [done|]; simpl; congruence|by apply same_files_off_eq]. }
  pose proof (calloc_spec PAGE_SIZE_BYTES w1) as (Hf2 & _).
  destruct (calloc _ _) as [[zb|] w2]; simpl in *.
  2:{ split; [eexists; split; [done|]; simpl; congruence|].
      apply same_files_off_eq. congruence. }
  pose proof (fwrite_spec zb PAGE_SIZE_BYTES s w2) as (Hn3 & Hf3 & _).
  destruct (fwrite _ _ _ _) as [[written s1] w3]. simpl in *.
  assert (same_files_off name w w3) as Hoff.
  { apply (same_files_off_trans name w w2); [apply same_files_off_eq; congruence|].
    by rewrite Hn1, Hn in Hf3. }
  destruct (_ <? _)%nat; simpl; (split; [|done]); eexists; (split; [done|]); simpl;
    unfold fflush; congruence.
Qed.

Lemma ensureCapacity_loop_frame name fuel n h w r :
  open_on name h → ensureCapacity_loop fuel n h w = Some r →
  open_on name r.1.2 ∧ same_files_off name w r.2.
Proof.
  revert h w. induction fuel as [|fuel IH]; intros h w Ho; simpl.
  - destruct (_ <? _); [done|]. intros [= <-]. split; [done|apply same_files_off_refl].
  - destruct (_ <? _); [|intros [= <-]; split; [done|apply same_files_off_refl]].
    pose proof (appendEmptyBlock_frame name h w Ho) as (Ho1 & Hf1).
    destruct (appendEmptyBlock h w) as [[rc h1] w1]. simpl in *.
    case_bool_decide.
    + intros Hr. destruct (IH h1 w1 Ho1 Hr) as (Ho2 & Hf2).
      split; [done|]. by apply (same_files_off_trans name w w1).
    + by intros [= <-].
Qed.

Lemma ensureCapacity_frame name n h w :
  open_on name h →
  open_on name (ensureCapacity n h w).1.2
  ∧ same_files_off name w (ensureCapacity n h w).2.
Proof.
  intros Ho. pose proof Ho as (ctx & Hc & Hn). unfold ensureCapacity. rewrite Hc.
  destruct (_ <? _); [split; [done|apply same_files_off_refl]|].
  destruct (ensureCapacity_loop _ _ _ _) as [r|] eqn:Hl; simpl.
  - by apply (ensureCapacity_loop_frame name _ _ _ _ r Ho Hl).
  - split; [done|apply same_files_off_refl].
Qed.

(** Whatever the faults, [readBlock] writes to no file, keeps the page
    count, and moves the page cursor exactly when it returns [RC_OK]. *)
Lemma readBlock_frame p h memPage w :
  let r := readBlock p h memPage w in
  files r.2 = files w
  ∧ totalNumPages r.1.1.2 = totalNumPages h
  ∧ curPagePos r.1.1.2 = (if bool_decide (r.1.1.1 = RC_OK) then p else curPagePos h)
  ∧ (∀ name, open_on name h → open_on name r.1.1.2).
Proof.
  unfold readBlock. destruct (mgmtInfo h) as [ctx|] eqn:Hc; [|done].
  destruct (_ || _); [done|].
  assert (open_on (f_name (fp ctx)) h) as Ho by (by exists ctx).
  pose proof (seekToPageNum_frame _ p h w Ho) as (Ho1 & Hf1 & Ht1 & Hp1 & _).
  destruct (seekToPageNum p h w) as [[rcS h1] w1]. simpl in *.
  assert (∀ name, open_on name h → open_on name h1) as Hon.
  { intros name (ctx' & Hc' & Hn'). assert (ctx' = ctx) as -> by congruence.
    by rewrite <- Hn'. }
  case_bool_decide; simpl; [|done].
  destruct Ho1 as (ctx1 & Hc1 & Hn1). rewrite Hc1.
  pose proof (fread_spec PAGE_SIZE_BYTES (fp ctx1) w1) as (Hf2 & Hn2).
  destruct (fread _ _ _) as [[got s] w2]. simpl in *.
  assert (∀ name, open_on name h → ∃ c, Some (set_fp s ctx1) = Some c
                                       ∧ f_name (fp c) = name) as Hon2.
  { intros name (ctx' & Hc' & Hn'). assert (ctx' = ctx) as -> by congruence.
    eexists. split; [done|]. simpl. congruence. }
  destruct (_ <? _)%nat; simpl; split_and!; try done; congruence.
Qed.

Lemma writeBlock_frame name p h memPage w :
  open_on name h →
  open_on name (writeBlock p h memPage w).1.2
  ∧ same_files_off name w (writeBlock p h memPage w).2.
Proof.
  intros Ho. pose proof Ho as (ctx & Hc & Hn). unfold writeBlock. rewrite Hc.
  destruct (_ <? _); [split; [done|apply same_files_off_refl]|].
  assert (∃ rc0 h0 w0, (if totalNumPages h <=? p then ensureCapacity (p + 1) h w
                        else (RC_OK, h, w)) = (rc0, h0, w0)
            ∧ open_on name h0 ∧ same_files_off name w w0)
    as (rc0 & h0 & w0 & -> & Ho0 & Hf0).
  { destruct (_ <=? _).
    - pose proof (ensureCapacity_frame name (p + 1) h w Ho) as [? ?].
      destruct (ensureCapacity _ _ _) as [[rc0 h0] w0]. by exists rc0, h0, w0.
    - exists RC_OK, h, w. split_and!; [done..|apply same_files_off_refl]. }
  case_bool_decide; simpl; [|done].
  pose proof (seekToPageNum_frame name p h0 w0 Ho0) as (Ho1 & Hf1 & _).
  destruct (seekToPageNum p h0 w0) as [[rcS h1] w1]. simpl in *.
  assert (same_files_off name w w1) as Hoff1.
  { apply (same_files_off_trans name w w0); [done|by apply same_files_off_eq]. }
  case_bool_decide; simpl; [|done].
  destruct Ho1 as (ctx1 & Hc1 & Hn1). rewrite Hc1.
  pose proof (fwrite_spec memPage PAGE_SIZE_BYTES (fp ctx1) w1) as (Hn2 & Hf2 & _).
  destruct (fwrite _ _ _ _) as [[written s] w2]. simpl in *.
  rewrite Hn1 in Hf2.
  assert (same_files_off name w w2) as Hoff2
    by (by apply (same_files_off_trans name w w1)).
  destruct (_ <? _)%nat; simpl; (split; [|done]); eexists; (split; [done|]); simpl;
    unfold fflush; congruence.
Qed.

(** A write that returns [RC_OK] has stored the page, whatever the fault
    script and whatever the state of the handle before the call. *)
Lemma writeBlock_ok_stored name p h memPage w h1 w1 :
  open_on name h → (PAGE_SIZE ≤ length memPage)%nat →
  writeBlock p h memPage w = (RC_OK, h1, w1) →
  0 ≤ p ∧ curPagePos h1 = p
  ∧ page_of (file_bytes w1 name) (Z.to_nat p) = take PAGE_SIZE memPage.
Proof.
  intros Ho Hlen. pose proof Ho as (ctx & Hc & Hn). unfold writeBlock. rewrite Hc.
  destruct (Z.ltb_spec p 0); [done|].
  assert (∃ rc0 h0 w0, (if totalNumPages h <=? p then ensureCapacity (p + 1) h w
                        else (RC_OK, h, w)) = (rc0, h0, w0) ∧ open_on name h0)
    as (rc0 & h0 & w0 & -> & Ho0).
  { destruct (_ <=? _).
    - pose proof (ensureCapacity_frame name (p + 1) h w Ho) as [? ?].
      destruct (ensureCapacity _ _ _) as [[rc0 h0] w0]. by exists rc0, h0, w0.
    - by exists RC_OK, h, w. }
  case_bool_decide; simpl; [|done].
  pose proof (seekToPageNum_frame name p h0 w0 Ho0) as (Ho1 & _ & _ & _ & Hpos).
  destruct (seekToPageNum p h0 w0) as [[rcS h2] w2]. simpl in *.
  case_bool_decide as HrcS; simpl; [|done].
  destruct (Hpos HrcS) as (_ & ctx2 & Hc2 & Hp2).
  destruct Ho1 as (ctx2' & Hc2' & Hn2). assert (ctx2' = ctx2) as -> by congruence.
  rewrite Hc2.
  pose proof (fwrite_spec memPage PAGE_SIZE_BYTES (fp ctx2) w2) as (_ & _ & Hst).
  destruct (fwrite _ _ _ _) as [[written s] w3]. simpl in *.
  destruct (Nat.ltb_spec written PAGE_SIZE_BYTES); [done|].
  intros [= <- <-]. split; [done|]. split; [done|].
  unfold file_bytes at 1. rewrite <- Hn2, Hst by done. simpl. rewrite Hp2.
  apply page_of_write_at_same. rewrite length_take. unfold PAGE_SIZE_BYTES. lia.
Qed.

(** *** The page file without faults, continued *)

Lemma handle_on_open name c h w : handle_on name c h w → open_on name h.
Proof. intros (_ & _ & _ & _ & ctx & Hc & Hn & _). by exists ctx. Qed.

Lemma writeBlock_ok name c h w p buf :
  handle_on name c h w → 0 ≤ p → length buf = PAGE_SIZE →
  ∃ h1 w1, writeBlock p h buf w = (RC_OK, h1, w1)
    ∧ handle_on name
        (write_at
           (c ++ replicate (Z.to_nat (p + 1 - totalNumPages h) * PAGE_SIZE) zero_byte)
           (Z.to_nat p * PAGE_SIZE) buf) h1 w1
    ∧ totalNumPages h1 = Z.max (p + 1) (totalNumPages h)
    ∧ curPagePos h1 = p
    ∧ junk_byte w1 = junk_byte w.
Proof.
  intros Hh Hp Hbuf.
  set (cg := c ++ replicate (Z.to_nat (p + 1 - totalNumPages h) * PAGE_SIZE) zero_byte).
  assert (∃ h0 w0, (if totalNumPages h <=? p then ensureCapacity (p + 1) h w
                    else (RC_OK, h, w)) = (RC_OK, h0, w0)
            ∧ handle_on name cg h0 w0
            ∧ totalNumPages h0 = Z.max (p + 1) (totalNumPages h)
            ∧ junk_byte w0 = junk_byte w)
    as (h0 & w0 & Hgrow & Hh0 & Ht0 & Hj0).
  { destruct (Z.leb_spec (totalNumPages h) p) as [Hle|Hgt].
    - destruct (ensureCapacity_ok name (p + 1) c h w Hh) as (h0 & w0 & -> & ? & ? & ?);
        [lia|].
      by exists h0, w0.
    - exists h, w. split_and!; try done; [|lia].
      unfold cg. replace (Z.to_nat (p + 1 - totalNumPages h)) with 0%nat by lia.
      simpl. by rewrite app_nil_r. }
  pose proof Hh as (_ & _ & _ & _ & ctx & Hc & _).
  destruct Hh0 as (Hq & Hfile & Hpos & Hlen & ctx0 & Hc0 & Hn0 & Hp0).
  unfold writeBlock. rewrite Hc, (proj2 (Z.ltb_ge p 0)), Hgrow by lia. simpl.
  unfold seekToPageNum, fseek_set, fwrite, PAGE_SIZE_BYTES, file_bytes, fflush.
  rewrite Hc0.
  rewrite (proj2 (Z.ltb_ge p 0)) by lia.
  rewrite (proj2 (Z.leb_gt (totalNumPages h0) p)) by lia. simpl.
  rewrite (next_fault_quiet w0 Hq).
  rewrite (proj2 (Z.ltb_ge (p * Z.of_nat PAGE_SIZE) 0)) by lia. simpl.
  rewrite (next_fault_quiet w0 Hq). simpl. rewrite Hn0, Hfile. simpl.
  replace (Z.to_nat (p * Z.of_nat PAGE_SIZE)) with (Z.to_nat p * PAGE_SIZE)%nat by lia.
  rewrite (take_ge buf PAGE_SIZE) by lia. rewrite Hbuf, Nat.ltb_irrefl.
  destruct (write_at_inside cg buf (Z.to_nat p * PAGE_SIZE)) as [_ Hwl].
  { rewrite Hlen, Hbuf. assert (Z.to_nat p < Z.to_nat (totalNumPages h0))%nat by lia.
    nia. }
  do 2 eexists. split; [done|]. split; [|by split_and!].
  unfold handle_on. simpl.
  refine (conj Hq (conj _ (conj Hpos (conj _ _)))).
  - by rewrite lookup_insert_eq.
  - by rewrite Hwl.
  - eexists. by split_and!.
Qed.

(** ** The storage manager as its clients see it *)

Lemma createPageFile_ok name w :
  faults w = [] →
  createPageFile name w
  = (RC_OK, set_files (<[name := replicate PAGE_SIZE zero_byte]> (files w)) w).
Proof.
  intros Hq. unfold createPageFile, fopen_wb, calloc, fwrite, fclose, fflush,
    PAGE_SIZE_BYTES, file_bytes.
  rewrite (next_fault_quiet w Hq). simpl.
  rewrite next_fault_quiet by done. simpl.
  rewrite next_fault_quiet by done. simpl.
  rewrite lookup_insert_eq. simpl.
  rewrite take_replicate, Nat.min_id, length_replicate, Nat.ltb_irrefl.
  rewrite next_fault_quiet by done. simpl.
  unfold set_files. simpl. rewrite insert_insert_eq.
  unfold write_at. simpl. by rewrite drop_nil, app_nil_r.
Qed.

Lemma openPageFile_quiet name c h0 w :
  faults w = [] → files w !! name = Some c →
  openPageFile name h0 w
  = (RC_OK,
     mkFileHandle (Some name) (Z.of_nat (length c) ÷ Z.of_nat PAGE_SIZE) 0
       (Some (mkFileContext (mkFILE name 0) name
                (Z.of_nat (length c) ÷ Z.of_nat PAGE_SIZE))),
     w).
Proof.
  intros Hq Hfile.
  unfold openPageFile, fopen_rbplus, fseek_end, ftell, malloc_checked,
    allocateFileContext, malloc_checked, fseek_set, PAGE_SIZE_BYTES, file_bytes.
  rewrite (next_fault_quiet w Hq), Hfile. simpl.
  rewrite (next_fault_quiet w Hq). simpl. rewrite (next_fault_quiet w Hq), Hfile. simpl.
  rewrite (proj2 (Z.ltb_ge (Z.of_nat (length c)) 0)) by lia.
  rewrite (next_fault_quiet w Hq). simpl. rewrite (next_fault_quiet w Hq). simpl.
  by rewrite (next_fault_quiet w Hq).
Qed.

Lemma quot_pages (c : list byte) :
  (0 < PAGE_SIZE)%nat →
  Z.of_nat (length c) ÷ Z.of_nat PAGE_SIZE = Z.of_nat (length c / PAGE_SIZE).
Proof. intros Hps. rewrite Z.quot_div_nonneg, Nat2Z.inj_div; lia. Qed.

(** X1. Opening an existing file, no fault pending: the handle is filled in
    whatever it held, the page count is the file length divided by the page
    size (a trailing partial page is not counted), the cursor is on page 0
    and the stream at offset 0; the world does not change. *)
Theorem openPageFile_existing_file (name : string) (c : list byte)
    (h0 : SM_FileHandle) (w : World) :
  (0 < PAGE_SIZE)%nat →
  faults w = [] →
  files w !! name = Some c →
  ∃ h ctx,
    openPageFile name h0 w = (RC_OK, h, w)
    ∧ fileName h = Some name
    ∧ totalNumPages h = Z.of_nat (length c / PAGE_SIZE)
    ∧ getBlockPos h = 0
    ∧ mgmtInfo h = Some ctx
    ∧ fp ctx = mkFILE name 0
    ∧ pages ctx = totalNumPages h.
Proof.
  intros Hps Hq Hfile. rewrite (openPageFile_quiet name c h0 w Hq Hfile).
  do 2 eexists. split; [done|]. simpl. rewrite quot_pages by done. by split_and!.
Qed.

Lemma openPageFile_frame name h0 w :
  let r := openPageFile name h0 w in
  files r.2 = files w
  ∧ (r.1.1 ≠ RC_OK → r.1.2 = h0)
  ∧ (files w !! name = None → r.1.1 = RC_FILE_NOT_FOUND).
Proof.
  unfold openPageFile, fopen_rbplus.
  pose proof (next_fault_files w) as Hf0.
  destruct (next_fault w) as [f0 w0]. simpl in Hf0. rewrite Hf0.
  destruct f0 as [k|]; [done|].
  destruct (files w !! name) as [c|] eqn:Hfile; [|done].
  pose proof (fseek_end_spec (mkFILE name 0) w0) as [Hf1 _].
  destruct (fseek_end _ _) as [[ok s1] w1]. simpl in Hf1.
  destruct ok; simpl.
  2:{ pose proof (fclose_spec s1 w1) as Hf. destruct (fclose s1 w1). simpl in *.
      split_and!; [congruence|done|done]. }
  unfold ftell. pose proof (next_fault_files w1) as Hf2.
  destruct (next_fault w1) as [f2 w2]. simpl in Hf2.
  assert (files w2 = files w) as Hw2 by congruence.
  clear Hf0 Hf1 Hf2.
  assert (∀ z, let r := (let '(fileSizeBytes, w3) := (z, w2) in
                if fileSizeBytes <? 0
                then let '(_, w4) := fclose s1 w3 in (RC_READ_NON_EXISTING_PAGE, h0, w4)
                else
                  let totalPages := fileSizeBytes ÷ Z.of_nat PAGE_SIZE_BYTES in
                  let '(okName, w4) := malloc_checked w3 in
                  if negb okName
                  then let '(_, w5) := fclose s1 w4 in (RC_FILE_HANDLE_NOT_INIT, h0, w5)
                  else
                    match allocateFileContext name s1 totalPages w4 with
                    | (Some ctx, w5) =>
                      let '(_, s2, w6) := fseek_set 0 (fp ctx) w5 in
                      (RC_OK, mkFileHandle (Some name) totalPages 0
                                (Some (set_fp s2 ctx)), w6)
                    | (None, w5) =>
                      let '(_, w6) := fclose s1 w5 in (RC_FILE_HANDLE_NOT_INIT, h0, w6)
                    end) in
            files r.2 = files w ∧ (r.1.1 ≠ RC_OK → r.1.2 = h0)) as Hrest.
  { intros z. simpl. destruct (z <? 0).
    { pose proof (fclose_spec s1 w2) as Hf. destruct (fclose s1 w2). simpl in *.
      split; [congruence|done]. }
    unfold malloc_checked, allocateFileContext, malloc_checked.
    pose proof (next_fault_files w2) as Hf3.
    destruct (next_fault w2) as [f3 w3]. simpl in Hf3.
    destruct f3 as [k3|]; simpl.
    { pose proof (fclose_spec s1 w3) as Hf. destruct (fclose s1 w3). simpl in *.
      split; [congruence|done]. }
    pose proof (next_fault_files w3) as Hf4.
    destruct (next_fault w3) as [f4 w4]. simpl in Hf4.
    destruct f4 as [k4|]; simpl.
    { pose proof (fclose_spec s1 w4) as Hf. destruct (fclose s1 w4). simpl in *.
      split; [congruence|done]. }
    pose proof (fseek_set_spec 0 s1 w4) as [Hf5 _].
    destruct (fseek_set 0 s1 w4) as [[ok5 s5] w5]. simpl in *.
    split; [congruence|done]. }
  destruct f2 as [k2|]; simpl.
  - destruct (Hrest (-1)) as (H1 & H2). simpl in H1, H2. by split_and!.
  - destruct (Hrest (Z.of_nat (f_pos s1))) as (H1 & H2). simpl in H1, H2.
    by split_and!.
Qed.


(** The three ways a case of the script analysis below ends. *)
Local Ltac script_not_found :=
  left; split; [reflexivity|]; solve [left; eexists; reflexivity | by right].

Local Ltac script_failed :=
  right; left; split; [solve [by left | by right]|];
  split; [by eexists|]; split; [intros [? Hk]; simpl in Hk; discriminate|];
  solve [ exists 1%nat; split; [lia|]; eexists; reflexivity
        | exists 2%nat; split; [lia|]; eexists; reflexivity
        | exists 3%nat; split; [lia|]; eexists; reflexivity
        | exists 4%nat; split; [lia|]; eexists; reflexivity ].

Local Ltac script_ok :=
  right; right; split; [reflexivity|]; split; [by eexists|];
  intros i Hi [? Hk]; destruct i as [|[|[|[|[|i]]]]]; simpl in Hk;
  solve [discriminate | lia].

Local Ltac script_size :=
  repeat match goal with
  | |- context [Z.of_nat ?n <? 0] => rewrite (proj2 (Z.ltb_ge (Z.of_nat n) 0)) by lia
  end; simpl.

(** The code [openPageFile] returns, read off the fault script: the calls
    are [fopen], [fseek], [ftell], the two [malloc]s, in this order. *)
Lemma openPageFile_code name h0 w :
  let rc := (openPageFile name h0 w).1.1 in
  (rc = RC_FILE_NOT_FOUND ∧ (fails_at w 0 ∨ files w !! name = None))
  ∨ ((rc = RC_READ_NON_EXISTING_PAGE ∨ rc = RC_FILE_HANDLE_NOT_INIT)
     ∧ is_Some (files w !! name) ∧ ¬ fails_at w 0
     ∧ ∃ i, (1 ≤ i ≤ 4)%nat ∧ fails_at w i)
  ∨ (rc = RC_OK ∧ is_Some (files w !! name)
     ∧ ∀ i, (i ≤ 4)%nat → ¬ fails_at w i).
Proof.
  destruct w as [fs l jb ji].
  unfold openPageFile, fopen_rbplus, fseek_end, ftell, malloc_checked,
    allocateFileContext, malloc_checked, fseek_set, fclose, next_fault, set_faults,
    fails_at, file_bytes.
  simpl.
  (* fopen *)
  destruct l as [|[k0|] l]; simpl; [|script_not_found|].
  { destruct (fs !! name) as [c|] eqn:Hc; simpl; [|script_not_found].
    script_size. script_ok. }
  destruct (fs !! name) as [c|] eqn:Hc; simpl; [|script_not_found].
  (* fseek *)
  destruct l as [|[k1|] l]; simpl.
  { script_size. script_ok. }
  { destruct l as [|[?|] l]; simpl; script_failed. }
  (* ftell *)
  destruct l as [|[k2|] l]; simpl.
  { script_size. script_ok. }
  { destruct l as [|[?|] l]; simpl; script_failed. }
  script_size.
  (* malloc of the name *)
  destruct l as [|[k3|] l]; simpl.
  { script_ok. }
  { destruct l as [|[?|] l]; simpl; script_failed. }
  (* malloc of the context *)
  destruct l as [|[k4|] l]; simpl.
  { script_ok. }
  { destruct l as [|[?|] l]; simpl; script_failed. }
  (* the rewind, unchecked *)
  destruct l as [|[?|] l]; simpl; script_ok.
Qed.

(** X2. [openPageFile] writes to no file, whatever the faults; when it does
    not return [RC_OK] the caller's handle is as before; it returns
    [RC_FILE_NOT_FOUND] exactly when the file does not exist or [fopen]
    fails, [RC_OK] exactly when the file exists and none of its five checked
    library calls ([fopen], [fseek], [ftell], two [malloc]s) fails, and
    otherwise [RC_READ_NON_EXISTING_PAGE] or [RC_FILE_HANDLE_NOT_INIT]. *)
Theorem openPageFile_failure_keeps_handle (name : string) (h0 : SM_FileHandle)
    (w : World) :
  let r := openPageFile name h0 w in
  files r.2 = files w
  ∧ (r.1.1 ≠ RC_OK → r.1.2 = h0)
  ∧ (r.1.1 = RC_FILE_NOT_FOUND ↔ fails_at w 0 ∨ files w !! name = None)
  ∧ (r.1.1 = RC_OK ↔
     is_Some (files w !! name) ∧ ∀ i, (i ≤ 4)%nat → ¬ fails_at w i)
  ∧ (r.1.1 = RC_READ_NON_EXISTING_PAGE ∨ r.1.1 = RC_FILE_HANDLE_NOT_INIT ↔
     is_Some (files w !! name) ∧ ¬ fails_at w 0
     ∧ ∃ i, (1 ≤ i ≤ 4)%nat ∧ fails_at w i).
Proof.
  intros r. destruct (openPageFile_frame name h0 w) as (Hf & Hh & _).
  split; [exact Hf|]. split; [exact Hh|].
  assert (∀ i, (1 ≤ i ≤ 4)%nat → fails_at w i →
            ¬ ∀ j, (j ≤ 4)%nat → ¬ fails_at w j) as Hno.
  { intros i Hi Hfail Hall. apply (Hall i); [lia|done]. }
  assert (is_Some (files w !! name) → files w !! name ≠ None) as Hsome.
  { intros [c ->]. done. }
  destruct (openPageFile_code name h0 w)
    as [(Hrc & Hwhy)|[(Hrc & Hex & Hn0 & i & Hi & Hfail)|(Hrc & Hex & Hall)]];
    fold r in Hrc.
  - refine (conj _ (conj _ _)).
    + split; intros _; [exact Hwhy|exact Hrc].
    + split; [intros E; congruence|]. intros [Hex Hall].
      destruct Hwhy as [H0|Hmiss]; [|by apply Hsome in Hex].
      by destruct (Hall 0%nat ltac:(lia)).
    + split; [intros [E|E]; congruence|]. intros (Hex & Hn0 & _).
      destruct Hwhy as [H0|Hmiss]; [done|by apply Hsome in Hex].
  - refine (conj _ (conj _ _)).
    + split; [destruct Hrc; congruence|].
      intros [H0|Hmiss]; [done|by apply Hsome in Hex].
    + split; [destruct Hrc; congruence|]. intros [_ Hall].
      by destruct (Hno i Hi Hfail).
    + split; intros _; [|exact Hrc]. split; [done|]. split; [done|]. by exists i.
  - refine (conj _ (conj _ _)).
    + split; [congruence|]. intros [H0|Hmiss]; [|by apply Hsome in Hex].
      by destruct (Hall 0%nat ltac:(lia)).
    + split; intros _; [by split|exact Hrc].
    + split; [intros [E|E]; congruence|]. intros (_ & _ & i & Hi & Hfail).
      by destruct (Hno i Hi Hfail).
Qed.

(** X3. A file just created, no fault pending, opens with one page, the
    cursor on page 0, and its first block reads as zeros; no other file
    is touched. *)
Theorem createPageFile_open_read_round_trip (name : string) (w : World)
    (memPage : list byte) :
  (0 < PAGE_SIZE)%nat →
  faults w = [] →
  ∃ w1 h h1,
    createPageFile name w = (RC_OK, w1)
    ∧ same_files_off name w w1
    ∧ openPageFile name blank_handle w1 = (RC_OK, h, w1)
    ∧ totalNumPages h = 1
    ∧ getBlockPos h = 0
    ∧ readFirstBlock h memPage w1
      = (RC_OK, h1, replicate PAGE_SIZE zero_byte ++ drop PAGE_SIZE memPage, w1).
Proof.
  intros Hps Hq. rewrite createPageFile_ok by done.
  set (w1 := set_files _ w).
  assert (faults w1 = []) as Hq1 by done.
  assert (files w1 !! name = Some (replicate PAGE_SIZE zero_byte)) as Hf1
    by (simpl; by rewrite lookup_insert_eq).
  destruct (openPageFile_ok name (replicate PAGE_SIZE zero_byte) 1 w1 Hq1 Hf1 Hps)
    as (h & Hopen & Hh & Ht); [rewrite length_replicate; lia|].
  destruct (readBlock_ok_pos name _ h w1 0 memPage Hh) as (h1 & Hread & _); [lia|].
  exists w1, h, h1. split_and!; try done.
  - intros other Ho. simpl. by rewrite lookup_insert_ne.
  - unfold openPageFile in Hopen. unfold getBlockPos.
    destruct (fopen_rbplus _ _) as [[s|] ?]; [|done].
    destruct (fseek_end _ _) as [[[] ?] ?]; simpl in Hopen;
      [|by destruct (fclose _ _)].
    destruct (ftell _ _) as [z ?]. destruct (z <? 0); [by destruct (fclose _ _)|].
    destruct (malloc_checked _) as [[] ?]; simpl in Hopen; [|by destruct (fclose _ _)].
    destruct (allocateFileContext _ _ _ _) as [[ctx|] ?]; [|by destruct (fclose _ _)].
    destruct (fseek_set _ _ _) as [[? ?] ?]. by injection Hopen as <- _.
  - unfold readFirstBlock. rewrite Hread. do 3 f_equal.
    rewrite page_of_replicate; [done|lia].
Qed.

(** X4. Write then read, no fault pending: [writeBlock] on any page number
    [p >= 0] returns [RC_OK], grows the file to [p + 1] pages when it was
    shorter, and touches no other file; reading page [p] back yields the
    bytes written, every other old page reads as before, and the pages
    added in between read as zeros. *)
Theorem writeBlock_readBlock_round_trip (name : string) (c : list byte)
    (h : SM_FileHandle) (w : World) (p : Z) (buf memPage : list byte) :
  handle_on name c h w →
  0 ≤ p →
  length buf = PAGE_SIZE →
  ∃ h1 w1 h2,
    writeBlock p h buf w = (RC_OK, h1, w1)
    ∧ totalNumPages h1 = Z.max (p + 1) (totalNumPages h)
    ∧ same_files_off name w w1
    ∧ readBlock p h1 memPage w1 = (RC_OK, h2, buf ++ drop PAGE_SIZE memPage, w1)
    ∧ ∀ q, 0 ≤ q < totalNumPages h1 → q ≠ p →
        ∃ h3, readBlock q h1 memPage w1
              = (RC_OK, h3,
                 (if q <? totalNumPages h then page_of c (Z.to_nat q)
                  else replicate PAGE_SIZE zero_byte) ++ drop PAGE_SIZE memPage,
                 w1).
Proof.
  intros Hh Hp Hbuf.
  destruct (writeBlock_ok name c h w p buf Hh Hp Hbuf)
    as (h1 & w1 & Hw & Hh1 & Ht1 & Hc1 & _).
  pose proof (writeBlock_frame name p h buf w (handle_on_open _ _ _ _ Hh)) as [_ Hoff].
  rewrite Hw in Hoff. simpl in Hoff.
  pose proof Hh as (_ & _ & Hpos & Hlen & _).
  set (cg := c ++ replicate (Z.to_nat (p + 1 - totalNumPages h) * PAGE_SIZE) zero_byte)
    in *.
  assert (length cg = (Z.to_nat (totalNumPages h1) * PAGE_SIZE)%nat) as Hlg.
  { unfold cg. rewrite length_app, length_replicate, Hlen, Ht1. nia. }
  assert (∀ q, 0 ≤ q < totalNumPages h1 →
            page_of (write_at cg (Z.to_nat p * PAGE_SIZE) buf) (Z.to_nat q)
            = if decide (Z.to_nat q = Z.to_nat p) then buf
              else page_of cg (Z.to_nat q)) as Hpage.
  { intros q Hq. apply page_of_write_at; [|done]. rewrite Hlg.
    assert (Z.to_nat p < Z.to_nat (totalNumPages h1))%nat by lia. nia. }
  destruct (readBlock_ok_pos name _ h1 w1 p memPage Hh1) as (h2 & Hr & _); [lia|].
  exists h1, w1, h2. split_and!; try done.
  - rewrite Hr, Hpage by lia. by rewrite decide_True by done.
  - intros q Hq Hne.
    destruct (readBlock_ok_pos name _ h1 w1 q memPage Hh1) as (h3 & Hr3 & _); [lia|].
    exists h3. rewrite Hr3, Hpage by lia. rewrite decide_False by lia.
    do 3 f_equal. unfold cg. destruct (Z.ltb_spec q (totalNumPages h)).
    + apply page_of_app_l. rewrite Hlen.
      assert (Z.to_nat q < Z.to_nat (totalNumPages h))%nat by lia. nia.
    + rewrite (page_of_app_r _ _ (Z.to_nat (totalNumPages h))) by (done || lia).
      apply page_of_replicate.
      assert (Z.to_nat q < Z.to_nat (p + 1))%nat by lia. nia.
Qed.

Lemma appendEmptyBlock_codes name h w :
  open_on name h →
  (appendEmptyBlock h w).1.1 = RC_OK ∨ (appendEmptyBlock h w).1.1 = RC_WRITE_FAILED.
Proof.
  intros (ctx & Hc & _). unfold appendEmptyBlock. rewrite Hc.
  destruct (fseek_end _ _) as [[[] s] w1]; simpl; [|by right].
  destruct (calloc _ _) as [[zb|] w2]; [|by right].
  destruct (fwrite _ _ _ _) as [[written s1] w3].
  destruct (_ <? _)%nat; simpl; [by right|by left].
Qed.

Lemma ensureCapacity_loop_codes name fuel n h w r :
  open_on name h → ensureCapacity_loop fuel n h w = Some r →
  (r.1.1 = RC_OK ∧ n ≤ totalNumPages r.1.2) ∨ r.1.1 = RC_WRITE_FAILED.
Proof.
  revert h w. induction fuel as [|fuel IH]; intros h w Ho; simpl.
  - destruct (Z.ltb_spec (totalNumPages h) n); [done|]. intros [= <-]. by left.
  - destruct (Z.ltb_spec (totalNumPages h) n); [|intros [= <-]; by left].
    pose proof (appendEmptyBlock_frame name h w Ho) as (Ho1 & _).
    pose proof (appendEmptyBlock_codes name h w Ho) as Hcodes.
    destruct (appendEmptyBlock h w) as [[rc h1] w1]. simpl in *.
    case_bool_decide.
    + by apply IH.
    + intros [= <-]. simpl. destruct Hcodes; [done|by right].
Qed.

(** X6. [ensureCapacity] under any fault script, on an open handle: it returns
    [RC_OK] or [RC_WRITE_FAILED] and writes to no other file; [RC_OK] means
    that the handle counts at least the pages asked for, and asking again
    does nothing; a handle that already has the pages is returned as it is,
    without a single library call. *)
Theorem ensureCapacity_under_faults (name : string) (n : Z) (h : SM_FileHandle)
    (w : World) :
  open_on name h →
  let r := ensureCapacity n h w in
  (r.1.1 = RC_OK ∨ r.1.1 = RC_WRITE_FAILED)
  ∧ same_files_off name w r.2
  ∧ (r.1.1 = RC_OK → 0 ≤ n ≤ totalNumPages r.1.2 ∧ ensureCapacity n r.1.2 r.2 = r)
  ∧ (0 ≤ n ≤ totalNumPages h → r = (RC_OK, h, w)).
Proof.
  intros Ho r.
  assert (∀ h' w', open_on name h' → 0 ≤ n ≤ totalNumPages h' →
            ensureCapacity n h' w' = (RC_OK, h', w')) as Hnoop.
  { intros h' w' (ctx' & Hc' & _) Hn. unfold ensureCapacity, ensureCapacity_fuel.
    rewrite Hc', (proj2 (Z.ltb_ge n 0)) by lia. simpl.
    by rewrite (proj2 (Z.ltb_ge (totalNumPages h') n)) by lia. }
  pose proof (ensureCapacity_frame name n h w Ho) as [Ho1 Hoff].
  fold r in Ho1, Hoff.
  assert ((r.1.1 = RC_OK ∧ 0 ≤ n ≤ totalNumPages r.1.2) ∨ r.1.1 = RC_WRITE_FAILED)
    as Hcodes.
  { subst r. pose proof Ho as (ctx & Hc & _). unfold ensureCapacity. rewrite Hc.
    destruct (Z.ltb_spec n 0); [by right|].
    destruct (ensureCapacity_fuel_enough n h w) as [r Hr]; [by rewrite Hc|].
    rewrite Hr. simpl.
    destruct (ensureCapacity_loop_codes name _ n h w r Ho Hr) as [[? ?]|?];
      [left; split; [done|lia]|by right]. }
  split_and!; [tauto|done| |by apply Hnoop].
  intros Hok. destruct Hcodes as [[_ Hn]|E]; [|congruence].
  split; [done|]. rewrite (Hnoop r.1.2 r.2 Ho1 Hn). clearbody r.
  destruct r as [[rc h1] w1]. simpl in Hok. by subst rc.
Qed.

Lemma writeBlock_codes name p h memPage w :
  open_on name h →
  (writeBlock p h memPage w).1.1 = RC_OK
  ∨ (writeBlock p h memPage w).1.1 = RC_WRITE_FAILED.
Proof.
  intros Ho. pose proof Ho as (ctx & Hc & Hn). unfold writeBlock. rewrite Hc.
  destruct (_ <? _); [by right|].
  assert (∃ rc0 h0 w0, (if totalNumPages h <=? p then ensureCapacity (p + 1) h w
                        else (RC_OK, h, w)) = (rc0, h0, w0) ∧ open_on name h0)
    as (rc0 & h0 & w0 & -> & Ho0).
  { destruct (_ <=? _).
    - pose proof (ensureCapacity_frame name (p + 1) h w Ho) as [? ?].
      destruct (ensureCapacity _ _ _) as [[rc0 h0] w0]. by exists rc0, h0, w0.
    - by exists RC_OK, h, w. }
  case_bool_decide; simpl; [|by right].
  pose proof (seekToPageNum_frame name p h0 w0 Ho0) as ((ctx1 & Hc1 & _) & _).
  destruct (seekToPageNum p h0 w0) as [[rcS h1] w1]. simpl in *.
  case_bool_decide; simpl; [|by right]. rewrite Hc1.
  destruct (fwrite _ _ _ _) as [[written s] w2].
  destruct (_ <? _)%nat; simpl; [by right|by left].
Qed.

(** X5. [writeBlock] under any fault script, on an open handle: it returns
    [RC_OK] or [RC_WRITE_FAILED] and writes to no other file; [RC_OK] can be
    trusted: the file then holds the bytes of the buffer as its page
    [pageNum], and the cursor is on that page. *)
Theorem writeBlock_under_faults (name : string) (p : Z) (h : SM_FileHandle)
    (buf : list byte) (w : World) :
  open_on name h →
  (PAGE_SIZE ≤ length buf)%nat →
  let r := writeBlock p h buf w in
  (r.1.1 = RC_OK ∨ r.1.1 = RC_WRITE_FAILED)
  ∧ same_files_off name w r.2
  ∧ (r.1.1 = RC_OK →
     0 ≤ p
     ∧ page_of (file_bytes r.2 name) (Z.to_nat p) = take PAGE_SIZE buf
     ∧ getBlockPos r.1.2 = p).
Proof.
  intros Ho Hlen r. split_and!.
  - by apply (writeBlock_codes name).
  - by apply writeBlock_frame.
  - intros Hok. destruct r as [[rc h1] w1] eqn:Hr. simpl in *. subst rc.
    destruct (writeBlock_ok_stored name p h buf w h1 w1 Ho Hlen Hr) as (? & ? & ?).
    done.
Qed.

(** X8. After a successful [closePageFile] the handle is blank and no file has
    changed; every later call on that handle, whatever its arguments,
    returns [RC_FILE_HANDLE_NOT_INIT] and has no effect at all. *)
Theorem closePageFile_then_use (h : SM_FileHandle) (w : World) (h1 : SM_FileHandle)
    (w1 : World) (p : Z) (memPage : list byte) :
  closePageFile h w = (RC_OK, h1, w1) →
  h1 = blank_handle
  ∧ files w1 = files w
  ∧ readBlock p h1 memPage w1 = (RC_FILE_HANDLE_NOT_INIT, h1, memPage, w1)
  ∧ readFirstBlock h1 memPage w1 = (RC_FILE_HANDLE_NOT_INIT, h1, memPage, w1)
  ∧ readPreviousBlock h1 memPage w1 = (RC_FILE_HANDLE_NOT_INIT, h1, memPage, w1)
  ∧ readCurrentBlock h1 memPage w1 = (RC_FILE_HANDLE_NOT_INIT, h1, memPage, w1)
  ∧ readNextBlock h1 memPage w1 = (RC_FILE_HANDLE_NOT_INIT, h1, memPage, w1)
  ∧ readLastBlock h1 memPage w1 = (RC_FILE_HANDLE_NOT_INIT, h1, memPage, w1)
  ∧ writeBlock p h1 memPage w1 = (RC_FILE_HANDLE_NOT_INIT, h1, w1)
  ∧ writeCurrentBlock h1 memPage w1 = (RC_FILE_HANDLE_NOT_INIT, h1, w1)
  ∧ appendEmptyBlock h1 w1 = (RC_FILE_HANDLE_NOT_INIT, h1, w1)
  ∧ ensureCapacity p h1 w1 = (RC_FILE_HANDLE_NOT_INIT, h1, w1)
  ∧ closePageFile h1 w1 = (RC_FILE_HANDLE_NOT_INIT, h1, w1).
Proof.
  unfold closePageFile at 1. destruct (mgmtInfo h) as [ctx|]; [|done].
  unfold freeFileContext. pose proof (fclose_spec (fp ctx) w) as Hf.
  destruct (fclose _ _) as [[] w']; simpl in *; [|done].
  intros [= <- <-]. by split_and!.
Qed.

(** X9. Reading forwards and backwards, no fault pending: with the cursor on
    page [k] and a page after it, [readNextBlock] yields page [k + 1] and
    moves the cursor there, [readPreviousBlock] then yields page [k] and
    moves the cursor back, and [readCurrentBlock] yields page [k] again. *)
Theorem sequential_reads_follow_the_cursor (name : string) (c : list byte)
    (h : SM_FileHandle) (w : World) (memPage : list byte) :
  handle_on name c h w →
  0 ≤ getBlockPos h →
  getBlockPos h + 1 < totalNumPages h →
  ∃ h1 h2 h3,
    readNextBlock h memPage w
    = (RC_OK, h1,
       page_of c (Z.to_nat (getBlockPos h + 1)) ++ drop PAGE_SIZE memPage, w)
    ∧ getBlockPos h1 = getBlockPos h + 1
    ∧ readPreviousBlock h1 memPage w
      = (RC_OK, h2, page_of c (Z.to_nat (getBlockPos h)) ++ drop PAGE_SIZE memPage, w)
    ∧ getBlockPos h2 = getBlockPos h
    ∧ readCurrentBlock h2 memPage w
      = (RC_OK, h3, page_of c (Z.to_nat (getBlockPos h)) ++ drop PAGE_SIZE memPage, w)
    ∧ getBlockPos h3 = getBlockPos h.
Proof.
  unfold getBlockPos. intros Hh Hlo Hhi.
  destruct (readBlock_ok_pos name c h w (curPagePos h + 1) memPage Hh)
    as (h1 & Hr1 & Hh1 & Ht1 & Hp1); [lia|].
  destruct (readBlock_ok_pos name c h1 w (curPagePos h) memPage Hh1)
    as (h2 & Hr2 & Hh2 & Ht2 & Hp2); [lia|].
  destruct (readBlock_ok_pos name c h2 w (curPagePos h) memPage Hh2)
    as (h3 & Hr3 & Hh3 & Ht3 & Hp3); [lia|].
  pose proof (handle_on_open _ _ _ _ Hh) as (ctx & Hc & _).
  pose proof (handle_on_open _ _ _ _ Hh1) as (ctx1 & Hc1 & _).
  pose proof (handle_on_open _ _ _ _ Hh2) as (ctx2 & Hc2 & _).
  exists h1, h2, h3. split_and!; try done.
  - unfold readNextBlock. rewrite Hc.
    by rewrite (proj2 (Z.leb_gt (totalNumPages h) (curPagePos h + 1))) by lia.
  - unfold readPreviousBlock. rewrite Hc1, Hp1.
    replace (curPagePos h + 1 - 1) with (curPagePos h) by lia.
    by rewrite (proj2 (Z.ltb_ge (curPagePos h) 0)) by lia.
  - unfold readCurrentBlock. by rewrite Hc2, Hp2.
Qed.

(** X10. The sequential reads stop at the ends of the file, whatever the world:
    on an open handle, [readPreviousBlock] with the cursor on page 0,
    [readNextBlock] with the cursor on the last page, and [readFirstBlock]
    and [readLastBlock] on a file without pages all return
    [RC_READ_NON_EXISTING_PAGE], leaving the handle, the buffer and the
    world as they were. *)
Theorem sequential_reads_stop_at_the_ends (h : SM_FileHandle) (memPage : list byte)
    (w : World) :
  is_Some (mgmtInfo h) →
  (getBlockPos h ≤ 0 →
   readPreviousBlock h memPage w = (RC_READ_NON_EXISTING_PAGE, h, memPage, w))
  ∧ (totalNumPages h ≤ getBlockPos h + 1 →
     readNextBlock h memPage w = (RC_READ_NON_EXISTING_PAGE, h, memPage, w))
  ∧ (totalNumPages h ≤ 0 →
     readFirstBlock h memPage w = (RC_READ_NON_EXISTING_PAGE, h, memPage, w)
     ∧ readLastBlock h memPage w = (RC_READ_NON_EXISTING_PAGE, h, memPage, w)).
Proof.
  intros [ctx Hc]. unfold getBlockPos. split_and!.
  - intros Hp. unfold readPreviousBlock. rewrite Hc.
    by rewrite (proj2 (Z.ltb_lt (curPagePos h - 1) 0)) by lia.
  - intros Hp. unfold readNextBlock. rewrite Hc.
    by rewrite (proj2 (Z.leb_le (totalNumPages h) (curPagePos h + 1))) by lia.
  - intros Ht. unfold readFirstBlock, readLastBlock, readBlock. rewrite Hc.
    rewrite (proj2 (Z.leb_le (totalNumPages h) 0)) by lia.
    by rewrite (proj2 (Z.ltb_lt (totalNumPages h - 1) 0)) by lia.
Qed.

(** X11. No read writes: whatever the handle, the faults and the arguments,
    the six read functions leave every file and the page count of the handle
    as they were, and [readBlock] moves the cursor exactly when it returns
    [RC_OK]. *)
Theorem reads_never_write (p : Z) (h : SM_FileHandle) (memPage : list byte)
    (w : World) :
  (∀ r, r ∈ [readBlock p h memPage w; readFirstBlock h memPage w;
             readPreviousBlock h memPage w; readCurrentBlock h memPage w;
             readNextBlock h memPage w; readLastBlock h memPage w] →
        files r.2 = files w ∧ totalNumPages r.1.1.2 = totalNumPages h)
  ∧ getBlockPos (readBlock p h memPage w).1.1.2
    = (if bool_decide ((readBlock p h memPage w).1.1.1 = RC_OK) then p
       else getBlockPos h).
Proof.
  split; [|apply readBlock_frame].
  assert (∀ q, files (readBlock q h memPage w).2 = files w
               ∧ totalNumPages (readBlock q h memPage w).1.1.2 = totalNumPages h)
    as Hrb.
  { intros q. pose proof (readBlock_frame q h memPage w) as (? & ? & _). done. }
  intros r Hr. repeat (apply elem_of_cons in Hr as [->|Hr]); try apply Hrb.
  - unfold readPreviousBlock. destruct (mgmtInfo h); [|done].
    destruct (_ <? _); [done|apply Hrb].
  - unfold readCurrentBlock. destruct (mgmtInfo h); [apply Hrb|done].
  - unfold readNextBlock. destruct (mgmtInfo h); [|done].
    destruct (_ <=? _); [done|apply Hrb].
  - unfold readLastBlock. destruct (mgmtInfo h); [apply Hrb|done].
  - by apply elem_of_nil in Hr.
Qed.

Lemma appendEmptyBlock_cursor h w h1 w1 ctx :
  appendEmptyBlock h w = (RC_OK, h1, w1) → mgmtInfo h = Some ctx →
  curPagePos h1 = pages ctx.
Proof.
  unfold appendEmptyBlock. intros Ha Hc. rewrite Hc in Ha.
  destruct (fseek_end _ _) as [[ok s] w2]. destruct ok; simpl in Ha; [|done].
  destruct (calloc _ _) as [[zb|] w3]; [|done].
  destruct (fwrite _ _ _ _) as [[written s1] w4].
  destruct (written <? PAGE_SIZE_BYTES)%nat; [done|].
  injection Ha as <- <-. simpl. lia.
Qed.

(** X7. Append, then write at the cursor, no fault pending: [appendEmptyBlock]
    adds one page of zeros at the end of the file and puts the cursor on it,
    so that [writeCurrentBlock] fills the new page and nothing else, and
    [readLastBlock] returns what was written. *)
Theorem appendEmptyBlock_then_writeCurrentBlock (name : string) (c : list byte)
    (h : SM_FileHandle) (w : World) (buf memPage : list byte) :
  handle_on name c h w →
  length buf = PAGE_SIZE →
  ∃ h1 w1 h2 w2 h3,
    appendEmptyBlock h w = (RC_OK, h1, w1)
    ∧ totalNumPages h1 = totalNumPages h + 1
    ∧ getBlockPos h1 = totalNumPages h
    ∧ files w1 !! name = Some (c ++ replicate PAGE_SIZE zero_byte)
    ∧ writeCurrentBlock h1 buf w1 = (RC_OK, h2, w2)
    ∧ totalNumPages h2 = totalNumPages h + 1
    ∧ files w2 !! name = Some (c ++ buf)
    ∧ readLastBlock h2 memPage w2 = (RC_OK, h3, buf ++ drop PAGE_SIZE memPage, w2).
Proof.
  intros Hh Hbuf. pose proof Hh as (_ & _ & Hpos & Hlen & ctx & Hc & _ & Hp).
  destruct (appendEmptyBlock_ok name c h w Hh) as (h1 & w1 & Ha & Hh1 & Ht1 & _).
  pose proof (appendEmptyBlock_cursor _ _ _ _ _ Ha Hc) as Hcur. rewrite Hp in Hcur.
  pose proof (handle_on_open _ _ _ _ Hh1) as (ctx1 & Hc1 & _).
  destruct (writeBlock_ok name _ h1 w1 (totalNumPages h) buf Hh1 Hpos Hbuf)
    as (h2 & w2 & Hw & Hh2 & Ht2 & _).
  replace (Z.to_nat (totalNumPages h + 1 - totalNumPages h1)) with 0%nat in Hh2 by lia.
  simpl in Hh2. rewrite app_nil_r in Hh2.
  assert (write_at (c ++ replicate PAGE_SIZE zero_byte)
            (Z.to_nat (totalNumPages h) * PAGE_SIZE) buf = c ++ buf) as Hwa.
  { rewrite <- Hlen. unfold write_at.
    rewrite take_app_length, length_app, length_replicate, Hbuf.
    replace (length c - (length c + PAGE_SIZE))%nat with 0%nat by lia. simpl.
    rewrite drop_ge by (rewrite length_app, length_replicate; lia).
    by rewrite app_nil_r. }
  rewrite Hwa in Hh2.
  destruct (readBlock_ok_pos name _ h2 w2 (totalNumPages h2 - 1) memPage Hh2)
    as (h3 & Hr & _); [lia|].
  exists h1, w1, h2, w2, h3. unfold getBlockPos.
  pose proof (handle_on_open _ _ _ _ Hh2) as (ctx2 & Hc2 & _).
  destruct Hh1 as (_ & Hf1 & _). destruct Hh2 as (_ & Hf2 & _).
  split_and!; try done; try lia.
  - unfold writeCurrentBlock. by rewrite Hc1, Hcur.
  - unfold readLastBlock. rewrite Hc2, Hr. do 3 f_equal.
    replace (Z.to_nat (totalNumPages h2 - 1)) with (Z.to_nat (totalNumPages h)) by lia.
    unfold page_of. rewrite <- Hlen, drop_app_length. by rewrite take_ge by lia.
Qed.

(** ** The buffer pool as its clients see it *)

Lemma findPage_None pid F i :
  findPage pid F i = None ↔ Forall (λ f, pageId f ≠ pid) F.
Proof.
  revert i. induction F as [|f F IH]; intros i; simpl; [done|].
  rewrite Forall_cons. destruct (Z.eqb_spec (pageId f) pid).
  - split; [done|]. by intros [? _].
  - rewrite IH. tauto.
Qed.

(** In a pool where no page is held twice, [findPage] finds the frame that
    holds the page. *)
Lemma findPage_resident F i f :
  resident_unique F → F !! i = Some f → pageId f ≠ NO_PAGE →
  findPage (pageId f) F 0 = Some i.
Proof.
  intros Hu Hf Hp. destruct (findPage (pageId f) F 0) as [k|] eqn:Hk.
  - apply findPage_Some in Hk as (g & _ & Hg & Hgp). rewrite Nat.sub_0_r in Hg.
    f_equal. apply (Hu k i g f); congruence.
  - apply findPage_None in Hk.
    by destruct (Forall_lookup_1 _ _ _ _ Hk Hf).
Qed.

Lemma closePageFile_files h w : files (closePageFile h w).2 = files w.
Proof.
  unfold closePageFile, freeFileContext. destruct (mgmtInfo h) as [ctx|]; [|done].
  pose proof (fclose_spec (fp ctx) w) as Hf.
  by destruct (fclose _ _) as [[] w'].
Qed.

Lemma step_uninitialised op bm w :
  mgmtData bm = None → step op bm w = Some (RC_FILE_HANDLE_NOT_INIT, bm, w).
Proof.
  intros Hmd. destruct op; simpl;
    unfold pinPage, unpinPage, markDirty, forcePage, forceFlushPool,
      shutdownBufferPool; by rewrite Hmd.
Qed.

Lemma run_uninitialised ops bm w :
  mgmtData bm = None →
  run ops bm w = Some (replicate (length ops) RC_FILE_HANDLE_NOT_INIT, bm, w).
Proof.
  intros Hmd. induction ops as [|op ops IH]; simpl; [done|].
  by rewrite step_uninitialised, IH.
Qed.

(** X22. [shutdownBufferPool] on an initialised pool returns [RC_OK] whatever
    happens to its writes and to the close, pinned pages or not, and leaves
    the pool uninitialised: from then on every call, in any order, returns
    [RC_FILE_HANDLE_NOT_INIT] and changes neither the pool nor the world. *)
Theorem shutdownBufferPool_then_use (bm : BM_BufferPool) (md : PoolMetadata)
    (w : World) :
  mgmtData bm = Some md →
  ∃ bm1 w1,
    shutdownBufferPool bm w = (RC_OK, bm1, w1)
    ∧ mgmtData bm1 = None
    ∧ pageFile bm1 = None
    ∧ ∀ ops, run ops bm1 w1
             = Some (replicate (length ops) RC_FILE_HANDLE_NOT_INIT, bm1, w1).
Proof.
  intros Hmd. unfold shutdownBufferPool. rewrite Hmd.
  destruct (flush_loop _ _ _ _ _) as [[[F1 h1] wio1] w1].
  destruct (closePageFile h1 w1) as [[rc h2] w2].
  do 2 eexists. split; [done|]. split_and!; try done.
  intros ops. by apply run_uninitialised.
Qed.

Lemma flush_targets_nil F :
  Forall (λ f, flushable f = false) F → flush_targets F = [].
Proof.
  unfold flush_targets. induction 1 as [|f F Hf _ IH]; [done|].
  rewrite filter_cons_False; [done|congruence].
Qed.

(** X23. A dirty page that is still pinned is lost at shutdown, without any
    error: when every dirty frame is pinned, [shutdownBufferPool] returns
    [RC_OK] and no file has changed. *)
Theorem shutdownBufferPool_drops_pinned_pages (bm : BM_BufferPool)
    (md : PoolMetadata) (w : World) :
  mgmtData bm = Some md →
  Forall (λ f, isDirty f = true → pinCount f ≠ 0) (frames md) →
  (shutdownBufferPool bm w).1.1 = RC_OK
  ∧ mgmtData (shutdownBufferPool bm w).1.2 = None
  ∧ files (shutdownBufferPool bm w).2 = files w.
Proof.
  intros Hmd Hall. unfold shutdownBufferPool. rewrite Hmd, flush_loop_spec.
  rewrite flush_targets_nil.
  2:{ eapply Forall_impl; [exact Hall|]. intros f Hf. simpl in Hf.
      unfold flushable. destruct (isDirty f); [|by rewrite andb_false_r].
      destruct (Z.eqb_spec (pinCount f) 0); [by destruct Hf|by rewrite andb_false_r]. }
  simpl. pose proof (closePageFile_files (fh md) w) as Hf.
  by destruct (closePageFile (fh md) w) as [[rc h2] w2].
Qed.

(** X19. Flushing twice is flushing once: right after [forceFlushPool], whatever
    the outcome of its writes, a second call writes nothing and leaves the
    pool and the world as they are. *)
Theorem forceFlushPool_idempotent (bm : BM_BufferPool) (w : World) :
  let r := forceFlushPool bm w in
  forceFlushPool r.1.2 r.2 = r.
Proof.
  unfold forceFlushPool. destruct (mgmtData bm) as [md|] eqn:Hmd; simpl.
  2:{ by rewrite Hmd. }
  rewrite flush_loop_spec. simpl. rewrite flush_loop_spec.
  set (F1 := (λ f, if flushable f && true then set_dirty false f else f) <$> frames md).
  assert (Forall (λ f, flushable f = false) F1) as Hnf.
  { apply Forall_fmap, Forall_forall. intros f _. simpl.
    destruct (flushable f) eqn:Hfl; simpl; [|done].
    unfold flushable in *. simpl. by rewrite andb_false_r. }
  assert ((λ f, if flushable f && true then set_dirty false f else f) <$> F1 = F1)
    as ->.
  { clear -Hnf. induction Hnf as [|f F Hf _ IH]; [done|].
    rewrite fmap_cons, IH. by rewrite Hf. }
  by rewrite (flush_targets_nil F1 Hnf).
Qed.

(** X15. Calls for a page that no frame holds fail cleanly: [unpinPage],
    [markDirty] and [forcePage] return [RC_READ_NON_EXISTING_PAGE] and change
    neither the pool nor the world; so does [unpinPage] on a resident page
    whose fix count is already 0, so that no call ever drives a fix count
    below zero. *)
Theorem calls_on_absent_page_fail_cleanly (bm : BM_BufferPool) (md : PoolMetadata)
    (ph : BM_PageHandle) (w : World) :
  mgmtData bm = Some md →
  (Forall (λ f, pageId f ≠ pageNum ph) (frames md) →
   unpinPage bm ph = (RC_READ_NON_EXISTING_PAGE, bm)
   ∧ markDirty bm ph = (RC_READ_NON_EXISTING_PAGE, bm)
   ∧ forcePage bm ph w = (RC_READ_NON_EXISTING_PAGE, bm, w))
  ∧ (Forall (λ f, pageId f = pageNum ph → pinCount f ≤ 0) (frames md) →
     unpinPage bm ph = (RC_READ_NON_EXISTING_PAGE, bm))
  ∧ (Forall (λ f, 0 ≤ pinCount f) (frames md) →
     ∀ md1, mgmtData (unpinPage bm ph).2 = Some md1 →
            Forall (λ f, 0 ≤ pinCount f) (frames md1)).
Proof.
  intros Hmd. split_and!.
  - intros Habs%(findPage_None _ _ 0%nat).
    unfold unpinPage, markDirty, forcePage. by rewrite Hmd, Habs.
  - intros Hall. unfold unpinPage. rewrite Hmd.
    destruct (findPage _ _ _) as [i|] eqn:Hi; [|done].
    apply findPage_Some in Hi as (f & _ & Hf & Hp). rewrite Nat.sub_0_r in Hf.
    rewrite Hf. simpl. pose proof (Forall_lookup_1 _ _ _ _ Hall Hf Hp).
    by rewrite (proj2 (Z.ltb_ge 0 (pinCount f))) by lia.
  - intros Hall md1. unfold unpinPage. rewrite Hmd.
    destruct (findPage _ _ _) as [i|] eqn:Hi; [|simpl; congruence].
    destruct (frames md !! i) as [f|] eqn:Hf; simpl; [|simpl; congruence].
    destruct (Z.ltb_spec 0 (pinCount f)); simpl; [|congruence].
    intros [= <-]. simpl. apply Forall_alter; [done|].
    intros g Hg. simpl. assert (g = f) as -> by congruence. lia.
Qed.

(** The cases of [initBufferPool], read off the code of [openPageFile]. *)
Lemma initBufferPool_cases (bm0 : BM_BufferPool) (name : string)
    (numPages : Z) (s : ReplacementStrategy) (w : World) :
  match initBufferPool bm0 name numPages s w with
  | Some (rc, bm, w1) =>
    files w1 = files w
    ∧ ((rc = RC_OK ∧ pageFile bm = Some name ∧ strategy bm = s
        ∧ is_Some (mgmtData bm) ∧ is_Some (files w !! name)
        ∧ ∀ i, (i ≤ 4)%nat → ¬ fails_at w i)
       ∨ (rc = RC_FILE_NOT_FOUND ∧ bm = bm0
          ∧ (fails_at w 0 ∨ files w !! name = None)))
  | None =>
    is_Some (files w !! name) ∧ ¬ fails_at w 0
    ∧ ∃ i, (1 ≤ i ≤ 4)%nat ∧ fails_at w i
  end.
Proof.
  unfold initBufferPool.
  pose proof (openPageFile_frame name blank_handle w) as (Hf & _).
  pose proof (openPageFile_code name blank_handle w) as Hcode.
  destruct (openPageFile name blank_handle w) as [[rc h] w1] eqn:Hopen. simpl in *.
  destruct Hcode as [(-> & Hwhy)|[(Hrc & Hex & Hn0 & Hi)|(-> & Hex & Hall)]].
  - rewrite bool_decide_eq_true_2 by done. split; [done|]. right. by split_and!.
  - assert (rc ≠ RC_FILE_NOT_FOUND ∧ rc ≠ RC_OK) as [Hne1 Hne2]
      by (destruct Hrc as [-> | ->]; done).
    rewrite bool_decide_eq_false_2 by done.
    rewrite (bool_decide_eq_false_2 (rc = RC_OK)) by done. simpl. by split_and!.
  - rewrite bool_decide_eq_false_2 by done. simpl. split; [done|]. left.
    by split_and!.
Qed.

(** X12. What [initBufferPool] can do, whatever the faults: it writes to no
    file, and the only codes it returns are [RC_OK], with a pool set up on
    that file, and [RC_FILE_NOT_FOUND], with the caller's pool untouched.  It
    returns [RC_FILE_NOT_FOUND] exactly when the file does not exist or
    [fopen] fails; it returns [RC_OK] exactly when the file exists and none
    of the five checked library calls of [openPageFile] ([fopen], [fseek],
    [ftell], two [malloc]s) fails; and [CHECK] ends the process exactly when
    the file exists, [fopen] succeeds and one of the four calls after it
    fails. *)
Theorem initBufferPool_outcomes (bm0 : BM_BufferPool) (name : string)
    (numPages : Z) (s : ReplacementStrategy) (w : World) :
  let r := initBufferPool bm0 name numPages s w in
  (∀ rc bm w1, r = Some (rc, bm, w1) →
     files w1 = files w
     ∧ ((rc = RC_OK ∧ pageFile bm = Some name ∧ strategy bm = s
         ∧ is_Some (mgmtData bm))
        ∨ (rc = RC_FILE_NOT_FOUND ∧ bm = bm0)))
  ∧ ((∃ bm w1, r = Some (RC_FILE_NOT_FOUND, bm, w1)) ↔
     fails_at w 0 ∨ files w !! name = None)
  ∧ ((∃ bm w1, r = Some (RC_OK, bm, w1)) ↔
     is_Some (files w !! name) ∧ ∀ i, (i ≤ 4)%nat → ¬ fails_at w i)
  ∧ (r = None ↔
     is_Some (files w !! name) ∧ ¬ fails_at w 0
     ∧ ∃ i, (1 ≤ i ≤ 4)%nat ∧ fails_at w i).
Proof.
  intros r. pose proof (initBufferPool_cases bm0 name numPages s w) as H.
  fold r in H. clearbody r.
  assert (is_Some (files w !! name) → files w !! name ≠ None) as Hsome.
  { intros [c ->]. done. }
  assert (∀ i, (1 ≤ i ≤ 4)%nat → fails_at w i →
            ¬ ∀ j, (j ≤ 4)%nat → ¬ fails_at w j) as Hno.
  { intros i Hi Hfail Hall. apply (Hall i); [lia|done]. }
  destruct r as [[[rc bm] w1]|].
  - destruct H as (Hf & [(-> & Hp & Hs & Hm & Hex & Hall)|(-> & -> & Hwhy)]).
    + refine (conj _ (conj _ (conj _ _))).
      * intros ? ? ? [= <- <- <-]. split; [done|]. left. by split_and!.
      * split; [intros (? & ? & [=])|].
        intros [H0|Hmiss]; [by destruct (Hall 0%nat ltac:(lia))|by apply Hsome in Hex].
      * split; [by intros _|]. intros _. by exists bm, w1.
      * split; [done|]. intros (_ & _ & i & Hi & Hfail). by destruct (Hno i Hi Hfail).
    + refine (conj _ (conj _ (conj _ _))).
      * intros ? ? ? [= <- <- <-]. split; [done|]. right. by split.
      * split; [by intros _|]. intros _. by exists bm0, w1.
      * split; [intros (? & ? & [=])|]. intros [Hex Hall].
        destruct Hwhy as [H0|Hmiss]; [by destruct (Hall 0%nat ltac:(lia))|].
        by apply Hsome in Hex.
      * split; [done|]. intros (Hex & Hn0 & _).
        destruct Hwhy as [H0|Hmiss]; [done|by apply Hsome in Hex].
  - destruct H as (Hex & Hn0 & i & Hi & Hfail).
    refine (conj _ (conj _ (conj _ _))).
    + intros ? ? ? [=].
    + split; [intros (? & ? & [=])|].
      intros [H0|Hmiss]; [done|by apply Hsome in Hex].
    + split; [intros (? & ? & [=])|]. intros [_ Hall]. by destruct (Hno i Hi Hfail).
    + split; [intros _|done]. split; [done|]. split; [done|]. by exists i.
Qed.

(** X13. A pool set up on an existing file, no fault pending: [initBufferPool]
    returns [RC_OK] and leaves the world as it is; the pool has [numPages]
    frames, all empty, clean and unpinned, both I/O counters at 0, an empty
    FIFO queue, and a file handle that counts the whole pages of the file. *)
Theorem initBufferPool_fresh_pool (bm0 : BM_BufferPool) (name : string)
    (c : list byte) (numPages : Z) (s : ReplacementStrategy) (w : World) :
  (0 < PAGE_SIZE)%nat →
  faults w = [] →
  files w !! name = Some c →
  ∃ bm md,
    initBufferPool bm0 name numPages s w = Some (RC_OK, bm, w)
    ∧ mgmtData bm = Some md
    ∧ getFrameContents md = replicate (Z.to_nat numPages) NO_PAGE
    ∧ getDirtyFlags md = replicate (Z.to_nat numPages) false
    ∧ getFixCounts md = replicate (Z.to_nat numPages) 0
    ∧ getNumReadIO md = 0
    ∧ getNumWriteIO md = 0
    ∧ fifo_entries md = []
    ∧ strat md = s
    ∧ totalNumPages (fh md) = Z.of_nat (length c / PAGE_SIZE)
    ∧ pool_inv md.
Proof.
  intros Hps Hq Hfile.
  destruct (initBufferPool bm0 name numPages s w) as [[[rc bm] w1]|] eqn:Hinit.
  2:{ unfold initBufferPool in Hinit.
      by rewrite (openPageFile_quiet name c _ w Hq Hfile) in Hinit. }
  assert (rc = RC_OK ∧ w1 = w
          ∧ ∃ md, mgmtData bm = Some md
                  ∧ totalNumPages (fh md) = Z.of_nat (length c / PAGE_SIZE))
    as (-> & -> & md & Hmd & Hfh).
  { unfold initBufferPool in Hinit.
    rewrite (openPageFile_quiet name c _ w Hq Hfile) in Hinit. simpl in Hinit.
    injection Hinit as <- <- <-. split_and!; try done. eexists. split; [done|].
    simpl. by apply quot_pages. }
  destruct (initBufferPool_frames _ _ _ _ _ _ _ _ Hinit Hmd)
    as (HF & _ & _ & Hr & Hw & Hs & Hh & Hc).
  destruct (initBufferPool_inv _ _ _ _ _ _ _ _ Hinit Hmd) as [Hinv _].
  exists bm, md. split; [done|].
  unfold getFrameContents, getDirtyFlags, getFixCounts, getNumReadIO, getNumWriteIO,
    fifo_entries. rewrite HF, !fmap_replicate, Hc, Hr, Hw. by split_and!.
Qed.

(** X16. [markDirty] on a resident page returns [RC_OK] and sets the dirty flag
    of the frame that holds the page, and of no other; page ids, fix counts,
    bytes and both counters stay as they are, and no I/O is done. *)
Theorem markDirty_marks_only_that_frame (bm : BM_BufferPool) (md : PoolMetadata)
    (ph : BM_PageHandle) (i : nat) (f : Frame) :
  mgmtData bm = Some md →
  resident_unique (frames md) →
  frames md !! i = Some f →
  pageId f = pageNum ph →
  0 ≤ pageNum ph →
  ∃ md1,
    markDirty bm ph = (RC_OK, with_md md1 bm)
    ∧ getDirtyFlags md1 = <[i := true]> (getDirtyFlags md)
    ∧ getFrameContents md1 = getFrameContents md
    ∧ getFixCounts md1 = getFixCounts md
    ∧ data <$> frames md1 = data <$> frames md
    ∧ getNumReadIO md1 = getNumReadIO md
    ∧ getNumWriteIO md1 = getNumWriteIO md
    ∧ fh md1 = fh md.
Proof.
  intros Hmd Hu Hf Hp Hpos. unfold markDirty. rewrite Hmd.
  assert (findPage (pageNum ph) (frames md) 0 = Some i) as ->.
  { rewrite <- Hp. apply findPage_resident; [done..|]. unfold NO_PAGE. lia. }
  eexists. split; [done|].
  unfold getDirtyFlags, getFrameContents, getFixCounts. simpl.
  split_and!; try done; try (by apply fmap_alter_keep).
  by rewrite (fmap_alter_insert isDirty (set_dirty true) i f).
Qed.

(** ** The pool and its file, no fault pending *)

Lemma writeBlock_pages name c h w p buf :
  handle_on name c h w → length buf = PAGE_SIZE →
  ∃ rc h1 w1 c1,
    writeBlock p h buf w = (rc, h1, w1)
    ∧ handle_on name c1 h1 w1
    ∧ totalNumPages h ≤ totalNumPages h1
    ∧ (∀ q, 0 ≤ q < totalNumPages h → q ≠ p →
         page_of c1 (Z.to_nat q) = page_of c (Z.to_nat q))
    ∧ (0 ≤ p → rc = RC_OK ∧ p < totalNumPages h1 ∧ page_of c1 (Z.to_nat p) = buf).
Proof.
  intros Hh Hbuf. destruct (Z.ltb_spec p 0) as [Hneg|Hpos].
  - pose proof (handle_on_open _ _ _ _ Hh) as (ctx & Hc & _).
    exists RC_WRITE_FAILED, h, w, c. unfold writeBlock.
    rewrite Hc, (proj2 (Z.ltb_lt p 0)) by done. split_and!; try done; lia.
  - destruct (writeBlock_ok name c h w p buf Hh Hpos Hbuf)
      as (h1 & w1 & Hw & Hh1 & Ht1 & _).
    pose proof Hh as (_ & _ & Htot & Hlen & _).
    set (cg := c ++ replicate (Z.to_nat (p + 1 - totalNumPages h) * PAGE_SIZE)
                      zero_byte) in *.
    assert (length cg = (Z.to_nat (totalNumPages h1) * PAGE_SIZE)%nat) as Hlg.
    { unfold cg. rewrite length_app, length_replicate, Hlen, Ht1. nia. }
    assert (∀ q, 0 ≤ q < totalNumPages h1 →
              page_of (write_at cg (Z.to_nat p * PAGE_SIZE) buf) (Z.to_nat q)
              = if decide (Z.to_nat q = Z.to_nat p) then buf
                else page_of cg (Z.to_nat q)) as Hpage.
    { intros q Hq. apply page_of_write_at; [|done]. rewrite Hlg.
      assert (Z.to_nat p < Z.to_nat (totalNumPages h1))%nat by lia. nia. }
    exists RC_OK, h1, w1, (write_at cg (Z.to_nat p * PAGE_SIZE) buf).
    split_and!; try done; try lia.
    + intros q Hq Hne. rewrite Hpage, decide_False by lia.
      apply page_of_app_l. rewrite Hlen.
      assert (Z.to_nat q < Z.to_nat (totalNumPages h))%nat by lia. nia.
    + intros _. split_and!; [done|lia|]. rewrite Hpage by lia.
      by rewrite decide_True by done.
Qed.

(** The load of a page into a frame: the file grows to hold the page when
    it has to, and the frame receives what the file holds. *)
Lemma pin_load_ok name c md slot pid w f :
  handle_on name c (fh md) w → 0 ≤ pid →
  frames md !! slot = Some f → length (data f) = PAGE_SIZE →
  ∃ md1 w1 c1,
    pin_load md slot pid w = (RC_OK, RC_OK, md1, w1)
    ∧ handle_on name c1 (fh md1) w1
    ∧ totalNumPages (fh md1) = Z.max (pid + 1) (totalNumPages (fh md))
    ∧ c1 = c ++ replicate (Z.to_nat (pid + 1 - totalNumPages (fh md)) * PAGE_SIZE)
                  zero_byte
    ∧ payload <$> frames md1
      = payload <$> alter (λ g, loaded pid (set_data (page_of c1 (Z.to_nat pid)) g))
                      slot (frames md).
Proof.
  intros Hh Hpid Hf Hlen.
  set (c1 := c ++ replicate (Z.to_nat (pid + 1 - totalNumPages (fh md)) * PAGE_SIZE)
                    zero_byte).
  assert (∃ h0 w0, (if totalNumPages (fh md) <=? pid
                    then ensureCapacity (pid + 1) (fh md) w
                    else (RC_OK, fh md, w)) = (RC_OK, h0, w0)
            ∧ handle_on name c1 h0 w0
            ∧ totalNumPages h0 = Z.max (pid + 1) (totalNumPages (fh md)))
    as (h0 & w0 & Hgrow & Hh0 & Ht0).
  { destruct (Z.leb_spec (totalNumPages (fh md)) pid) as [Hle|Hgt].
    - destruct (ensureCapacity_ok name (pid + 1) c (fh md) w Hh)
        as (h0 & w0 & -> & ? & ? & ?); [lia|].
      by exists h0, w0.
    - exists (fh md), w. split_and!; try done; [|lia].
      unfold c1. replace (Z.to_nat (pid + 1 - totalNumPages (fh md))) with 0%nat by lia.
      simpl. by rewrite app_nil_r. }
  destruct (readBlock_ok_pos name c1 h0 w0 pid (data f) Hh0)
    as (h2 & Hread & Hh2 & Ht2 & _); [lia|].
  rewrite (drop_ge (data f)), app_nil_r in Hread by lia.
  pose (md2 := set_frames
                 (alter (λ g, loaded pid (set_data (page_of c1 (Z.to_nat pid)) g))
                    slot (frames md))
                 (set_readIO (uincr (readIO md)) (set_fh h2 md))).
  pose (md3 := if bool_decide (strat md = RS_FIFO) then enqueueFIFO md2 (Z.of_nat slot)
               else moveToLRUHead md2 (Some slot)).
  assert (pin_load md slot pid w = (RC_OK, RC_OK, md3, w0)) as Hload.
  { unfold pin_load. rewrite Hgrow, Hf. simpl default. by rewrite Hread. }
  exists md3, w0, c1. split; [done|].
  assert (fh md3 = h2) as Hfh.
  { unfold md3. case_bool_decide; [done|].
    by destruct (moveToLRUHead_other md2 (Some slot)) as (-> & _). }
  rewrite Hfh. split_and!; [done|congruence|done|].
  unfold md3. case_bool_decide; [done|]. by rewrite moveToLRUHead_payload.
Qed.

Lemma coherent_same name md md' w :
  fh md' = fh md →
  payload <$> frames md' = payload <$> frames md →
  coherent name md w → coherent name md' w.
Proof.
  intros Hfh Hpl (c & Hh & Hfr). exists c. rewrite Hfh. split; [done|].
  intros i f' Hf'. destruct (payload_lookup _ _ _ _ Hpl Hf') as (f & Hf & Hp).
  unfold payload in Hp. injection Hp as Hp1 Hp2 _ _.
  rewrite <- Hp1, <- Hp2. by apply (Hfr i).
Qed.

Lemma payload_alter_keep g i (F : list Frame) :
  (∀ f, pageId (g f) = pageId f ∧ data (g f) = data f) →
  ∀ j f', alter g i F !! j = Some f' →
    ∃ f, F !! j = Some f ∧ pageId f' = pageId f ∧ data f' = data f.
Proof.
  intros Hg j f' Hf'. destruct (decide (i = j)) as [->|Hne].
  - rewrite list_lookup_alter_eq in Hf'.
    destruct (F !! j) as [f|]; [|done]. injection Hf' as <-.
    exists f. split; [done|apply Hg].
  - rewrite list_lookup_alter_ne in Hf' by done. by exists f'.
Qed.

Lemma coherent_alter name md g i w :
  (∀ f, pageId (g f) = pageId f ∧ data (g f) = data f) →
  coherent name md w → coherent name (set_frames (alter g i (frames md)) md) w.
Proof.
  intros Hg (c & Hh & Hfr). exists c. split; [done|]. simpl.
  intros j f' Hf'.
  destruct (payload_alter_keep g i _ Hg j f' Hf') as (f & Hf & -> & ->).
  by apply (Hfr j).
Qed.

(** A change of the file that keeps the pages the frames hold, followed by
    the load of a page the new file has, keeps the pool coherent. *)
Lemma coherent_load name (F : list Frame) total c md1 c1 w1 slot pid :
  (∀ i f, F !! i = Some f →
     length (data f) = PAGE_SIZE ∧ NO_PAGE ≤ pageId f
     ∧ (i ≠ slot → pageId f ≠ NO_PAGE →
        pageId f < total ∧ page_of c (Z.to_nat (pageId f)) = data f)) →
  handle_on name c1 (fh md1) w1 →
  total ≤ totalNumPages (fh md1) →
  (∀ q, 0 ≤ q < total → (∃ i f, F !! i = Some f ∧ i ≠ slot ∧ pageId f = q) →
     page_of c1 (Z.to_nat q) = page_of c (Z.to_nat q)) →
  0 ≤ pid < totalNumPages (fh md1) →
  payload <$> frames md1
  = payload <$> alter (λ g, loaded pid (set_data (page_of c1 (Z.to_nat pid)) g))
                  slot F →
  coherent name md1 w1.
Proof.
  intros Hfr Hh1 Htot Hkeep Hpid Hpl. exists c1. split; [done|].
  pose proof Hh1 as (_ & _ & _ & Hlen & _).
  intros i f' Hf'. destruct (payload_lookup _ _ _ _ Hpl Hf') as (g & Hg & Hp).
  unfold payload in Hp. injection Hp as Hp1 Hp2 _ _. rewrite <- Hp1, <- Hp2.
  destruct (decide (slot = i)) as [->|Hne].
  - rewrite list_lookup_alter_eq in Hg. destruct (F !! i) as [f|]; [|done].
    injection Hg as <-. simpl. split_and!; [|unfold NO_PAGE; lia|].
    + apply page_of_length. rewrite Hlen.
      assert (Z.to_nat pid < Z.to_nat (totalNumPages (fh md1)))%nat by lia. nia.
    + intros _. split; [lia|done].
  - rewrite list_lookup_alter_ne in Hg by done.
    destruct (Hfr i g Hg) as (Hl & Hno & Hco). split_and!; [done..|].
    intros Hp. destruct (Hco ltac:(done) Hp) as [Hlt Hpage]. split; [lia|].
    rewrite <- Hpage. apply Hkeep; [unfold NO_PAGE in *; lia|].
    exists i, g. by split_and!.
Qed.

Lemma pin_load_coherent name md md0 slot pid w f :
  coherent name md0 w → fh md = fh md0 → frames md = frames md0 →
  0 ≤ pid → frames md !! slot = Some f →
  ∃ md1 w1, pin_load md slot pid w = (RC_OK, RC_OK, md1, w1)
            ∧ coherent name md1 w1.
Proof.
  intros (c & Hh & Hfr) Hfh HF Hpid Hf. rewrite <- Hfh in Hh. rewrite <- HF in Hfr.
  destruct (Hfr slot f Hf) as (Hlen & _).
  destruct (pin_load_ok name c md slot pid w f Hh Hpid Hf Hlen)
    as (md1 & w1 & c1 & Hload & Hh1 & Ht1 & Hc1 & Hpl).
  exists md1, w1. split; [done|].
  pose proof Hh as (_ & _ & _ & Hclen & _).
  apply (coherent_load name (frames md) (totalNumPages (fh md)) c md1 c1 w1 slot pid);
    try done; try lia.
  - intros i g Hg. destruct (Hfr i g Hg) as (? & ? & Hco). rewrite Hfh.
    split_and!; [done..|]. intros _ Hp. by apply Hco.
  - intros q Hq _. rewrite Hc1. apply page_of_app_l. rewrite Hclen.
    assert (Z.to_nat q < Z.to_nat (totalNumPages (fh md)))%nat by lia. nia.
Qed.

Lemma writeBlock_coherent name md w i f :
  coherent name md w → frames md !! i = Some f →
  ∃ rc h1 w1,
    writeBlock (pageId f) (fh md) (data f) w = (rc, h1, w1)
    ∧ (pageId f ≠ NO_PAGE → rc = RC_OK)
    ∧ ∀ md1, fh md1 = h1 →
        (∀ j g', frames md1 !! j = Some g' →
           ∃ g, frames md !! j = Some g ∧ pageId g' = pageId g ∧ data g' = data g) →
        coherent name md1 w1.
Proof.
  intros (c & Hh & Hfr) Hf. destruct (Hfr i f Hf) as (Hlen & Hno & Hco).
  destruct (writeBlock_pages name c (fh md) w (pageId f) (data f) Hh Hlen)
    as (rc & h1 & w1 & c1 & Hw & Hh1 & Ht1 & Hkeep & Hp).
  exists rc, h1, w1. split; [done|]. split.
  { intros Hne. apply Hp. unfold NO_PAGE in *. lia. }
  intros md1 Hfh Hsame. exists c1. rewrite Hfh. split; [done|].
  intros j g' Hg'. destruct (Hsame j g' Hg') as (g & Hg & -> & ->).
  destruct (Hfr j g Hg) as (? & ? & Hcog). split_and!; [done..|].
  intros Hne. destruct (Hcog Hne) as [Hlt Hpage]. split; [lia|].
  destruct (decide (pageId g = pageId f)) as [E|Hd].
  - rewrite E. destruct Hp as (_ & _ & ->); [unfold NO_PAGE in *; lia|].
    rewrite <- E in Hco. destruct (Hco Hne) as [_ <-]. by rewrite <- Hpage.
  - rewrite <- Hpage. apply Hkeep; [unfold NO_PAGE in *; lia|done].
Qed.

Lemma coherent_ext name md md' w :
  fh md' = fh md →
  (∀ j g', frames md' !! j = Some g' →
     ∃ g, frames md !! j = Some g ∧ pageId g' = pageId g ∧ data g' = data g) →
  coherent name md w → coherent name md' w.
Proof.
  intros Hfh Hsame (c & Hh & Hfr). exists c. rewrite Hfh. split; [done|].
  intros j g' Hg'. destruct (Hsame j g' Hg') as (g & Hg & -> & ->). by apply (Hfr j).
Qed.

Lemma same_frames_refl (F : list Frame) :
  ∀ j g', F !! j = Some g' →
    ∃ g, F !! j = Some g ∧ pageId g' = pageId g ∧ data g' = data g.
Proof. intros j g' Hg'. by exists g'. Qed.

Lemma pin_writeback_coherent name md w slot :
  coherent name md w →
  ∃ rc md1 w1, pin_writeback md slot w = (rc, md1, w1)
    ∧ coherent name md1 w1 ∧ frames md1 = frames md.
Proof.
  intros Hco. unfold pin_writeback.
  destruct (frames md !! slot) as [f|] eqn:Hf; [|by exists RC_OK, md, w].
  destruct (isDirty f); [|by exists RC_OK, md, w].
  destruct (writeBlock_coherent name md w slot f Hco Hf) as (rc & h1 & w1 & -> & _ & Hnext).
  do 3 eexists. split; [done|]. split; [|done].
  apply Hnext; [done|]. apply same_frames_refl.
Qed.

Lemma pinPage_coherent name bm md ph pid w :
  mgmtData bm = Some md → pool_inv md → coherent name md w →
  ∃ rc bm1 ph1 w1 md1,
    pinPage bm ph pid w = Some (rc, bm1, ph1, w1)
    ∧ mgmtData bm1 = Some md1 ∧ coherent name md1 w1.
Proof.
  intros Hmd Hinv Hco. unfold pinPage. rewrite Hmd.
  destruct (Z.ltb_spec pid 0) as [Hneg|Hpid].
  { by exists RC_READ_NON_EXISTING_PAGE, bm, ph, w, md. }
  destruct (pin_scan pid (frames md) 0 (-1)) as [i|z] eqn:Hscan.
  - (* the page is resident *)
    do 5 eexists. split; [done|]. split; [done|].
    set (md1 := set_frames _ md).
    assert (coherent name md1 w) as Hco1.
    { apply coherent_alter; [|done]. by intros f. }
    destruct (_ || _); [|done].
    apply (coherent_same name md1); [|by apply moveToLRUHead_payload|done].
    by destruct (moveToLRUHead_other md1 (Some i)) as (-> & _).
  - destruct (Z.leb_spec 0 z) as [Hz|Hz].
    + (* a free frame *)
      apply pin_scan_free in Hscan; [|done].
      destruct Hscan as [[-> _]|(f & _ & _ & Hf & _)]; [lia|].
      rewrite Nat.sub_0_r in Hf.
      destruct (pin_load_coherent name md md (Z.to_nat z) pid w f Hco eq_refl eq_refl
                  Hpid Hf) as (md1 & w1 & -> & Hco1).
      by exists RC_OK, (with_md md1 bm), (mkPageHandle pid (Some (Z.to_nat z))), w1, md1.
    + (* a victim *)
      destruct (selectVictim_spec md Hinv)
        as (v & mdv & -> & HFv & _ & _ & Hfhv & _ & _ & Hv).
      assert (coherent name mdv w) as Hcov.
      { apply (coherent_ext name md); [done| |done]. rewrite HFv.
        apply same_frames_refl. }
      destruct v as [slot|].
      * destruct (Hv slot eq_refl) as (f & Hf & _).
        destruct (pin_writeback_coherent name mdv w slot Hcov)
          as (rcw & md2 & w1 & -> & Hco2 & HF2).
        assert (frames md2 !! slot = Some f) as Hf2 by (by rewrite HF2, HFv).
        destruct (pin_load_coherent name md2 md2 slot pid w1 f Hco2 eq_refl eq_refl
                    Hpid Hf2) as (md3 & w2 & -> & Hco3).
        by exists RC_OK, (with_md md3 bm), (mkPageHandle pid (Some slot)), w2, md3.
      * by exists RC_READ_NON_EXISTING_PAGE, (with_md mdv bm), ph, w, mdv.
Qed.

Lemma flush_writes_coherent name targets md w :
  coherent name md w →
  (∀ f, f ∈ targets → ∃ i, frames md !! i = Some f) →
  coherent name (set_fh (flush_writes targets (fh md) w).1 md)
    (flush_writes targets (fh md) w).2.
Proof.
  revert md w. induction targets as [|f targets IH]; intros md w Hco Hin.
  - simpl. by destruct md.
  - destruct (Hin f) as [i Hf]; [by left|].
    destruct (writeBlock_coherent name md w i f Hco Hf) as (rc & h1 & w1 & Hw & _ & Hnext).
    unfold flush_writes. simpl. rewrite Hw. simpl.
    specialize (IH (set_fh h1 md) w1). apply IH.
    + apply Hnext; [done|]. apply same_frames_refl.
    + intros g Hg. apply Hin. by right.
Qed.

Lemma forceFlushPool_coherent name bm md w :
  mgmtData bm = Some md → coherent name md w →
  ∃ md1 w1, forceFlushPool bm w = (RC_OK, with_md md1 bm, w1)
            ∧ coherent name md1 w1.
Proof.
  intros Hmd Hco. unfold forceFlushPool. rewrite Hmd, flush_loop_spec.
  do 2 eexists. split; [done|].
  eapply coherent_ext; [| |apply (flush_writes_coherent name (flush_targets (frames md)))].
  - done.
  - simpl. intros j g' Hg'. apply list_lookup_fmap_Some in Hg' as (g & -> & Hg).
    exists g. split; [done|]. by destruct (_ && _).
  - done.
  - intros f Hf. apply list_elem_of_filter in Hf as [_ Hf].
    by apply list_elem_of_lookup in Hf.
Qed.

Lemma forcePage_coherent name bm md ph w :
  mgmtData bm = Some md → coherent name md w →
  ∀ md1, mgmtData (forcePage bm ph w).1.2 = Some md1 →
         coherent name md1 (forcePage bm ph w).2.
Proof.
  intros Hmd Hco md1. unfold forcePage. rewrite Hmd.
  destruct (findPage _ _ _) as [i|] eqn:Hi; [|simpl; congruence].
  apply findPage_Some in Hi as (f & _ & Hf & Hp). rewrite Nat.sub_0_r in Hf.
  rewrite Hf, <- Hp. simpl default.
  destruct (writeBlock_coherent name md w i f Hco Hf) as (rc & h1 & w1 & -> & _ & Hnext).
  simpl. intros [= <-]. apply Hnext; [done|]. simpl.
  intros j g' Hg'. by apply (payload_alter_keep (set_dirty false) i).
Qed.

Lemma step_coherent name op bm w md :
  mgmtData bm = Some md → pool_inv md → coherent name md w →
  ∃ rc bm1 w1, step op bm w = Some (rc, bm1, w1)
    ∧ ∀ md1, mgmtData bm1 = Some md1 → pool_inv md1 ∧ coherent name md1 w1.
Proof.
  intros Hmd Hinv Hco.
  destruct (step_trans op bm w md Hmd Hinv) as (rc & bm1 & w1 & Hstep & Htr).
  exists rc, bm1, w1. split; [done|]. intros md1 Hmd1.
  split; [by eapply pool_trans_inv; [apply Htr|]|].
  destruct op as [pid|p|p|p| |]; simpl in Hstep.
  - destruct (pinPage_coherent name bm md (mkPageHandle NO_PAGE None) pid w Hmd Hinv Hco)
      as (rc' & bm' & ph' & w' & md' & Hpin & Hmd' & Hco').
    rewrite Hpin in Hstep. injection Hstep as <- <- <-. congruence.
  - unfold unpinPage in Hstep. rewrite Hmd in Hstep.
    destruct (findPage _ _ _) as [i|]; [|simplify_eq; congruence].
    destruct (0 <? _); [|simplify_eq; congruence].
    injection Hstep as <- <- <-. injection Hmd1 as <-.
    apply coherent_alter; [|done]. by intros f.
  - unfold markDirty in Hstep. rewrite Hmd in Hstep.
    destruct (findPage _ _ _) as [i|]; [|simplify_eq; congruence].
    injection Hstep as <- <- <-. injection Hmd1 as <-.
    apply coherent_alter; [|done]. by intros f.
  - injection Hstep as Hstep.
    pose proof (forcePage_coherent name bm md (mkPageHandle p None) w Hmd Hco md1) as Hfp.
    rewrite Hstep in Hfp. by apply Hfp.
  - destruct (forceFlushPool_coherent name bm md w Hmd Hco) as (md' & w' & Hff & Hco').
    rewrite Hff in Hstep. injection Hstep as <- <- <-. simpl in Hmd1. congruence.
  - unfold shutdownBufferPool in Hstep. rewrite Hmd in Hstep.
    destruct (flush_loop _ _ _ _ _) as [[[? ?] ?] ?].
    destruct (closePageFile _ _) as [[? ?] ?]. by simplify_eq.
Qed.

Lemma run_coherent name ops bm w :
  (∀ md, mgmtData bm = Some md → pool_inv md ∧ coherent name md w) →
  ∃ rcs bm1 w1, run ops bm w = Some (rcs, bm1, w1)
    ∧ ∀ md1, mgmtData bm1 = Some md1 → pool_inv md1 ∧ coherent name md1 w1.
Proof.
  revert bm w. induction ops as [|op ops IH]; intros bm w Hinv; simpl.
  - by exists [], bm, w.
  - assert (∃ rc bm1 w1, step op bm w = Some (rc, bm1, w1)
              ∧ ∀ md1, mgmtData bm1 = Some md1 → pool_inv md1 ∧ coherent name md1 w1)
      as (rc & bm1 & w1 & -> & Hinv1).
    { destruct (mgmtData bm) as [md|] eqn:Hmd.
      - destruct (Hinv md eq_refl). by apply (step_coherent name op bm w md).
      - rewrite step_uninitialised by done. do 3 eexists. split; [done|]. congruence. }
    destruct (IH bm1 w1 Hinv1) as (rcs & bm2 & w2 & -> & Hinv2).
    by exists (rc :: rcs), bm2, w2.
Qed.

Lemma run_length ops bm w rcs bm1 w1 :
  run ops bm w = Some (rcs, bm1, w1) → length rcs = length ops.
Proof.
  revert bm w rcs. induction ops as [|op ops IH]; intros bm w rcs; simpl.
  - by intros [= <- _ _].
  - destruct (step op bm w) as [[[rc bmx] wx]|]; [|done].
    destruct (run ops bmx wx) as [[[rcs' bmy] wy]|] eqn:Hr; [|done].
    intros [= <- <- <-]. simpl. f_equal. by apply (IH bmx wx).
Qed.

Lemma initBufferPool_coherent bm0 name c k numPages s w :
  (0 < PAGE_SIZE)%nat → faults w = [] → files w !! name = Some c →
  length c = (k * PAGE_SIZE)%nat →
  ∃ bm md, initBufferPool bm0 name numPages s w = Some (RC_OK, bm, w)
    ∧ mgmtData bm = Some md ∧ pool_inv md ∧ coherent name md w.
Proof.
  intros Hps Hq Hfile Hlen.
  destruct (openPageFile_ok name c k w Hq Hfile Hps Hlen) as (h & Hopen & Hh & Ht).
  destruct (initBufferPool bm0 name numPages s w) as [[[rc bm] w1]|] eqn:Hinit.
  2:{ unfold initBufferPool in Hinit. by rewrite Hopen in Hinit. }
  assert (rc = RC_OK ∧ w1 = w ∧ ∃ md, mgmtData bm = Some md ∧ fh md = h)
    as (-> & -> & md & Hmd & Hfh).
  { unfold initBufferPool in Hinit. rewrite Hopen in Hinit. simpl in Hinit.
    injection Hinit as <- <- <-. split_and!; try done. by eexists. }
  exists bm, md. split; [done|]. split; [done|].
  destruct (initBufferPool_inv _ _ _ _ _ _ _ _ Hinit Hmd) as [Hinv _].
  split; [done|].
  destruct (initBufferPool_frames _ _ _ _ _ _ _ _ Hinit Hmd) as (HF & _).
  exists c. rewrite Hfh. split; [done|]. rewrite HF.
  intros i f [-> _]%lookup_replicate. simpl.
  split_and!; [by rewrite length_replicate|done|done].
Qed.

Lemma session_coherent s bm0 name c k numPages ops w :
  (0 < PAGE_SIZE)%nat → faults w = [] → files w !! name = Some c →
  length c = (k * PAGE_SIZE)%nat →
  ∃ rcs bm w1,
    session s bm0 name numPages ops w = Some (RC_OK, rcs, bm, w1)
    ∧ length rcs = length ops
    ∧ ∀ md, mgmtData bm = Some md → pool_inv md ∧ coherent name md w1.
Proof.
  intros Hps Hq Hfile Hlen.
  destruct (initBufferPool_coherent bm0 name c k numPages s w Hps Hq Hfile Hlen)
    as (bm & md & Hinit & Hmd & Hinv & Hco).
  destruct (run_coherent name ops bm w) as (rcs & bm1 & w1 & Hrun & Hfin).
  { intros md' Hmd'. assert (md' = md) as -> by congruence. done. }
  exists rcs, bm1, w1. unfold session. rewrite Hinit. simpl. rewrite Hrun.
  split; [done|]. split; [|done].
  by apply (run_length ops bm w rcs bm1 w1).
Qed.

(** X21. A session in which no library call fails, over a file of whole
    pages: every call returns, no fault is left pending, and at the end the
    file handle, the file and the frames agree: the file has as many bytes
    as the handle counts pages, and every frame that holds a page holds the
    bytes this page has in the file, whatever was pinned, evicted, written
    back or flushed on the way. *)
Theorem fault_free_session_stays_coherent (s : ReplacementStrategy)
    (bm0 : BM_BufferPool) (name : string) (c : list byte) (k : nat)
    (numPages : Z) (ops : list PoolOp) (w : World) :
  (0 < PAGE_SIZE)%nat →
  faults w = [] →
  files w !! name = Some c →
  length c = (k * PAGE_SIZE)%nat →
  ∃ rcs bm w1,
    session s bm0 name numPages ops w = Some (RC_OK, rcs, bm, w1)
    ∧ length rcs = length ops
    ∧ ∀ md, mgmtData bm = Some md →
        ∃ c1, faults w1 = []
          ∧ files w1 !! name = Some c1
          ∧ length c1 = (Z.to_nat (totalNumPages (fh md)) * PAGE_SIZE)%nat
          ∧ ∀ i f, frames md !! i = Some f → pageId f ≠ NO_PAGE →
              0 ≤ pageId f < totalNumPages (fh md)
              ∧ data f = page_of c1 (Z.to_nat (pageId f)).
Proof.
  intros Hps Hq Hfile Hlen.
  destruct (session_coherent s bm0 name c k numPages ops w Hps Hq Hfile Hlen)
    as (rcs & bm & w1 & Hs & Hl & Hfin).
  exists rcs, bm, w1. split; [done|]. split; [done|].
  intros md Hmd. destruct (Hfin md Hmd) as (_ & c1 & Hh & Hfr).
  destruct Hh as (Hq1 & Hf1 & _ & Hl1 & _).
  exists c1. split_and!; try done.
  intros i f Hf Hne. destruct (Hfr i f Hf) as (_ & Hno & Hco).
  destruct (Hco Hne) as [? ?]. unfold NO_PAGE in *. split; [lia|done].
Qed.

(** ** Dirty pages reach the file *)

Lemma resident_unique_tail f F : resident_unique (f :: F) → resident_unique F.
Proof.
  intros Hu i j fi fj Hi Hj Hp Hn.
  assert (S i = S j) as [= ->]; [|done]. by apply (Hu (S i) (S j) fi fj).
Qed.

Lemma flush_targets_NoDup F :
  resident_unique F → NoDup (pageId <$> flush_targets F).
Proof.
  unfold flush_targets. induction F as [|f F IH]; intros Hu; [constructor|].
  specialize (IH (resident_unique_tail _ _ Hu)).
  destruct (decide (flushable f = true)) as [Hfl|Hfl].
  - rewrite filter_cons_True by done. rewrite fmap_cons. constructor; [|done].
    intros Hin. apply list_elem_of_fmap in Hin as (g & Hpg & Hg).
    apply list_elem_of_filter in Hg as [_ Hg].
    apply list_elem_of_lookup in Hg as [j Hj].
    apply flushable_spec in Hfl as (Hne & _).
    by specialize (Hu 0%nat (S j) f g eq_refl Hj Hpg Hne).
  - by rewrite filter_cons_False by done.
Qed.

Lemma flush_writes_pages name targets c h w :
  handle_on name c h w →
  Forall (λ f, length (data f) = PAGE_SIZE ∧ 0 ≤ pageId f) targets →
  NoDup (pageId <$> targets) →
  ∃ c1, handle_on name c1 (flush_writes targets h w).1 (flush_writes targets h w).2
    ∧ totalNumPages h ≤ totalNumPages (flush_writes targets h w).1
    ∧ (∀ f, f ∈ targets →
         pageId f < totalNumPages (flush_writes targets h w).1
         ∧ page_of c1 (Z.to_nat (pageId f)) = data f)
    ∧ (∀ q, 0 ≤ q < totalNumPages h → q ∉ pageId <$> targets →
         page_of c1 (Z.to_nat q) = page_of c (Z.to_nat q)).
Proof.
  revert c h w. induction targets as [|f targets IH]; intros c h w Hh Hall Hnd.
  - exists c. simpl. split_and!; [done|lia| |done]. intros f Hf. by apply elem_of_nil in Hf.
  - apply Forall_cons in Hall as [[Hlen Hp] Hall].
    rewrite fmap_cons in Hnd. apply NoDup_cons in Hnd as [Hnotin Hnd].
    destruct (writeBlock_pages name c h w (pageId f) (data f) Hh Hlen)
      as (rc & h1 & w1 & c' & Hw & Hh1 & Ht1 & Hkeep & Hpage).
    destruct (Hpage Hp) as (_ & Hlt & Hpf).
    destruct (IH c' h1 w1 Hh1 Hall Hnd) as (c1 & Hh2 & Ht2 & Hin & Hout).
    unfold flush_writes in *. simpl. rewrite Hw. simpl.
    exists c1. split_and!; [done|lia| |].
    + intros g [->|Hg]%elem_of_cons; [|by apply Hin].
      split; [lia|]. rewrite Hout; [done|lia|done].
    + intros q Hq Hnot.
      apply not_elem_of_cons in Hnot as [Hne Hnot].
      rewrite Hout; [|lia|done]. by apply Hkeep.
Qed.

(** X18. [forceFlushPool], no fault pending: afterwards the file holds, for
    every frame that was resident, dirty and not pinned, the bytes of that
    frame as the page it holds; every other page of the file is as before,
    and the file handle still agrees with the file. *)
Theorem forceFlushPool_writes_to_disk (name : string) (c : list byte)
    (bm : BM_BufferPool) (md : PoolMetadata) (w : World) :
  mgmtData bm = Some md →
  handle_on name c (fh md) w →
  resident_unique (frames md) →
  Forall (λ f, length (data f) = PAGE_SIZE ∧ NO_PAGE ≤ pageId f) (frames md) →
  ∃ md1 w1 c1,
    forceFlushPool bm w = (RC_OK, with_md md1 bm, w1)
    ∧ handle_on name c1 (fh md1) w1
    ∧ (∀ f, f ∈ frames md → flushable f = true →
         page_of c1 (Z.to_nat (pageId f)) = data f)
    ∧ (∀ q, 0 ≤ q < totalNumPages (fh md) →
         (∀ f, f ∈ frames md → flushable f = true → pageId f ≠ q) →
         page_of c1 (Z.to_nat q) = page_of c (Z.to_nat q))
    ∧ data <$> frames md1 = data <$> frames md
    ∧ getFrameContents md1 = getFrameContents md.
Proof.
  intros Hmd Hh Hu Hall. unfold forceFlushPool. rewrite Hmd, flush_loop_spec.
  destruct (flush_writes_pages name (flush_targets (frames md)) c (fh md) w Hh)
    as (c1 & Hh1 & _ & Hin & Hout).
  { apply Forall_forall. intros f Hf. apply list_elem_of_filter in Hf as [Hfl Hf].
    apply flushable_spec in Hfl as (Hne & _).
    destruct (proj1 (Forall_forall _ _) Hall f Hf) as [? ?].
    unfold NO_PAGE in *. split; [done|lia]. }
  { by apply flush_targets_NoDup. }
  do 2 eexists. exists c1. split; [done|]. simpl. split_and!; [done| | | |].
  - intros f Hf Hfl. apply Hin. by apply list_elem_of_filter.
  - intros q Hq Hnone. apply Hout; [done|].
    intros (f & -> & Hf)%list_elem_of_fmap. apply list_elem_of_filter in Hf as [Hfl Hf].
    by apply (Hnone f).
  - rewrite <- list_fmap_compose. apply list_fmap_ext. intros i f _. simpl.
    by destruct (_ && _).
  - unfold getFrameContents. simpl. rewrite <- list_fmap_compose.
    apply list_fmap_ext. intros i f _. simpl. by destruct (_ && _).
Qed.

Lemma payload_alter_lookup (F F' : list Frame) g slot f :
  payload <$> F' = payload <$> alter g slot F → F !! slot = Some f →
  ∃ f1, F' !! slot = Some f1 ∧ payload f1 = payload (g f).
Proof.
  intros Hpl Hf.
  assert (is_Some (F' !! slot)) as [f1 Hf1].
  { apply lookup_lt_is_Some. rewrite <- (length_fmap payload), Hpl.
    rewrite length_fmap, length_alter. by eapply lookup_lt_Some. }
  exists f1. split; [done|].
  destruct (payload_lookup _ _ _ _ Hpl Hf1) as (g1 & Hg & Hgp).
  rewrite list_lookup_alter_eq, Hf in Hg. simpl in Hg.
  injection Hg as <-. by rewrite <- Hgp.
Qed.

(** X17. [forcePage], no fault pending, on a resident page: the bytes of the
    frame become that page of the file, pinned or not; the other pages
    of the file are as before, the dirty flag of the frame is cleared and the
    write counter advances by one; fix counts, page ids and frame bytes do
    not change. *)
Theorem forcePage_writes_frame_to_disk (name : string) (c : list byte)
    (bm : BM_BufferPool) (md : PoolMetadata) (ph : BM_PageHandle) (w : World)
    (i : nat) (f : Frame) :
  mgmtData bm = Some md →
  handle_on name c (fh md) w →
  resident_unique (frames md) →
  frames md !! i = Some f →
  pageId f = pageNum ph →
  0 ≤ pageNum ph →
  length (data f) = PAGE_SIZE →
  ∃ md1 w1 c1,
    forcePage bm ph w = (RC_OK, with_md md1 bm, w1)
    ∧ handle_on name c1 (fh md1) w1
    ∧ page_of c1 (Z.to_nat (pageNum ph)) = data f
    ∧ (∀ q, 0 ≤ q < totalNumPages (fh md) → q ≠ pageNum ph →
         page_of c1 (Z.to_nat q) = page_of c (Z.to_nat q))
    ∧ getDirtyFlags md1 = <[i := false]> (getDirtyFlags md)
    ∧ getFixCounts md1 = getFixCounts md
    ∧ getFrameContents md1 = getFrameContents md
    ∧ data <$> frames md1 = data <$> frames md
    ∧ writeIO md1 = (writeIO md + 1) mod 2 ^ 32
    ∧ readIO md1 = readIO md.
Proof.
  intros Hmd Hh Hu Hf Hp Hpos Hlen. unfold forcePage. rewrite Hmd.
  assert (findPage (pageNum ph) (frames md) 0 = Some i) as ->.
  { rewrite <- Hp. apply findPage_resident; [done..|]. unfold NO_PAGE. lia. }
  rewrite Hf. simpl default.
  destruct (writeBlock_pages name c (fh md) w (pageNum ph) (data f) Hh Hlen)
    as (rc & h1 & w1 & c1 & -> & Hh1 & _ & Hkeep & Hpage).
  destruct (Hpage Hpos) as (_ & _ & Hpf).
  do 2 eexists. exists c1. split; [done|]. simpl.
  unfold getDirtyFlags, getFixCounts, getFrameContents, uincr.
  simpl. split_and!; try done.
  - by rewrite (fmap_alter_insert isDirty (set_dirty false) i f).
  - by apply fmap_alter_keep.
  - by apply fmap_alter_keep.
  - by apply fmap_alter_keep.
Qed.

Lemma pin_scan_full pid F i fr :
  Forall (λ g, pageId g ≠ pid ∧ pageId g ≠ NO_PAGE) F →
  pin_scan pid F i fr = inr fr.
Proof.
  revert i fr. induction F as [|f F IH]; intros i fr Hall; simpl; [done|].
  apply Forall_cons in Hall as [[Hp Hn] Hall].
  rewrite (proj2 (Z.eqb_neq _ _) Hp), (proj2 (Z.eqb_neq _ _) Hn). simpl. by apply IH.
Qed.

Lemma selectVictim_fh md v md1 :
  selectVictim md = Some (v, md1) → fh md1 = fh md.
Proof.
  unfold selectVictim. case_bool_decide.
  - intros [= Hs]. pose proof (fifo_scan_spec (Z.to_nat (fifoCount md)) md) as Hspec.
    rewrite Hs in Hspec. simpl in Hspec. by destruct Hspec as (_ & _ & _ & ? & _).
  - destruct (lru_scan _ _ _); [|done]. by intros [= _ <-].
Qed.

(** X20. Eviction, no fault pending: when [pinPage] finds the page in no frame,
    finds no empty frame, and the replacement strategy picks the victim
    [slot], the call returns [RC_OK]; if the victim was dirty, the file
    afterwards holds its bytes as its page, and the write counter has
    advanced; if it was clean, no page of the file has changed.  The victim's
    frame then holds the page asked for, with the bytes the file has for it,
    clean and pinned once. *)
Theorem pinPage_eviction_writes_back (name : string) (c : list byte)
    (bm : BM_BufferPool) (md mdv : PoolMetadata) (ph : BM_PageHandle)
    (pid : PageNumber) (w : World) (slot : nat) (f : Frame) :
  mgmtData bm = Some md →
  handle_on name c (fh md) w →
  0 ≤ pid →
  Forall (λ g, pageId g ≠ pid ∧ pageId g ≠ NO_PAGE) (frames md) →
  selectVictim md = Some (Some slot, mdv) →
  frames md !! slot = Some f →
  0 ≤ pageId f →
  length (data f) = PAGE_SIZE →
  ∃ md1 w1 c1 f1,
    pinPage bm ph pid w
    = Some (RC_OK, with_md md1 bm, mkPageHandle pid (Some slot), w1)
    ∧ handle_on name c1 (fh md1) w1
    ∧ (isDirty f = true → page_of c1 (Z.to_nat (pageId f)) = data f)
    ∧ (isDirty f = false →
       ∀ q, 0 ≤ q < totalNumPages (fh md) →
            page_of c1 (Z.to_nat q) = page_of c (Z.to_nat q))
    ∧ frames md1 !! slot = Some f1
    ∧ payload f1 = (pid, page_of c1 (Z.to_nat pid), false, 1)
    ∧ writeIO md1 = (if isDirty f then (writeIO md + 1) mod 2 ^ 32 else writeIO md)
    ∧ readIO md1 = (readIO md + 1) mod 2 ^ 32.
Proof.
  intros Hmd Hh Hpid Hfull Hsel Hf Hpf Hlen.
  destruct (selectVictim_counters md _ _ Hsel) as (HFv & Hrv & Hwv).
  pose proof (selectVictim_fh md _ _ Hsel) as Hfhv.
  unfold pinPage. rewrite Hmd, (proj2 (Z.ltb_ge pid 0)) by done.
  rewrite pin_scan_full by done. simpl. rewrite Hsel.
  assert (frames mdv !! slot = Some f) as Hfv by (by rewrite HFv).
  pose proof Hh as (_ & _ & _ & Hclen & _).
  (* the write-back *)
  assert (∃ rcw md2 w1 c',
            pin_writeback mdv slot w = (rcw, md2, w1)
            ∧ handle_on name c' (fh md2) w1
            ∧ frames md2 = frames md
            ∧ totalNumPages (fh md) ≤ totalNumPages (fh md2)
            ∧ (isDirty f = true →
               pageId f < totalNumPages (fh md2)
               ∧ page_of c' (Z.to_nat (pageId f)) = data f)
            ∧ (isDirty f = false → c' = c)
            ∧ writeIO md2 = (if isDirty f then uincr (writeIO md) else writeIO md)
            ∧ readIO md2 = readIO md)
    as (rcw & md2 & w1 & c' & -> & Hh2 & HF2 & Ht2 & Hdirty & Hclean & Hw2 & Hr2).
  { unfold pin_writeback. rewrite Hfv. destruct (isDirty f).
    - rewrite Hfhv in *.
      destruct (writeBlock_pages name c (fh md) w (pageId f) (data f) Hh Hlen)
        as (rc & h1 & w1 & c' & -> & Hh1 & Ht1 & _ & Hpage).
      destruct (Hpage Hpf) as (_ & ? & ?).
      do 3 eexists. exists c'. split; [done|]. simpl.
      split_and!; try done; by rewrite Hwv.
    - exists RC_OK, mdv, w, c. rewrite Hfhv. split_and!; try done; lia. }
  (* the load *)
  assert (frames md2 !! slot = Some f) as Hf2 by (by rewrite HF2).
  destruct (pin_load_ok name c' md2 slot pid w1 f Hh2 Hpid Hf2 Hlen)
    as (md3 & w2 & c1 & Hload & Hh3 & Ht3 & Hc1 & Hpl).
  destruct (payload_alter_lookup _ _ _ _ _ Hpl Hf2) as (f1 & Hf1 & Hp1).
  pose proof Hh2 as (_ & _ & _ & Hclen2 & _).
  destruct (pin_load_counters md2 slot pid w1) as [Hr3 Hw3].
  rewrite Hload in Hr3, Hw3 |- *. simpl in Hr3, Hw3.
  exists md3, w2, c1, f1. split; [done|].
  change ((writeIO md + 1) mod 2 ^ 32) with (uincr (writeIO md)).
  change ((readIO md + 1) mod 2 ^ 32) with (uincr (readIO md)).
  split_and!; try done.
  - intros Hd. destruct (Hdirty Hd) as [Hlt <-]. rewrite Hc1.
    apply page_of_app_l. rewrite Hclen2.
    assert (Z.to_nat (pageId f) < Z.to_nat (totalNumPages (fh md2)))%nat by lia. nia.
  - intros Hd q Hq. rewrite Hc1, <- (Hclean Hd). apply page_of_app_l. rewrite Hclen2.
    assert (Z.to_nat q < Z.to_nat (totalNumPages (fh md2)))%nat by lia. nia.
  - congruence.
  - congruence.
Qed.

(** ** Force flush *)




(** ** Pinning and unpinning *)

(** What a successful [pinPage] has done to the frames: a hit adds one to
    the fix count of the frame that holds the page; a miss loads the page
    into a frame. *)
Lemma pinPage_ok_payload bm md ph pid w bm1 ph1 w1 :
  mgmtData bm = Some md → pool_inv md →
  pinPage bm ph pid w = Some (RC_OK, bm1, ph1, w1) →
  ∃ md1 i f,
    mgmtData bm1 = Some md1 ∧ ph1 = mkPageHandle pid (Some i) ∧ 0 ≤ pid
    ∧ frames md !! i = Some f
    ∧ ((pageId f = pid ∧ w1 = w
        ∧ payload <$> frames md1
          = payload <$> alter (λ g, set_pin (pinCount g + 1) g) i (frames md))
       ∨ (Forall (λ g, pageId g ≠ pid) (frames md)
          ∧ ∃ buf, payload <$> frames md1
                   = payload <$> alter (λ g, loaded pid (set_data buf g)) i
                                   (frames md))).
Proof.
  intros Hmd Hinv. unfold pinPage. rewrite Hmd.
  destruct (Z.ltb_spec pid 0) as [Hneg|Hpid]; [done|].
  destruct (pin_scan pid (frames md) 0 (-1)) as [i|z] eqn:Hscan.
  - apply pin_scan_hit in Hscan as (f & _ & Hf & Hfp & _). rewrite Nat.sub_0_r in Hf.
    intros [= <- <- <-]. do 3 eexists. split; [done|]. split_and!; try done.
    left. split_and!; try done.
    destruct (_ || _); [|done]. by rewrite moveToLRUHead_payload.
  - pose proof (pin_scan_miss _ _ _ _ _ Hscan) as Hmiss.
    destruct (Z.leb_spec 0 z) as [Hz|Hz].
    + apply pin_scan_free in Hscan; [|done].
      destruct Hscan as [[-> _]|(f & _ & _ & Hf & _)]; [lia|].
      rewrite Nat.sub_0_r in Hf.
      destruct (pin_load_frames md (Z.to_nat z) pid w) as [buf Hpl].
      destruct (pin_load md (Z.to_nat z) pid w) as [[[rg rr] md1] w'].
      intros [= <- <- <-]. exists md1, (Z.to_nat z), f. split_and!; try done.
      right. split; [done|]. by exists buf.
    + destruct (selectVictim_spec md Hinv)
        as (v & mdv & -> & HFv & _ & _ & _ & _ & _ & Hv).
      destruct v as [slot|]; [|done].
      destruct (Hv slot eq_refl) as (f & Hf & _).
      destruct (pin_writeback_spec mdv slot w) as (HF2 & _).
      destruct (pin_writeback mdv slot w) as [[rcw md2] w']. simpl in HF2.
      destruct (pin_load_frames md2 slot pid w') as [buf Hpl].
      destruct (pin_load md2 slot pid w') as [[[rg rr] md3] w''].
      intros [= <- <- <-]. exists md3, slot, f. split_and!; try done.
      right. split; [done|]. exists buf. by rewrite <- HFv, <- HF2.
Qed.

(** X14. Pin, then unpin.  In a state that satisfies the pool invariant, after
    a successful [pinPage] the handle names a frame that holds the page with
    a fix count of at least one, and [unpinPage] with that handle returns
    [RC_OK] and takes exactly one from that fix count, changing nothing else
    a client can see.  If the page was already resident, the pair of calls
    leaves page ids, fix counts, dirty flags, bytes and the world as they
    were before the pin. *)
Theorem pinPage_then_unpinPage (bm : BM_BufferPool) (md : PoolMetadata)
    (ph : BM_PageHandle) (pid : PageNumber) (w : World) (bm1 : BM_BufferPool)
    (ph1 : BM_PageHandle) (w1 : World) :
  mgmtData bm = Some md →
  pool_inv md →
  pinPage bm ph pid w = Some (RC_OK, bm1, ph1, w1) →
  ∃ md1 md2 i n,
    mgmtData bm1 = Some md1
    ∧ ph1 = mkPageHandle pid (Some i)
    ∧ getFrameContents md1 !! i = Some pid
    ∧ getFixCounts md1 !! i = Some (n + 1)
    ∧ 0 ≤ n
    ∧ unpinPage bm1 ph1 = (RC_OK, with_md md2 bm1)
    ∧ getFixCounts md2 = <[i := n]> (getFixCounts md1)
    ∧ getFrameContents md2 = getFrameContents md1
    ∧ getDirtyFlags md2 = getDirtyFlags md1
    ∧ data <$> frames md2 = data <$> frames md1
    ∧ (Exists (λ f, pageId f = pid) (frames md) →
       w1 = w
       ∧ getFixCounts md2 = getFixCounts md
       ∧ getFrameContents md2 = getFrameContents md
       ∧ getDirtyFlags md2 = getDirtyFlags md
       ∧ data <$> frames md2 = data <$> frames md).
Proof.
  intros Hmd Hinv Hpin.
  destruct (pinPage_ok_payload _ _ _ _ _ _ _ _ Hmd Hinv Hpin)
    as (md1 & i & f & Hmd1 & -> & Hpid & Hf & Hcase).
  assert (pool_inv md1) as (Hok1 & Hu1 & _).
  { destruct (pinPage_trans True bm md ph pid w Hmd Hinv)
      as (rc' & bm' & ph' & w' & md' & Hpin' & Hmd' & Htr).
    rewrite Hpin in Hpin'. injection Hpin' as <- <- <- <-.
    assert (md' = md1) as -> by congruence. by eapply pool_trans_inv. }
  destruct Hinv as (Hok & _).
  pose proof (Forall_lookup_1 _ _ _ _ Hok Hf) as [Hpin0 _].
  assert (∃ f1, frames md1 !! i = Some f1 ∧ pageId f1 = pid
                ∧ ∃ n, pinCount f1 = n + 1 ∧ 0 ≤ n
                  ∧ (pageId f = pid →
                     w1 = w ∧ payload <$> frames md1
                              = payload <$> alter (λ g, set_pin (pinCount g + 1) g) i
                                              (frames md)))
    as (f1 & Hf1 & Hp1 & m & Hm & Hm0 & Hhit).
  { destruct Hcase as [(Hfp & -> & Hpl)|(Hmiss & buf & Hpl)].
    - destruct (payload_alter_lookup _ _ _ _ _ Hpl Hf) as (f1 & Hf1 & Hp).
      unfold payload in Hp. simpl in Hp. injection Hp as ? ? ? ?.
      exists f1. split_and!; [done|congruence|]. exists (pinCount f). by split_and!.
    - destruct (payload_alter_lookup _ _ _ _ _ Hpl Hf) as (f1 & Hf1 & Hp).
      unfold payload in Hp. simpl in Hp. injection Hp as ? ? ? ?.
      exists f1. split_and!; [done|done|]. exists 0. split_and!; [done|done|].
      intros Hfp. by destruct (Forall_lookup_1 _ _ _ _ Hmiss Hf). }
  assert (findPage pid (frames md1) 0 = Some i) as Hfind.
  { rewrite <- Hp1. apply findPage_resident; [done..|]. unfold NO_PAGE. lia. }
  set (md2 := set_frames (alter (λ g, set_pin (pinCount g - 1) g) i (frames md1)) md1).
  assert (unpinPage bm1 (mkPageHandle pid (Some i)) = (RC_OK, with_md md2 bm1)) as Hun.
  { unfold unpinPage. rewrite Hmd1. simpl. rewrite Hfind, Hf1. simpl.
    by rewrite (proj2 (Z.ltb_lt 0 (pinCount f1))) by lia. }
  assert (getFixCounts md2 = <[i := m]> (getFixCounts md1)) as Hfix.
  { unfold getFixCounts, md2. simpl.
    rewrite (fmap_alter_insert pinCount (λ g, set_pin (pinCount g - 1) g) i f1 _ Hf1).
    simpl. f_equal. lia. }
  assert (getFrameContents md2 = getFrameContents md1
          ∧ getDirtyFlags md2 = getDirtyFlags md1
          ∧ data <$> frames md2 = data <$> frames md1) as (Hc2 & Hd2 & Hb2).
  { unfold getFrameContents, getDirtyFlags, md2. simpl.
    split_and!; by apply fmap_alter_keep. }
  exists md1, md2, i, m. split_and!; try done.
  - unfold getFrameContents. by rewrite list_lookup_fmap, Hf1, <- Hp1.
  - unfold getFixCounts. by rewrite list_lookup_fmap, Hf1, <- Hm.
  - intros Hex. apply Exists_exists in Hex as (g & Hg & Hgp).
    assert (pageId f = pid) as Hfp.
    { destruct Hcase as [(? & _)|(Hmiss & _)]; [done|].
      by destruct (proj1 (Forall_forall _ _) Hmiss g Hg). }
    destruct (Hhit Hfp) as [-> Hpl].
    destruct (payload_projections _ _ Hpl) as (Hq1 & Hq2 & Hq3 & Hq4).
    rewrite Hfix, Hc2, Hd2, Hb2.
    unfold getFixCounts, getFrameContents, getDirtyFlags.
    rewrite Hq1, Hq2, Hq3, Hq4.
    rewrite (fmap_alter_insert pinCount (λ g, set_pin (pinCount g + 1) g) i f _ Hf).
    rewrite list_insert_insert_eq.
    split_and!; try done; try (by apply fmap_alter_keep).
    apply list_insert_id. rewrite list_lookup_fmap, Hf. simpl.
    assert (pinCount f1 = pinCount f + 1) as Hpf.
    { destruct (payload_alter_lookup _ _ _ _ _ Hpl Hf) as (f1' & Hf1' & Hp).
      assert (f1' = f1) as -> by congruence.
      unfold payload in Hp. simpl in Hp. by injection Hp as ? ? ? ?. }
    f_equal. lia.
Qed.

(** ** The LRU order *)

Lemma filter_ne_notin (l : list nat) i : i ∉ l → filter (λ j, j ≠ i) l = l.
Proof.
  induction l as [|a l IH]; intros Hn; [done|].
  apply not_elem_of_cons in Hn as [Ha Hn].
  rewrite filter_cons_True by done. by rewrite IH.
Qed.

Lemma filter_ne_split (l1 l2 : list nat) i :
  NoDup (l1 ++ i :: l2) → filter (λ j, j ≠ i) (l1 ++ i :: l2) = l1 ++ l2.
Proof.
  intros Hnd. apply NoDup_app in Hnd as (_ & Hdis & Hnd2).
  apply NoDup_cons in Hnd2 as [Hn2 _].
  rewrite filter_app, filter_cons_False by (by intros ?).
  rewrite !filter_ne_notin; [done|done|]. intros Hin. apply (Hdis i Hin). by left.
Qed.

Lemma moveToLRUHead_order md l i :
  lru_repr md l → (i < length (frames md))%nat →
  lru_repr (moveToLRUHead md (Some i)) (i :: filter (λ j, j ≠ i) l).
Proof.
  intros Hr Hi. destruct (decide (i ∈ l)) as [Hin|Hnin].
  - apply list_elem_of_split in Hin as (l1 & l2 & ->).
    pose proof Hr as (Hnd & Hhd & _). rewrite filter_ne_split by done.
    destruct l1 as [|h l1].
    + unfold moveToLRUHead. by rewrite bool_decide_eq_true_2.
    + by apply moveToLRUHead_member.
  - rewrite filter_ne_notin by done. by apply moveToLRUHead_fresh.
Qed.

Lemma lru_repr_alter_keep md l g i :
  (∀ f, prev (g f) = prev f ∧ next (g f) = next f) →
  lru_repr md l → lru_repr (set_frames (alter g i (frames md)) md) l.
Proof.
  intros Hk Hr. apply (lru_repr_ext md); [| |done|done|done].
  - apply length_alter.
  - intros j. simpl. split; [apply fprev_alter_keep|apply fnext_alter_keep]; apply Hk.
Qed.

Lemma pin_load_order md slot pid w l :
  lru_repr md l → (slot < length (frames md))%nat → strat md ≠ RS_FIFO →
  lru_repr (pin_load md slot pid w).1.2 (slot :: filter (λ j, j ≠ slot) l).
Proof.
  intros Hr Hs Hst. unfold pin_load.
  destruct (if totalNumPages (fh md) <=? pid then _ else _) as [[rcG h1] w1].
  destruct (readBlock _ _ _ _) as [[[rcR h2] buf1] w2]. simpl.
  set (md2 := set_frames _ _).
  assert (lru_repr md2 l) as Hr2.
  { apply (lru_repr_ext md); [| |done|done|done].
    - apply length_alter.
    - intros j. simpl. by rewrite fprev_alter_keep, fnext_alter_keep. }
  rewrite bool_decide_eq_false_2 by done.
  apply (moveToLRUHead_order md2 l slot Hr2). unfold md2. simpl.
  by rewrite length_alter.
Qed.

(** X24. Under LRU (and LRU-K, which the code treats alike), every successful
    [pinPage], hit or load, makes the frame it returns the most recently
    used one: the frame moves to the head of the LRU chain and the other
    frames keep their order. *)
Theorem lru_pin_makes_frame_most_recent (bm : BM_BufferPool) (md : PoolMetadata)
    (l : list nat) (ph : BM_PageHandle) (pid : PageNumber) (w : World)
    (bm1 : BM_BufferPool) (ph1 : BM_PageHandle) (w1 : World) :
  mgmtData bm = Some md →
  pool_inv md →
  lru_like (strat md) →
  lru_repr md l →
  pinPage bm ph pid w = Some (RC_OK, bm1, ph1, w1) →
  ∃ md1 i,
    mgmtData bm1 = Some md1
    ∧ ph1 = mkPageHandle pid (Some i)
    ∧ lru_repr md1 (i :: filter (λ j, j ≠ i) l).
Proof.
  intros Hmd Hinv Hst Hr. unfold pinPage. rewrite Hmd.
  assert (strat md ≠ RS_FIFO) as Hnf by (destruct Hst as [-> | ->]; done).
  destruct (Z.ltb_spec pid 0) as [Hneg|Hpid]; [done|].
  destruct (pin_scan pid (frames md) 0 (-1)) as [i|z] eqn:Hscan.
  - apply pin_scan_hit in Hscan as (f & _ & Hf & _). rewrite Nat.sub_0_r in Hf.
    intros [= <- <- <-]. do 2 eexists. split; [done|]. split; [done|].
    set (md1 := set_frames _ md).
    assert (bool_decide (strat md = RS_LRU) || bool_decide (strat md = RS_LRU_K) = true)
      as ->.
    { by destruct Hst as [-> | ->]. }
    apply moveToLRUHead_order.
    + by apply lru_repr_alter_keep.
    + unfold md1. simpl. rewrite length_alter. by eapply lookup_lt_Some.
  - destruct (Z.leb_spec 0 z) as [Hz|Hz].
    + apply pin_scan_free in Hscan; [|done].
      destruct Hscan as [[-> _]|(f & _ & _ & Hf & _)]; [lia|].
      rewrite Nat.sub_0_r in Hf.
      pose proof (pin_load_order md (Z.to_nat z) pid w l Hr
                    (lookup_lt_Some _ _ _ Hf) Hnf) as Hord.
      destruct (pin_load md (Z.to_nat z) pid w) as [[[rg rr] md1] w'].
      intros [= <- <- <-]. by exists md1, (Z.to_nat z).
    + destruct (selectVictim_spec md Hinv)
        as (v & mdv & Hsel & HFv & Hhv & Htv & _ & _ & _ & Hv).
      assert (mdv = md) as ->.
      { unfold selectVictim in Hsel. rewrite bool_decide_eq_false_2 in Hsel by done.
        destruct (lru_scan _ _ _); by simplify_eq. }
      rewrite Hsel. destruct v as [slot|]; [|done].
      destruct (Hv slot eq_refl) as (f & Hf & _).
      destruct (pin_writeback_spec md slot w) as (HF2 & Hh2 & Ht2 & _ & Hs2).
      destruct (pin_writeback md slot w) as [[rcw md2] w']. simpl in *.
      assert (lru_repr md2 l) as Hr2.
      { apply (lru_repr_ext md); [by rewrite HF2|by rewrite HF2|done..]. }
      assert (slot < length (frames md2))%nat as Hlt
        by (rewrite HF2; by eapply lookup_lt_Some).
      assert (strat md2 ≠ RS_FIFO) as Hnf2 by (by rewrite Hs2).
      pose proof (pin_load_order md2 slot pid w' l Hr2 Hlt Hnf2) as Hord.
      destruct (pin_load md2 slot pid w') as [[[rg rr] md3] w''].
      intros [= <- <- <-]. by exists md3, slot.
Qed.

Lemma lru_scan_victim F nx l1 v l2 f fuel :
  dll F None (l1 ++ v :: l2) nx →
  F !! v = Some f → pinCount f ≤ 0 →
  (∀ j g, j ∈ l2 → F !! j = Some g → 0 < pinCount g) →
  (length l2 ≤ fuel)%nat →
  lru_scan fuel F (last (l1 ++ v :: l2)) = Some (Some v).
Proof.
  revert nx fuel. induction l2 as [|j l2 IH] using rev_ind;
    intros nx fuel Hd Hf Hp Hpinned Hfuel.
  - rewrite last_snoc. destruct fuel; simpl; rewrite Hf;
      by rewrite (proj2 (Z.ltb_ge 0 (pinCount f))) by lia.
  - replace (l1 ++ v :: l2 ++ [j]) with ((l1 ++ v :: l2) ++ [j]) in *
      by (by rewrite <- app_assoc).
    rewrite last_snoc. apply dll_app in Hd as [Hd1 Hd2].
    apply dll_cons in Hd2 as (Hj & Hpv & _).
    destruct (lookup_lt_is_Some_2 F j Hj) as [fr Hfr].
    assert (prev fr = last (l1 ++ v :: l2)) as Hpl.
    { unfold fprev in Hpv. rewrite Hfr in Hpv. simpl in Hpv. rewrite Hpv.
      by destruct (last (l1 ++ v :: l2)). }
    rewrite length_app in Hfuel. simpl in Hfuel.
    destruct fuel as [|fuel]; [lia|]. simpl. rewrite Hfr.
    assert (0 < pinCount fr) as Hpin.
    { apply (Hpinned j fr); [|done]. apply elem_of_app. right. by left. }
    rewrite (proj2 (Z.ltb_lt 0 (pinCount fr))) by done. rewrite Hpl.
    apply (IH _ fuel Hd1); [done|done| |lia].
    intros k g Hk. apply Hpinned. apply elem_of_app. by left.
Qed.

(** X25. The LRU victim is the least recently used frame that is not pinned:
    with the chain listed from most to least recently used, [selectVictim]
    returns the last frame of the list whose fix count is 0, skipping the
    pinned frames behind it and changing nothing; it returns no frame when
    every frame of the chain is pinned. *)
Theorem lru_victim_is_least_recently_used (md : PoolMetadata) (l : list nat) :
  lru_repr md l →
  strat md ≠ RS_FIFO →
  (∀ l1 v l2 f,
     l = l1 ++ v :: l2 →
     frames md !! v = Some f → pinCount f ≤ 0 →
     (∀ j g, j ∈ l2 → frames md !! j = Some g → 0 < pinCount g) →
     selectVictim md = Some (Some v, md))
  ∧ ((∀ j g, j ∈ l → frames md !! j = Some g → 0 < pinCount g) →
     selectVictim md = Some (None, md)).
Proof.
  intros Hr Hst. pose proof Hr as (Hnd & _ & Ht & Hd & _).
  assert (length l ≤ length (frames md))%nat as Hlen.
  { apply NoDup_bounded_length; [done|]. intros j. by apply dll_in_range with (1 := Hd). }
  unfold selectVictim. rewrite bool_decide_eq_false_2 by done. rewrite Ht. split.
  - intros l1 v l2 f -> Hf Hp Hpinned.
    rewrite (lru_scan_victim (frames md) None l1 v l2 f); try done.
    rewrite length_app in Hlen. simpl in Hlen. lia.
  - intros Hall.
    destruct (lru_scan_chain (frames md) None l (length (frames md)) Hd Hlen)
      as (r & -> & Hres).
    destruct r as [v|]; [|done]. destruct Hres as (Hv & f & Hf & Hp).
    specialize (Hall v f Hv Hf). lia.
Qed.

(** ** The FIFO order *)

Lemma fifo_rem_shift h i cap :
  0 ≤ h → 0 < cap → 
  Z.rem (Z.rem (h + 1) cap + Z.of_nat i) cap = Z.rem (h + Z.of_nat (S i)) cap.
Proof.
  intros Hh Hc. rewrite (Z.rem_mod_nonneg (h + 1)) by lia.
  pose proof (Z.mod_pos_bound (h + 1) cap Hc).
  rewrite !Z.rem_mod_nonneg by lia.
  rewrite Zplus_mod_idemp_l. f_equal. lia.
Qed.

(** One step of the FIFO scan takes the head entry off the queue. *)
Lemma fifo_entries_step md e t :
  0 ≤ fifoHead md < capacity md →
  fifo_entries md = e :: t →
  let md1 := set_fifo (fifoQ md) (Z.rem (fifoHead md + 1) (capacity md))
               (fifoCount md - 1) md in
  e = default 0 (fifoQ md !! Z.to_nat (fifoHead md))
  ∧ fifo_entries md1 = t
  ∧ 0 ≤ fifoHead md1 < capacity md1
  ∧ Z.to_nat (fifoCount md) = S (Z.to_nat (fifoCount md1)).
Proof.
  intros Hh He md1. unfold fifo_entries in *.
  destruct (Z.to_nat (fifoCount md)) as [|n] eqn:Hn; [done|].
  change (seq 0 (S n)) with (0%nat :: seq 1 n) in He. rewrite fmap_cons in He.
  injection He as He Ht.
  assert (capacity md1 = capacity md) as Hcap by done.
  assert (Z.to_nat (fifoCount md1) = n) as Hn1 by (simpl; lia).
  refine (conj _ (conj _ (conj _ _))).
  - rewrite <- He. rewrite Z.add_0_r, Z.rem_small by lia. done.
  - rewrite Hn1, <- Ht, <- fmap_S_seq, <- list_fmap_compose.
    apply list_fmap_ext. intros i j _. simpl. unfold compose. rewrite Hcap.
    by rewrite fifo_rem_shift by lia.
  - rewrite Hcap. simpl. rewrite Z.rem_mod_nonneg by lia.
    apply Z.mod_pos_bound. lia.
  - by rewrite Hn1.
Qed.

Lemma fifo_scan_order (l1 : list Z) : ∀ md v l2 f,
  0 ≤ fifoHead md < capacity md →
  fifo_entries md = l1 ++ v :: l2 →
  (∀ e g, e ∈ l1 → frames md !! Z.to_nat e = Some g → pinCount g ≠ 0) →
  frames md !! Z.to_nat v = Some f → pinCount f = 0 →
  ∃ md1, fifo_scan (Z.to_nat (fifoCount md)) md = (Some (Z.to_nat v), md1)
         ∧ fifo_entries md1 = l2.
Proof.
  induction l1 as [|e l1 IH]; intros md v l2 f Hh He Hpinned Hf Hp.
  - destruct (fifo_entries_step md v l2 Hh He) as (Hv & Ht & _ & Hn).
    rewrite Hn. simpl. rewrite <- Hv, Hf, Hp. simpl. by eexists.
  - destruct (fifo_entries_step md e (l1 ++ v :: l2) Hh He) as (Hv & Ht & Hh1 & Hn).
    rewrite Hn. simpl. rewrite <- Hv.
    set (md1 := set_fifo _ _ _ md) in *.
    change (Z.to_nat (fifoCount md - 1)) with (Z.to_nat (fifoCount md1)).
    assert (fifo_scan (Z.to_nat (fifoCount md1)) md1
            = match frames md !! Z.to_nat e with
              | Some g => if pinCount g =? 0 then (Some (Z.to_nat e), md1)
                          else fifo_scan (Z.to_nat (fifoCount md1)) md1
              | None => fifo_scan (Z.to_nat (fifoCount md1)) md1
              end) as <-.
    { destruct (frames md !! Z.to_nat e) as [g|] eqn:Hg; [|done].
      rewrite (proj2 (Z.eqb_neq (pinCount g) 0)); [done|].
      apply (Hpinned e g); [by left|done]. }
    apply (IH md1 v l2 f); try done.
    intros e' g' He'. apply Hpinned. by right.
Qed.

Lemma fifo_mod_distinct h i c cap :
  0 ≤ h → 0 ≤ i < c → c < cap →
  Z.rem (h + i) cap ≠ Z.rem (h + c) cap.
Proof.
  intros Hh Hi Hc. rewrite !Z.rem_mod_nonneg by lia. intros E.
  assert ((h + c - (h + i)) mod cap = 0) as Hz.
  { rewrite Zminus_mod, E, Z.sub_diag. apply Z.mod_0_l. lia. }
  replace (h + c - (h + i)) with (c - i) in Hz by lia.
  rewrite Z.mod_small in Hz by lia. lia.
Qed.

(** X26. The FIFO queue is first in, first out.  [enqueueFIFO] on a queue that
    is not full appends the frame at the end; [selectVictim] under FIFO
    returns the first frame of the queue whose fix count is 0, and leaves in
    the queue the entries behind it: the entries in front of it, pinned, are
    dropped. *)
Theorem fifo_queue_is_first_in_first_out (md : PoolMetadata) :
  0 ≤ fifoHead md < capacity md →
  length (fifoQ md) = length (frames md) →
  (∀ idx, 0 ≤ fifoCount md < capacity md →
     fifo_entries (enqueueFIFO md idx) = fifo_entries md ++ [idx])
  ∧ (∀ l1 v l2 f,
       strat md = RS_FIFO →
       fifo_entries md = l1 ++ v :: l2 →
       (∀ e g, e ∈ l1 → frames md !! Z.to_nat e = Some g → pinCount g ≠ 0) →
       frames md !! Z.to_nat v = Some f → pinCount f = 0 →
       ∃ md1, selectVictim md = Some (Some (Z.to_nat v), md1)
              ∧ fifo_entries md1 = l2
              ∧ frames md1 = frames md).
Proof.
  intros Hh Hq. split.
  - intros idx Hc. unfold fifo_entries, enqueueFIFO. simpl.
    change (capacity (set_fifo _ _ _ md)) with (capacity md).
    replace (Z.to_nat (fifoCount md + 1)) with (Z.to_nat (fifoCount md) + 1)%nat by lia.
    rewrite seq_app, fmap_app. simpl. f_equal.
    + apply list_fmap_ext. intros i j Hj. simpl.
      apply lookup_seq in Hj as [-> Hlt]. simpl.
      rewrite list_lookup_insert_ne; [done|].
      pose proof (fifo_mod_distinct (fifoHead md) (Z.of_nat i) (fifoCount md)
                    (capacity md)) as Hne.
      assert (0 ≤ Z.rem (fifoHead md + Z.of_nat i) (capacity md)).
      { apply Z.rem_nonneg; lia. }
      assert (0 ≤ Z.rem (fifoHead md + fifoCount md) (capacity md)).
      { apply Z.rem_nonneg; lia. }
      intros E. apply Hne; lia.
    + rewrite Z2Nat.id by lia. rewrite list_lookup_insert_eq; [done|].
      rewrite Hq. unfold capacity in *.
      pose proof (Z.rem_bound_pos (fifoHead md + fifoCount md)
                    (Z.of_nat (length (frames md)))). lia.
  - intros l1 v l2 f Hst He Hpinned Hf Hp. unfold selectVictim.
    rewrite bool_decide_eq_true_2 by done.
    destruct (fifo_scan_order l1 md v l2 f Hh He Hpinned Hf Hp) as (md1 & Hs & Ht).
    exists md1. rewrite Hs. split_and!; [done..|].
    pose proof (fifo_scan_spec (Z.to_nat (fifoCount md)) md) as Hspec.
    rewrite Hs in Hspec. simpl in Hspec. by destruct Hspec as (? & _).
Qed.

(** ** The worked examples are well formed *)

Lemma example_handle_open n pos : open_on "pool.bin" (example_handle n pos).
Proof. by eexists. Qed.

Lemma example_handle_on n pos :
  handle_on "pool.bin" (replicate (n * PAGE_SIZE) Byte.x01) (example_handle n pos)
    (example_world [] n).
Proof.
  unfold handle_on, example_handle, example_world. simpl.
  refine (conj eq_refl (conj _ (conj _ (conj _ _)))).
  - apply lookup_singleton_eq.
  - lia.
  - by rewrite length_replicate, Nat2Z.id.
  - eexists. by split_and!.
Qed.

(** The state at the end of a session over the example file, no fault
    pending, satisfies the pool invariant and agrees with the file. *)
Lemma example_session_state s n numPages ops md :
  (0 < PAGE_SIZE)%nat →
  let r := example_session s [] n numPages ops in
  mgmtData (final_state r).1 = Some md →
  pool_inv md
  ∧ ∃ c, handle_on "pool.bin" c (fh md) (final_state r).2
         ∧ Forall (λ f, length (data f) = PAGE_SIZE ∧ NO_PAGE ≤ pageId f) (frames md).
Proof.
  intros Hps r. subst r. unfold example_session.
  destruct (session_coherent s no_pool "pool.bin" (replicate (n * PAGE_SIZE) Byte.x01)
              n numPages ops (example_world [] n) Hps eq_refl)
    as (rcs & bm & w1 & -> & _ & Hfin).
  { apply lookup_singleton_eq. }
  { by rewrite length_replicate. }
  simpl. intros Hmd. destruct (Hfin md Hmd) as (Hinv & c & Hh & Hfr).
  split; [done|]. exists c. split; [done|].
  apply Forall_lookup. intros i f Hf. by destruct (Hfr i f Hf) as (? & ? & _).
Qed.


End Pager.

(** * The code at work: a page size of 4096 bytes *)

(** C2, on the code.  FIFO pool of two frames over a file of three pages.
    After [pinPage 0] and [pinPage 1] the queue holds frames 0 and 1, both
    pinned; the victim scan of [pinPage 2] skips both, finds no victim, and
    leaves the queue empty instead of holding 0 and 1.  Frame 0 is then
    unpinned, yet [pinPage 2] fails again: the skipped frame never becomes
    evictable. *)
Theorem fifo_scan_loses_skipped_entries :
  let pins := [OpPin 0; OpPin 1] in
  let before := session_pool (example_session 4096 RS_FIFO [] 3 2 pins) in
  let after := session_pool (example_session 4096 RS_FIFO [] 3 2 (pins ++ [OpPin 2])) in
  let later := example_session 4096 RS_FIFO [] 3 2 (pins ++ [OpPin 2; OpUnpin 0]) in
  let final := example_session 4096 RS_FIFO [] 3 2
                 (pins ++ [OpPin 2; OpUnpin 0; OpPin 2]) in
  fifo_entries <$> before = Some [0; 1]
  ∧ getFixCounts <$> before = Some [1; 1]
  ∧ (λ md, fst <$> selectVictim md) <$> before = Some (Some None)
  ∧ fifo_entries <$> after = Some []
  ∧ getFrameContents <$> session_pool later = Some [0; 1]
  ∧ getFixCounts <$> session_pool later = Some [0; 1]
  ∧ fifo_entries <$> session_pool later = Some []
  ∧ session_codes final
    = Some [RC_OK; RC_OK; RC_READ_NON_EXISTING_PAGE; RC_OK; RC_READ_NON_EXISTING_PAGE]
  ∧ getFrameContents <$> session_pool final = Some [0; 1].
Proof. vm_compute. repeat split; reflexivity. Qed.

(** C3, on the code.  The same pool with both frames pinned: [pinPage 2]
    returns [RC_READ_NON_EXISTING_PAGE] and leaves the frames, the
    counters, the LRU pointers and the file as they were, but the FIFO queue
    goes from two entries to none. *)
Theorem pinPage_all_pinned_empties_fifo_queue :
  let pins := [OpPin 0; OpPin 1] in
  let before := example_session 4096 RS_FIFO [] 3 2 pins in
  let after := example_session 4096 RS_FIFO [] 3 2 (pins ++ [OpPin 2]) in
  getFixCounts <$> session_pool before = Some [1; 1]
  ∧ getFrameContents <$> session_pool before = Some [0; 1]
  ∧ session_codes after = Some [RC_OK; RC_OK; RC_READ_NON_EXISTING_PAGE]
  ∧ frames <$> session_pool after = frames <$> session_pool before
  ∧ readIO <$> session_pool after = readIO <$> session_pool before
  ∧ writeIO <$> session_pool after = writeIO <$> session_pool before
  ∧ lruHead <$> session_pool after = lruHead <$> session_pool before
  ∧ lruTail <$> session_pool after = lruTail <$> session_pool before
  ∧ session_world after = session_world before
  ∧ (fifoCount <$> session_pool before = Some 2
     ∧ fifo_entries <$> session_pool before = Some [0; 1])
  ∧ (fifoCount <$> session_pool after = Some 0
     ∧ fifo_entries <$> session_pool after = Some []).
Proof. vm_compute. repeat split; reflexivity. Qed.

(** C1 fails on the code.  Pool of one frame over a file of two pages;
    page 0 is pinned, marked dirty and unpinned.  The fault script then
    cuts short the write of the victim and the read of page 1: the
    write-back returns [RC_WRITE_FAILED], the load returns
    [RC_READ_NON_EXISTING_PAGE], and [pinPage 1] returns [RC_OK] with both
    counters advanced. *)
Lemma pinPage_swallows_io_errors :
  let script := replicate 9 None ++ [Some 0%nat; None; Some 0%nat] in
  let ops := [OpPin 0; OpMarkDirty 0; OpUnpin 0] in
  match example_session 4096 RS_FIFO script 2 1 ops with
  | Some (_, _, bm, w) =>
    match mgmtData bm with
    | Some md =>
      let wb := pin_writeback 4096 md 0 w in
      let ld := pin_load 4096 wb.1.2 0 1 wb.2 in
      let pin := pinPage 4096 bm (mkPageHandle NO_PAGE None) 1 w in
      fst <$> selectVictim md = Some (Some 0%nat)
      ∧ wb.1.1 = RC_WRITE_FAILED
      ∧ ld.1.1.2 = RC_READ_NON_EXISTING_PAGE
      ∧ (λ x, x.1.1.1) <$> pin = Some RC_OK
      ∧ (readIO md, writeIO md) = (1, 0)
      ∧ (pin ≫= λ x, (λ m, (readIO m, writeIO m)) <$> mgmtData x.1.1.2) = Some (2, 1)
    | None => False
    end
  | None => False
  end.
Proof. vm_compute. repeat split; reflexivity. Qed.


(** ** Instances of the theorems on concrete pools *)

Lemma pinPage_negative_pid_witness :
  let r := example_session 4096 RS_LRU [] 3 2 [OpPin 0; OpPin 1; OpUnpin 0] in
  let bm := (final_state r).1 in
  let w := (final_state r).2 in
  let ph := mkPageHandle NO_PAGE None in
  mgmtData bm = Some (final_pool r)
  ∧ -1 < 0
  ∧ pinPage 4096 bm ph (-1) w = Some (RC_READ_NON_EXISTING_PAGE, bm, ph, w).
Proof.
  intros r bm w ph.
  assert (mgmtData bm = Some (final_pool r)) as Hmd by (vm_compute; reflexivity).
  split; [exact Hmd|]. split; [lia|].
  apply (pinPage_negative_pid 4096 bm (final_pool r) ph (-1) w Hmd). lia.
Defined.

Lemma pin_safety_witness :
  let ops := [OpPin 0; OpPin 1; OpUnpin 0] in
  let r := example_session 4096 RS_LRU [] 3 2 ops in
  let bm := (final_state r).1 in
  let w := (final_state r).2 in
  let md := final_pool r in
  reachable 4096 bm w
  ∧ mgmtData bm = Some md
  ∧ getFixCounts md = [0; 1]
  ∧ ∃ v md1, selectVictim md = Some (v, md1)
      ∧ ∀ k, v = Some k → ∃ f, frames md !! k = Some f ∧ pinCount f = 0.
Proof.
  intros ops r bm w md.
  assert (reachable 4096 bm w) as Hr.
  { apply (session_reachable 4096 (λ _, True) RS_LRU no_pool "pool.bin" 2 ops
             (example_world 4096 [] 3) [RC_OK; RC_OK; RC_OK]).
    - repeat constructor.
    - vm_compute. reflexivity. }
  assert (mgmtData bm = Some md) as Hmd by (vm_compute; reflexivity).
  split; [exact Hr|]. split; [exact Hmd|]. split; [vm_compute; reflexivity|].
  exact (proj1 (pin_safety 4096 bm w md Hr Hmd)).
Defined.

Lemma residency_unique_witness :
  let ops := [OpPin 0; OpPin 1; OpUnpin 0] in
  let r := example_session 4096 RS_LRU [] 3 2 ops in
  let bm := (final_state r).1 in
  let w := (final_state r).2 in
  let md := final_pool r in
  reachable 4096 bm w
  ∧ mgmtData bm = Some md
  ∧ getFrameContents md = [0; 1]
  ∧ ∀ i j fi fj,
      frames md !! i = Some fi → frames md !! j = Some fj →
      pageId fi = pageId fj → pageId fi ≠ NO_PAGE → i = j.
Proof.
  intros ops r bm w md.
  assert (reachable 4096 bm w) as Hr.
  { apply (session_reachable 4096 (λ _, True) RS_LRU no_pool "pool.bin" 2 ops
             (example_world 4096 [] 3) [RC_OK; RC_OK; RC_OK]).
    - repeat constructor.
    - vm_compute. reflexivity. }
  assert (mgmtData bm = Some md) as Hmd by (vm_compute; reflexivity).
  split; [exact Hr|]. split; [exact Hmd|]. split; [vm_compute; reflexivity|].
  exact (proj1 (residency_unique 4096 bm w md Hr Hmd)).
Defined.


Lemma pinPage_discards_io_codes_witness :
  let script := replicate 9 None ++ [Some 0%nat; None; Some 0%nat] in
  let ops := [OpPin 0; OpMarkDirty 0; OpUnpin 0] in
  let r := example_session 4096 RS_FIFO script 2 1 ops in
  let bm := (final_state r).1 in
  let w := (final_state r).2 in
  let md := final_pool r in
  let ph := mkPageHandle NO_PAGE None in
  mgmtData bm = Some md
  ∧ 0 ≤ 1
  ∧ pin_scan 1 (frames md) 0 (-1) = inr (-1)
  ∧ (λ x, x.1.1.1) <$> pinPage 4096 bm ph 1 w = Some RC_OK.
Proof.
  intros script ops r bm w md ph.
  assert (mgmtData bm = Some md) as Hmd by (vm_compute; reflexivity).
  assert (pin_scan 1 (frames md) 0 (-1) = inr (-1)) as Hscan
    by (vm_compute; reflexivity).
  split; [exact Hmd|]. split; [lia|]. split; [exact Hscan|].
  destruct (pinPage_discards_io_codes 4096 bm md ph 1 w (-1) Hmd ltac:(lia) Hscan)
    as [_ Hvictim].
  destruct (selectVictim md) as [[[slot|] md1]|] eqn:Hv;
    [|vm_compute in Hv; discriminate..].
  destruct (frames md !! slot) as [f|] eqn:Hf.
  2:{ vm_compute in Hv. injection Hv as <- _. vm_compute in Hf. discriminate. }
  destruct (pin_writeback 4096 md1 slot w) as [[rcWrite md2] w1] eqn:Hwb.
  destruct (pin_load 4096 md2 slot 1 w1) as [[[rcGrow rcRead] md3] w2] eqn:Hld.
  destruct (Hvictim ltac:(lia) slot md1 f rcWrite md2 w1 rcGrow rcRead md3 w2
              eq_refl Hf Hwb Hld) as [-> _].
  reflexivity.
Defined.

Lemma pin_beyond_end_grows_file_witness :
  let w := example_world 4096 [] 1 in
  let c := replicate 4096 Byte.x01 in
  let ph := mkPageHandle NO_PAGE None in
  (0 < 4096)%nat
  ∧ faults w = []
  ∧ files w !! "pool.bin" = Some c
  ∧ length c = (1 * 4096)%nat
  ∧ 1 ≤ 3
  ∧ Z.of_nat 1 ≤ 5
  ∧ ∃ bm md' w2 f,
      initBufferPool 4096 no_pool "pool.bin" 3 RS_FIFO w = Some (RC_OK, bm, w)
      ∧ pinPage 4096 bm ph 5 w
        = Some (RC_OK, with_md md' bm, mkPageHandle 5 (Some 0%nat), w2)
      ∧ files w2 !! "pool.bin"
        = Some (c ++ replicate ((Z.to_nat 5 + 1 - 1) * 4096) zero_byte)
      ∧ totalNumPages (fh md') = 5 + 1
      ∧ frames md' !! 0%nat = Some f
      ∧ pageId f = 5
      ∧ data f = replicate 4096 zero_byte
      ∧ isDirty f = false
      ∧ pinCount f = 1
      ∧ getNumReadIO md' = 1
      ∧ getNumWriteIO md' = 0.
Proof.
  intros w c ph.
  assert (0 < 4096)%nat as H1 by lia.
  assert (faults w = []) as H2 by reflexivity.
  assert (files w !! "pool.bin" = Some c) as H3 by (vm_compute; reflexivity).
  assert (length c = (1 * 4096)%nat) as H4 by (vm_compute; reflexivity).
  assert (1 ≤ 3) as H5 by lia.
  assert (Z.of_nat 1 ≤ 5) as H6 by lia.
  split_and!; try assumption.
  exact (pin_beyond_end_grows_file 4096 no_pool "pool.bin" c 1 3 RS_FIFO ph 5 w
           H1 H2 H3 H4 H5 H6).
Defined.

(** ** The storage manager at work *)

Lemma openPageFile_existing_file_witness :
  let w := example_world 4096 [] 2 in
  let c := replicate (2 * 4096) Byte.x01 in
  (0 < 4096)%nat
  ∧ faults w = []
  ∧ files w !! "pool.bin" = Some c
  ∧ ∃ h, openPageFile 4096 "pool.bin" blank_handle w = (RC_OK, h, w)
         ∧ totalNumPages h = Z.of_nat (length c / 4096)
         ∧ getBlockPos h = 0.
Proof.
  intros w c.
  assert (0 < 4096)%nat as H1 by lia.
  assert (faults w = []) as H2 by reflexivity.
  assert (files w !! "pool.bin" = Some c) as H3 by apply lookup_singleton_eq.
  split_and!; try assumption.
  destruct (openPageFile_existing_file 4096 "pool.bin" c blank_handle w H1 H2 H3)
    as (h & ctx & Ho & _ & Ht & Hp & _).
  exists h. exact (conj Ho (conj Ht Hp)).
Defined.

Lemma createPageFile_open_read_round_trip_witness :
  let w := example_world 4096 [] 2 in
  (0 < 4096)%nat
  ∧ faults w = []
  ∧ ∃ w1 h h1,
      createPageFile 4096 "new.bin" w = (RC_OK, w1)
      ∧ same_files_off "new.bin" w w1
      ∧ openPageFile 4096 "new.bin" blank_handle w1 = (RC_OK, h, w1)
      ∧ totalNumPages h = 1
      ∧ getBlockPos h = 0
      ∧ readFirstBlock 4096 h [] w1 = (RC_OK, h1, replicate 4096 zero_byte ++ [], w1).
Proof.
  intros w. split; [lia|]. split; [reflexivity|].
  exact (createPageFile_open_read_round_trip 4096 "new.bin" w [] ltac:(lia) eq_refl).
Defined.

Lemma writeBlock_readBlock_round_trip_witness :
  let w := example_world 4096 [] 2 in
  let h := example_handle 2 0 in
  let c := replicate (2 * 4096) Byte.x01 in
  let buf := replicate 4096 Byte.x02 in
  handle_on 4096 "pool.bin" c h w
  ∧ 0 ≤ 3
  ∧ length buf = 4096%nat
  ∧ ∃ h1 w1 h2,
      writeBlock 4096 3 h buf w = (RC_OK, h1, w1)
      ∧ totalNumPages h1 = 4
      ∧ readBlock 4096 3 h1 [] w1 = (RC_OK, h2, buf, w1)
      ∧ ∃ h3, readBlock 4096 2 h1 [] w1 = (RC_OK, h3, replicate 4096 zero_byte, w1).
Proof.
  intros w h c buf.
  assert (handle_on 4096 "pool.bin" c h w) as H1 by apply example_handle_on.
  assert (0 ≤ 3) as H2 by lia.
  assert (length buf = 4096%nat) as H3 by apply length_replicate.
  split_and!; try assumption.
  destruct (writeBlock_readBlock_round_trip 4096 "pool.bin" c h w 3 buf [] H1 H2 H3)
    as (h1 & w1 & h2 & Hw & Ht & _ & Hr & Hothers).
  exists h1, w1, h2. rewrite drop_nil, app_nil_r in Hr.
  assert (totalNumPages h1 = 4) as Ht4 by exact Ht.
  refine (conj Hw (conj Ht4 (conj Hr _))).
  destruct (Hothers 2) as (h3 & Hr3); [rewrite Ht4; lia|lia|].
  exists h3. change (2 <? totalNumPages h) with false in Hr3.
  rewrite drop_nil, app_nil_r in Hr3. exact Hr3.
Defined.

Lemma ensureCapacity_under_faults_witness :
  let w := example_world 4096 [None; None; Some 10%nat] 2 in
  let h := example_handle 2 0 in
  let r := ensureCapacity 4096 4 h w in
  open_on "pool.bin" h
  ∧ (r.1.1 = RC_OK ∨ r.1.1 = RC_WRITE_FAILED)
  ∧ same_files_off "pool.bin" w r.2
  ∧ (r.1.1 = RC_OK → 0 ≤ 4 ≤ totalNumPages r.1.2 ∧ ensureCapacity 4096 4 r.1.2 r.2 = r).
Proof.
  intros w h r.
  assert (open_on "pool.bin" h) as H1 by apply example_handle_open.
  split; [assumption|].
  destruct (ensureCapacity_under_faults 4096 "pool.bin" 4 h w H1)
    as (Hcodes & Hoff & Hok & _).
  exact (conj Hcodes (conj Hoff Hok)).
Defined.

Lemma writeBlock_under_faults_witness :
  let w := example_world 4096 [None; Some 100%nat] 2 in
  let h := example_handle 2 0 in
  let buf := replicate 4096 Byte.x02 in
  let r := writeBlock 4096 1 h buf w in
  open_on "pool.bin" h
  ∧ (4096 ≤ length buf)%nat
  ∧ (r.1.1 = RC_OK ∨ r.1.1 = RC_WRITE_FAILED)
  ∧ same_files_off "pool.bin" w r.2
  ∧ (r.1.1 = RC_OK →
     page_of 4096 (file_bytes r.2 "pool.bin") (Z.to_nat 1) = take 4096 buf).
Proof.
  intros w h buf r.
  assert (open_on "pool.bin" h) as H1 by apply example_handle_open.
  assert (4096 ≤ length buf)%nat as H2 by (unfold buf; rewrite length_replicate; lia).
  split; [assumption|]. split; [assumption|].
  destruct (writeBlock_under_faults 4096 "pool.bin" 1 h buf w H1 H2)
    as (Hcodes & Hoff & Hok).
  refine (conj Hcodes (conj Hoff _)). intros E.
  destruct (Hok E) as (_ & Hpage & _). exact Hpage.
Defined.

Lemma closePageFile_then_use_witness :
  let w := example_world 4096 [] 2 in
  let h := example_handle 2 1 in
  closePageFile h w = (RC_OK, blank_handle, w)
  ∧ readBlock 4096 0 blank_handle [] w = (RC_FILE_HANDLE_NOT_INIT, blank_handle, [], w)
  ∧ writeBlock 4096 0 blank_handle [] w = (RC_FILE_HANDLE_NOT_INIT, blank_handle, w)
  ∧ closePageFile blank_handle w = (RC_FILE_HANDLE_NOT_INIT, blank_handle, w).
Proof.
  intros w h.
  assert (closePageFile h w = (RC_OK, blank_handle, w)) as H1 by reflexivity.
  split; [assumption|].
  destruct (closePageFile_then_use 4096 h w blank_handle w 0 [] H1)
    as (_ & _ & Hr & _ & _ & _ & _ & _ & Hw & _ & _ & _ & Hc).
  exact (conj Hr (conj Hw Hc)).
Defined.

Lemma sequential_reads_follow_the_cursor_witness :
  let w := example_world 4096 [] 3 in
  let h := example_handle 3 0 in
  let c := replicate (3 * 4096) Byte.x01 in
  handle_on 4096 "pool.bin" c h w
  ∧ 0 ≤ getBlockPos h
  ∧ getBlockPos h + 1 < totalNumPages h
  ∧ ∃ h1 h2,
      (readNextBlock 4096 h [] w).1.1 = (RC_OK, h1)
      ∧ getBlockPos h1 = 1
      ∧ (readPreviousBlock 4096 h1 [] w).1.1 = (RC_OK, h2)
      ∧ getBlockPos h2 = 0.
Proof.
  intros w h c.
  assert (handle_on 4096 "pool.bin" c h w) as H1 by apply example_handle_on.
  assert (0 ≤ getBlockPos h) as H2 by (unfold getBlockPos; simpl; lia).
  assert (getBlockPos h + 1 < totalNumPages h) as H3 by (unfold getBlockPos; simpl; lia).
  split_and!; try assumption.
  destruct (sequential_reads_follow_the_cursor 4096 "pool.bin" c h w [] H1 H2 H3)
    as (h1 & h2 & h3 & Hn & Hp1 & Hpv & Hp2 & _).
  exists h1, h2. rewrite Hn, Hpv.
  exact (conj eq_refl (conj Hp1 (conj eq_refl Hp2))).
Defined.

Lemma sequential_reads_stop_at_the_ends_witness :
  let w := example_world 4096 [] 3 in
  let h := example_handle 3 0 in
  is_Some (mgmtInfo h)
  ∧ readPreviousBlock 4096 h [] w = (RC_READ_NON_EXISTING_PAGE, h, [], w)
  ∧ readNextBlock 4096 (example_handle 3 2) [] w
    = (RC_READ_NON_EXISTING_PAGE, example_handle 3 2, [], w)
  ∧ readLastBlock 4096 (example_handle 0 0) [] w
    = (RC_READ_NON_EXISTING_PAGE, example_handle 0 0, [], w).
Proof.
  intros w h.
  assert (is_Some (mgmtInfo h)) as H1 by (by eexists).
  split; [assumption|].
  destruct (sequential_reads_stop_at_the_ends 4096 h [] w H1) as (Hp & _ & _).
  destruct (sequential_reads_stop_at_the_ends 4096 (example_handle 3 2) [] w
              ltac:(by eexists)) as (_ & Hn & _).
  destruct (sequential_reads_stop_at_the_ends 4096 (example_handle 0 0) [] w
              ltac:(by eexists)) as (_ & _ & Hl).
  split_and!.
  - apply Hp. unfold getBlockPos. simpl. lia.
  - apply Hn. unfold getBlockPos. simpl. lia.
  - apply Hl. simpl. lia.
Defined.

Lemma appendEmptyBlock_then_writeCurrentBlock_witness :
  let w := example_world 4096 [] 2 in
  let h := example_handle 2 0 in
  let c := replicate (2 * 4096) Byte.x01 in
  let buf := replicate 4096 Byte.x02 in
  handle_on 4096 "pool.bin" c h w
  ∧ length buf = 4096%nat
  ∧ ∃ h1 w1 h2 w2 h3,
      appendEmptyBlock 4096 h w = (RC_OK, h1, w1)
      ∧ totalNumPages h1 = 3
      ∧ getBlockPos h1 = 2
      ∧ writeCurrentBlock 4096 h1 buf w1 = (RC_OK, h2, w2)
      ∧ files w2 !! "pool.bin" = Some (c ++ buf)
      ∧ readLastBlock 4096 h2 [] w2 = (RC_OK, h3, buf, w2).
Proof.
  intros w h c buf.
  assert (handle_on 4096 "pool.bin" c h w) as H1 by apply example_handle_on.
  assert (length buf = 4096%nat) as H2 by apply length_replicate.
  split_and!; try assumption.
  destruct (appendEmptyBlock_then_writeCurrentBlock 4096 "pool.bin" c h w buf [] H1 H2)
    as (h1 & w1 & h2 & w2 & h3 & Ha & Ht1 & Hp1 & _ & Hw & _ & Hf & Hr).
  exists h1, w1, h2, w2, h3. rewrite drop_nil, app_nil_r in Hr.
  exact (conj Ha (conj Ht1 (conj Hp1 (conj Hw (conj Hf Hr))))).
Defined.

(** ** The buffer pool at work *)

Lemma shutdownBufferPool_then_use_witness :
  let ops := [OpPin 0; OpMarkDirty 0] in
  let r := example_session 4096 RS_LRU [] 3 2 ops in
  let bm := (final_state r).1 in
  let w := (final_state r).2 in
  let md := final_pool r in
  mgmtData bm = Some md
  ∧ ∃ bm1 w1,
      shutdownBufferPool 4096 bm w = (RC_OK, bm1, w1)
      ∧ mgmtData bm1 = None
      ∧ run 4096 [OpPin 0; OpUnpin 0; OpForceFlush; OpShutdown] bm1 w1
        = Some (replicate 4 RC_FILE_HANDLE_NOT_INIT, bm1, w1).
Proof.
  intros ops r bm w md.
  assert (mgmtData bm = Some md) as Hmd by (vm_compute; reflexivity).
  split; [exact Hmd|].
  destruct (shutdownBufferPool_then_use 4096 bm md w Hmd)
    as (bm1 & w1 & Hs & Hn & _ & Hrun).
  exists bm1, w1.
  exact (conj Hs (conj Hn (Hrun [OpPin 0; OpUnpin 0; OpForceFlush; OpShutdown]))).
Defined.

Lemma shutdownBufferPool_drops_pinned_pages_witness :
  let ops := [OpPin 0; OpMarkDirty 0] in
  let r := example_session 4096 RS_LRU [] 3 2 ops in
  let bm := (final_state r).1 in
  let w := (final_state r).2 in
  let md := final_pool r in
  mgmtData bm = Some md
  ∧ Forall (λ f, isDirty f = true → pinCount f ≠ 0) (frames md)
  ∧ getDirtyFlags md = [true; false]
  ∧ getFixCounts md = [1; 0]
  ∧ (shutdownBufferPool 4096 bm w).1.1 = RC_OK
  ∧ files (shutdownBufferPool 4096 bm w).2 = files w.
Proof.
  intros ops r bm w md.
  assert (mgmtData bm = Some md) as Hmd by (vm_compute; reflexivity).
  assert (Forall (λ f, isDirty f = true → pinCount f ≠ 0) (frames md)) as Hall.
  { vm_compute. repeat constructor; discriminate. }
  split; [exact Hmd|]. split; [exact Hall|].
  split; [vm_compute; reflexivity|]. split; [vm_compute; reflexivity|].
  destruct (shutdownBufferPool_drops_pinned_pages 4096 bm md w Hmd Hall)
    as (Hrc & _ & Hf).
  exact (conj Hrc Hf).
Defined.

Lemma calls_on_absent_page_fail_cleanly_witness :
  let ops := [OpPin 0; OpUnpin 0] in
  let r := example_session 4096 RS_FIFO [] 3 2 ops in
  let bm := (final_state r).1 in
  let w := (final_state r).2 in
  let md := final_pool r in
  mgmtData bm = Some md
  ∧ getFrameContents md = [0; NO_PAGE]
  ∧ getFixCounts md = [0; 0]
  ∧ unpinPage bm (mkPageHandle 2 None) = (RC_READ_NON_EXISTING_PAGE, bm)
  ∧ markDirty bm (mkPageHandle 2 None) = (RC_READ_NON_EXISTING_PAGE, bm)
  ∧ forcePage 4096 bm (mkPageHandle 2 None) w = (RC_READ_NON_EXISTING_PAGE, bm, w)
  ∧ unpinPage bm (mkPageHandle 0 None) = (RC_READ_NON_EXISTING_PAGE, bm).
Proof.
  intros ops r bm w md.
  assert (mgmtData bm = Some md) as Hmd by (vm_compute; reflexivity).
  split; [exact Hmd|].
  split; [vm_compute; reflexivity|]. split; [vm_compute; reflexivity|].
  destruct (calls_on_absent_page_fail_cleanly 4096 bm md (mkPageHandle 2 None) w Hmd)
    as (Habs & _ & _).
  destruct (calls_on_absent_page_fail_cleanly 4096 bm md (mkPageHandle 0 None) w Hmd)
    as (_ & Hzero & _).
  destruct Habs as (Hu & Hm & Hf).
  { vm_compute. repeat constructor; discriminate. }
  refine (conj Hu (conj Hm (conj Hf _))).
  apply Hzero. vm_compute. repeat constructor; discriminate.
Defined.

Lemma initBufferPool_fresh_pool_witness :
  let w := example_world 4096 [] 3 in
  let c := replicate (3 * 4096) Byte.x01 in
  (0 < 4096)%nat
  ∧ faults w = []
  ∧ files w !! "pool.bin" = Some c
  ∧ ∃ bm md,
      initBufferPool 4096 no_pool "pool.bin" 2 RS_LRU w = Some (RC_OK, bm, w)
      ∧ mgmtData bm = Some md
      ∧ getFrameContents md = [NO_PAGE; NO_PAGE]
      ∧ getDirtyFlags md = [false; false]
      ∧ getFixCounts md = [0; 0]
      ∧ getNumReadIO md = 0
      ∧ getNumWriteIO md = 0.
Proof.
  intros w c.
  assert (0 < 4096)%nat as H1 by lia.
  assert (faults w = []) as H2 by reflexivity.
  assert (files w !! "pool.bin" = Some c) as H3 by apply lookup_singleton_eq.
  split_and!; try assumption.
  destruct (initBufferPool_fresh_pool 4096 no_pool "pool.bin" c 2 RS_LRU w H1 H2 H3)
    as (bm & md & Hi & Hmd & Hc & Hd & Hfx & Hr & Hw & _).
  exists bm, md.
  exact (conj Hi (conj Hmd (conj Hc (conj Hd (conj Hfx (conj Hr Hw)))))).
Defined.

Lemma markDirty_marks_only_that_frame_witness :
  let ops := [OpPin 0; OpPin 1] in
  let r := example_session 4096 RS_LRU [] 3 2 ops in
  let bm := (final_state r).1 in
  let md := final_pool r in
  let f := frame_at md 1 in
  mgmtData bm = Some md
  ∧ resident_unique (frames md)
  ∧ frames md !! 1%nat = Some f
  ∧ pageId f = 1
  ∧ 0 ≤ 1
  ∧ ∃ md1, markDirty bm (mkPageHandle 1 None) = (RC_OK, with_md md1 bm)
           ∧ getDirtyFlags md1 = <[1%nat := true]> (getDirtyFlags md)
           ∧ getFixCounts md1 = getFixCounts md.
Proof.
  intros ops r bm md f.
  assert (mgmtData bm = Some md) as Hmd by (vm_compute; reflexivity).
  destruct (example_session_state 4096 RS_LRU 3 2 ops md ltac:(lia) Hmd)
    as ((_ & Hu & _) & _).
  assert (frames md !! 1%nat = Some f) as Hf by (vm_compute; reflexivity).
  assert (pageId f = 1) as Hp by (vm_compute; reflexivity).
  assert (0 ≤ 1) as H1 by lia.
  refine (conj Hmd (conj Hu (conj Hf (conj Hp (conj H1 _))))).
  destruct (markDirty_marks_only_that_frame bm md (mkPageHandle 1 None) 1 f
              Hmd Hu Hf Hp H1) as (md1 & Hm & Hd & _ & Hfx & _).
  exists md1. exact (conj Hm (conj Hd Hfx)).
Defined.

Lemma fault_free_session_stays_coherent_witness :
  let w := example_world 4096 [] 3 in
  let c := replicate (3 * 4096) Byte.x01 in
  let ops := [OpPin 0; OpMarkDirty 0; OpUnpin 0; OpPin 1; OpPin 4; OpForceFlush] in
  (0 < 4096)%nat
  ∧ faults w = []
  ∧ files w !! "pool.bin" = Some c
  ∧ length c = (3 * 4096)%nat
  ∧ ∃ rcs bm w1,
      session 4096 RS_FIFO no_pool "pool.bin" 2 ops w = Some (RC_OK, rcs, bm, w1)
      ∧ length rcs = length ops
      ∧ ∀ md, mgmtData bm = Some md →
          ∃ c1, faults w1 = []
            ∧ files w1 !! "pool.bin" = Some c1
            ∧ length c1 = (Z.to_nat (totalNumPages (fh md)) * 4096)%nat
            ∧ ∀ i f, frames md !! i = Some f → pageId f ≠ NO_PAGE →
                0 ≤ pageId f < totalNumPages (fh md)
                ∧ data f = page_of 4096 c1 (Z.to_nat (pageId f)).
Proof.
  intros w c ops.
  assert (0 < 4096)%nat as H1 by lia.
  assert (faults w = []) as H2 by reflexivity.
  assert (files w !! "pool.bin" = Some c) as H3 by apply lookup_singleton_eq.
  assert (length c = (3 * 4096)%nat) as H4 by apply length_replicate.
  split_and!; try assumption.
  exact (fault_free_session_stays_coherent 4096 RS_FIFO no_pool "pool.bin" c 3 2 ops w
           H1 H2 H3 H4).
Defined.

Lemma forceFlushPool_writes_to_disk_witness :
  let ops := [OpPin 0; OpMarkDirty 0; OpUnpin 0; OpPin 1; OpMarkDirty 1] in
  let r := example_session 4096 RS_LRU [] 3 2 ops in
  let bm := (final_state r).1 in
  let w := (final_state r).2 in
  let md := final_pool r in
  mgmtData bm = Some md
  ∧ getDirtyFlags md = [true; true]
  ∧ getFixCounts md = [0; 1]
  ∧ ∃ c, handle_on 4096 "pool.bin" c (fh md) w
      ∧ resident_unique (frames md)
      ∧ Forall (λ f, length (data f) = 4096%nat ∧ NO_PAGE ≤ pageId f) (frames md)
      ∧ ∃ md1 w1 c1,
          forceFlushPool 4096 bm w = (RC_OK, with_md md1 bm, w1)
          ∧ handle_on 4096 "pool.bin" c1 (fh md1) w1
          ∧ page_of 4096 c1 (Z.to_nat 0) = data (frame_at md 0)
          ∧ page_of 4096 c1 (Z.to_nat 2) = page_of 4096 c (Z.to_nat 2).
Proof.
  intros ops r bm w md.
  assert (mgmtData bm = Some md) as Hmd by (vm_compute; reflexivity).
  destruct (example_session_state 4096 RS_LRU 3 2 ops md ltac:(lia) Hmd)
    as ((_ & Hu & _) & c & Hh & Hall).
  split; [exact Hmd|].
  split; [vm_compute; reflexivity|]. split; [vm_compute; reflexivity|].
  exists c. refine (conj Hh (conj Hu (conj Hall _))).
  destruct (forceFlushPool_writes_to_disk 4096 "pool.bin" c bm md w Hmd Hh Hu Hall)
    as (md1 & w1 & c1 & Hff & Hh1 & Hin & Hout & _).
  exists md1, w1, c1. refine (conj Hff (conj Hh1 (conj _ _))).
  - assert (pageId (frame_at md 0) = 0) as Hp0 by (vm_compute; reflexivity).
    rewrite <- Hp0 at 1. apply Hin.
    + apply list_elem_of_lookup. exists 0%nat. vm_compute. reflexivity.
    + vm_compute. reflexivity.
  - apply Hout.
    + assert (totalNumPages (fh md) = 3) as -> by (vm_compute; reflexivity). lia.
    + assert (Forall (λ f, pageId f ≠ 2) (frames md)) as Hne
        by (vm_compute; repeat constructor; discriminate).
      intros f Hf _. exact (proj1 (Forall_forall _ _) Hne f Hf).
Defined.

Lemma forcePage_writes_frame_to_disk_witness :
  let ops := [OpPin 0; OpMarkDirty 0] in
  let r := example_session 4096 RS_FIFO [] 3 2 ops in
  let bm := (final_state r).1 in
  let w := (final_state r).2 in
  let md := final_pool r in
  let f := frame_at md 0 in
  let ph := mkPageHandle 0 (Some 0%nat) in
  mgmtData bm = Some md
  ∧ frames md !! 0%nat = Some f
  ∧ pageId f = pageNum ph
  ∧ 0 ≤ pageNum ph
  ∧ length (data f) = 4096%nat
  ∧ getFixCounts md = [1; 0]
  ∧ ∃ c, handle_on 4096 "pool.bin" c (fh md) w
      ∧ resident_unique (frames md)
      ∧ ∃ md1 w1 c1,
          forcePage 4096 bm ph w = (RC_OK, with_md md1 bm, w1)
          ∧ handle_on 4096 "pool.bin" c1 (fh md1) w1
          ∧ page_of 4096 c1 (Z.to_nat (pageNum ph)) = data f
          ∧ getDirtyFlags md1 = <[0%nat := false]> (getDirtyFlags md)
          ∧ writeIO md1 = (writeIO md + 1) mod 2 ^ 32.
Proof.
  intros ops r bm w md f ph.
  assert (mgmtData bm = Some md) as Hmd by (vm_compute; reflexivity).
  destruct (example_session_state 4096 RS_FIFO 3 2 ops md ltac:(lia) Hmd)
    as ((_ & Hu & _) & c & Hh & Hall).
  assert (frames md !! 0%nat = Some f) as Hf by (vm_compute; reflexivity).
  assert (pageId f = pageNum ph) as Hp by (vm_compute; reflexivity).
  assert (0 ≤ pageNum ph) as Hpos by (simpl; lia).
  assert (length (data f) = 4096%nat) as Hlen.
  { exact (proj1 (Forall_lookup_1 _ _ _ _ Hall Hf)). }
  refine (conj Hmd (conj Hf (conj Hp (conj Hpos (conj Hlen _))))).
  split; [vm_compute; reflexivity|].
  exists c. refine (conj Hh (conj Hu _)).
  destruct (forcePage_writes_frame_to_disk 4096 "pool.bin" c bm md ph w 0 f
              Hmd Hh Hu Hf Hp Hpos Hlen)
    as (md1 & w1 & c1 & Hfp & Hh1 & Hpage & _ & Hd & _ & _ & _ & Hw & _).
  exists md1, w1, c1. exact (conj Hfp (conj Hh1 (conj Hpage (conj Hd Hw)))).
Defined.

Lemma pinPage_eviction_writes_back_witness :
  let ops := [OpPin 0; OpMarkDirty 0; OpUnpin 0; OpPin 1] in
  let r := example_session 4096 RS_FIFO [] 3 2 ops in
  let bm := (final_state r).1 in
  let w := (final_state r).2 in
  let md := final_pool r in
  let mdv := default md ((λ x, x.2) <$> selectVictim md) in
  let f := frame_at md 0 in
  let ph := mkPageHandle NO_PAGE None in
  mgmtData bm = Some md
  ∧ 0 ≤ 2
  ∧ Forall (λ g, pageId g ≠ 2 ∧ pageId g ≠ NO_PAGE) (frames md)
  ∧ selectVictim md = Some (Some 0%nat, mdv)
  ∧ frames md !! 0%nat = Some f
  ∧ 0 ≤ pageId f
  ∧ length (data f) = 4096%nat
  ∧ isDirty f = true
  ∧ ∃ c, handle_on 4096 "pool.bin" c (fh md) w
      ∧ ∃ md1 w1 c1 f1,
          pinPage 4096 bm ph 2 w
          = Some (RC_OK, with_md md1 bm, mkPageHandle 2 (Some 0%nat), w1)
          ∧ handle_on 4096 "pool.bin" c1 (fh md1) w1
          ∧ page_of 4096 c1 (Z.to_nat (pageId f)) = data f
          ∧ frames md1 !! 0%nat = Some f1
          ∧ payload f1 = (2, page_of 4096 c1 (Z.to_nat 2), false, 1)
          ∧ writeIO md1 = (writeIO md + 1) mod 2 ^ 32.
Proof.
  intros ops r bm w md mdv f ph.
  assert (mgmtData bm = Some md) as Hmd by (vm_compute; reflexivity).
  destruct (example_session_state 4096 RS_FIFO 3 2 ops md ltac:(lia) Hmd)
    as (_ & c & Hh & Hall).
  assert (0 ≤ 2) as Hpid by lia.
  assert (Forall (λ g, pageId g ≠ 2 ∧ pageId g ≠ NO_PAGE) (frames md)) as Hfull
    by (vm_compute; repeat constructor; discriminate).
  assert (selectVictim md = Some (Some 0%nat, mdv)) as Hsel by (vm_compute; reflexivity).
  assert (frames md !! 0%nat = Some f) as Hf by (vm_compute; reflexivity).
  assert (pageId f = 0) as Hp0 by (vm_compute; reflexivity).
  assert (0 ≤ pageId f) as Hpf by (rewrite Hp0; lia).
  assert (length (data f) = 4096%nat) as Hlen.
  { exact (proj1 (Forall_lookup_1 _ _ _ _ Hall Hf)). }
  assert (isDirty f = true) as Hd by (vm_compute; reflexivity).
  refine (conj Hmd (conj Hpid (conj Hfull (conj Hsel (conj Hf (conj Hpf
            (conj Hlen (conj Hd _)))))))).
  exists c. split; [exact Hh|].
  destruct (pinPage_eviction_writes_back 4096 "pool.bin" c bm md mdv ph 2 w 0 f
              Hmd Hh Hpid Hfull Hsel Hf Hpf Hlen)
    as (md1 & w1 & c1 & f1 & Hpin & Hh1 & Hdirty & _ & Hf1 & Hp1 & Hw & _).
  exists md1, w1, c1, f1.
  refine (conj Hpin (conj Hh1 (conj (Hdirty Hd) (conj Hf1 (conj Hp1 _))))).
  rewrite Hw, Hd. reflexivity.
Defined.

Lemma pinPage_then_unpinPage_witness :
  let ops := [OpPin 0; OpMarkDirty 0; OpUnpin 0; OpPin 1] in
  let r := example_session 4096 RS_LRU [] 3 2 ops in
  let bm := (final_state r).1 in
  let w := (final_state r).2 in
  let md := final_pool r in
  let ph := mkPageHandle NO_PAGE None in
  let res := default (RC_OK, bm, ph, w) (pinPage 4096 bm ph 0 w) in
  let bm1 := res.1.1.2 in
  let ph1 := res.1.2 in
  let w1 := res.2 in
  mgmtData bm = Some md
  ∧ pool_inv md
  ∧ pinPage 4096 bm ph 0 w = Some (RC_OK, bm1, ph1, w1)
  ∧ getFixCounts md = [0; 1]
  ∧ ∃ md1 md2,
      mgmtData bm1 = Some md1
      ∧ ph1 = mkPageHandle 0 (Some 0%nat)
      ∧ getFixCounts md1 = [1; 1]
      ∧ unpinPage bm1 ph1 = (RC_OK, with_md md2 bm1)
      ∧ getFixCounts md2 = getFixCounts md
      ∧ getDirtyFlags md2 = getDirtyFlags md.
Proof.
  intros ops r bm w md ph res bm1 ph1 w1.
  assert (mgmtData bm = Some md) as Hmd by (vm_compute; reflexivity).
  destruct (example_session_state 4096 RS_LRU 3 2 ops md ltac:(lia) Hmd)
    as (Hinv & _).
  assert (pinPage 4096 bm ph 0 w = Some (RC_OK, bm1, ph1, w1)) as Hpin
    by (vm_compute; reflexivity).
  refine (conj Hmd (conj Hinv (conj Hpin _))).
  split; [vm_compute; reflexivity|].
  destruct (pinPage_then_unpinPage 4096 bm md ph 0 w bm1 ph1 w1 Hmd Hinv Hpin)
    as (md1 & md2 & i & n & Hmd1 & Hph & _ & _ & _ & Hun & _ & _ & _ & _ & Hres).
  destruct Hres as (_ & Hfx & _ & Hdf & _).
  { apply Exists_exists. exists (frame_at md 0). split.
    - apply list_elem_of_lookup. exists 0%nat. vm_compute. reflexivity.
    - vm_compute. reflexivity. }
  exists md1, md2.
  assert (ph1 = mkPageHandle 0 (Some 0%nat)) as Hph0 by (vm_compute; reflexivity).
  assert (getFixCounts md1 = [1; 1]) as Hfx1.
  { assert (md1 = default md (mgmtData bm1)) as -> by (rewrite Hmd1; reflexivity).
    vm_compute. reflexivity. }
  exact (conj Hmd1 (conj Hph0 (conj Hfx1 (conj Hun (conj Hfx Hdf))))).
Defined.

Lemma lru_pin_makes_frame_most_recent_witness :
  let ops := [OpPin 0; OpUnpin 0; OpPin 1] in
  let r := example_session 4096 RS_LRU [] 3 2 ops in
  let bm := (final_state r).1 in
  let w := (final_state r).2 in
  let md := final_pool r in
  let ph := mkPageHandle NO_PAGE None in
  let res := default (RC_OK, bm, ph, w) (pinPage 4096 bm ph 0 w) in
  let bm1 := res.1.1.2 in
  let ph1 := res.1.2 in
  let w1 := res.2 in
  mgmtData bm = Some md
  ∧ pool_inv md
  ∧ lru_like (strat md)
  ∧ pinPage 4096 bm ph 0 w = Some (RC_OK, bm1, ph1, w1)
  ∧ ∃ l, lru_repr md l
      ∧ ∃ md1 i, mgmtData bm1 = Some md1
          ∧ ph1 = mkPageHandle 0 (Some i)
          ∧ lru_repr md1 (i :: filter (λ j, j ≠ i) l).
Proof.
  intros ops r bm w md ph res bm1 ph1 w1.
  assert (mgmtData bm = Some md) as Hmd by (vm_compute; reflexivity).
  destruct (example_session_state 4096 RS_LRU 3 2 ops md ltac:(lia) Hmd)
    as (Hinv & _).
  assert (lru_like (strat md)) as Hst by (left; vm_compute; reflexivity).
  assert (pinPage 4096 bm ph 0 w = Some (RC_OK, bm1, ph1, w1)) as Hpin
    by (vm_compute; reflexivity).
  refine (conj Hmd (conj Hinv (conj Hst (conj Hpin _)))).
  pose proof Hinv as (_ & _ & l & Hr). exists l. split; [exact Hr|].
  exact (lru_pin_makes_frame_most_recent 4096 bm md l ph 0 w bm1 ph1 w1
           Hmd Hinv Hst Hr Hpin).
Defined.

Lemma lru_victim_is_least_recently_used_witness :
  let ops := [OpPin 0; OpUnpin 0; OpPin 1] in
  let r := example_session 4096 RS_LRU [] 3 2 ops in
  let md := final_pool r in
  strat md ≠ RS_FIFO
  ∧ getFixCounts md = [0; 1]
  ∧ ∃ l, lru_repr md l
      ∧ (∀ l1 v l2 f,
           l = l1 ++ v :: l2 →
           frames md !! v = Some f → pinCount f ≤ 0 →
           (∀ j g, j ∈ l2 → frames md !! j = Some g → 0 < pinCount g) →
           selectVictim md = Some (Some v, md))
      ∧ selectVictim md = Some (Some 0%nat, md).
Proof.
  intros ops r md.
  assert (mgmtData (final_state r).1 = Some md) as Hmd by (vm_compute; reflexivity).
  destruct (example_session_state 4096 RS_LRU 3 2 ops md ltac:(lia) Hmd)
    as ((_ & _ & l & Hr) & _).
  assert (strat md ≠ RS_FIFO) as Hst by (vm_compute; discriminate).
  split; [exact Hst|]. split; [vm_compute; reflexivity|].
  exists l. split; [exact Hr|].
  destruct (lru_victim_is_least_recently_used md l Hr Hst) as [Hvictim _].
  split; [exact Hvictim|]. vm_compute. reflexivity.
Defined.

Lemma fifo_queue_is_first_in_first_out_witness :
  let ops := [OpPin 0; OpPin 1; OpUnpin 1] in
  let r := example_session 4096 RS_FIFO [] 3 2 ops in
  let md := final_pool r in
  0 ≤ fifoHead md < capacity md
  ∧ length (fifoQ md) = length (frames md)
  ∧ fifo_entries md = [0; 1]
  ∧ getFixCounts md = [1; 0]
  ∧ ∃ md1, selectVictim md = Some (Some 1%nat, md1)
           ∧ fifo_entries md1 = []
           ∧ frames md1 = frames md.
Proof.
  intros ops r md.
  assert (fifoHead md = 0) as Hh0 by (vm_compute; reflexivity).
  assert (capacity md = 2) as Hc2 by (vm_compute; reflexivity).
  assert (0 ≤ fifoHead md < capacity md) as Hh by (rewrite Hh0, Hc2; lia).
  assert (length (fifoQ md) = length (frames md)) as Hq by (vm_compute; reflexivity).
  refine (conj Hh (conj Hq _)).
  split; [vm_compute; reflexivity|]. split; [vm_compute; reflexivity|].
  destruct (fifo_queue_is_first_in_first_out md Hh Hq) as [_ Hvictim].
  apply (Hvictim [0] 1 [] (frame_at md 1)).
  - vm_compute. reflexivity.
  - vm_compute. reflexivity.
  - intros e g He Hg. apply list_elem_of_singleton in He. subst e.
    assert (g = frame_at md (Z.to_nat 0)) as ->
      by (unfold frame_at; rewrite Hg; reflexivity).
    vm_compute. discriminate.
  - vm_compute. reflexivity.
  - vm_compute. reflexivity.
Defined.
